(** * scala-applogs-client: the ingestion-to-durability pipeline

    A shallow embedding of the Go packages [applogs] (producer API, bounded
    queue, dispatcher) and [logger] (remote append, fallback spool, recovery
    scanner), with the library calls they make (channels, [strings],
    [path/filepath], [bufio.Scanner], go-redis, zap) modelled by the behaviour
    their documentation gives.  [encoding/json] is kept as an interface. *)

From Stdlib Require Import ZArith Ascii String List Lia DecimalString DecimalPos.
From stdpp Require Import base option list gmap strings sorting.

Set Warnings "-register-all".

Local Open Scope string_scope.
Local Open Scope Z_scope.
Local Open Scope list_scope.

(** ** Outcomes of a call

    A Go call returns, panics, or ends the process ([os.Exit], reached through
    zap's [Fatal]). *)

Inductive result (A : Type) : Type :=
| Done (a : A)
| Panic (msg : string)
| Exit (code : Z).
Arguments Done {A} a.
Arguments Panic {A} msg.
Arguments Exit {A} code.

#[global] Instance result_ret : MRet result := fun _ a => Done a.

#[global] Instance result_bind : MBind result := fun _ _ k r =>
  match r with
  | Done a => k a
  | Panic msg => Panic msg
  | Exit code => Exit code
  end.

(** ** Go library functions used by the source *)

Module strings.

(** [strings.HasPrefix(s, prefix)]. *)
Definition HasPrefix (s pre : string) : bool := String.prefix pre s.

(** [strings.Contains(s, substr)]. *)
Fixpoint Contains (s substr : string) : bool :=
  String.prefix substr s ||
  match s with
  | EmptyString => false
  | String _ rest => Contains rest substr
  end.

End strings.

Module filepath.

Definition Separator : ascii := "/"%char.

Fixpoint has_separator (s : string) : bool :=
  match s with
  | EmptyString => false
  | String c rest => Ascii.eqb c Separator || has_separator rest
  end.

(** [filepath.Ext(path)]: the suffix beginning at the final dot of the
    final element of [path]; empty when there is no such dot.  The Go loop
    walks from the end and stops at a separator. *)
Fixpoint Ext (path : string) : string :=
  match path with
  | EmptyString => EmptyString
  | String c rest =>
      match Ext rest with
      | EmptyString =>
          if Ascii.eqb c "."%char && negb (has_separator rest)
          then path else EmptyString
      | e => e
      end
  end.

(** [filepath.Join(dir, name)] for a directory path and an entry name
    that are already clean. *)
Definition Join (dir name : string) : string :=
  dir +:+ String Separator name.

End filepath.

Module bufio.

(** [bufio.MaxScanTokenSize]. *)
Definition MaxScanTokenSize : N := 65536%N.

Definition dropCR (rev_line : list ascii) : list ascii :=
  match rev_line with
  | c :: rest => if Ascii.eqb c "013"%char then rest else rev_line
  | [] => []
  end.

Definition token (rev_line : list ascii) : string :=
  string_of_list_ascii (rev (dropCR rev_line)).

(** A [bufio.Scanner] with the default split function [ScanLines] and the
    default buffer, run to its end over the bytes of a file: the tokens
    [Scan] delivers, and whether [Err] is then [ErrTooLong].  [cur] holds
    the bytes of the current line, last first, and [n] counts them: a line
    that fills the buffer before its newline arrives stops the scan. *)
Fixpoint scan (data : string) (cur : list ascii) (n : N)
  : list string * bool :=
  match data with
  | EmptyString =>
      match cur with
      | [] => ([], false)
      | _ => ([token cur], false)
      end
  | String c rest =>
      if Ascii.eqb c "010"%char then
        let '(lines, too_long) := scan rest [] 0%N in
        (token cur :: lines, too_long)
      else if N.leb MaxScanTokenSize (N.succ n) then ([], true)
      else scan rest (c :: cur) (N.succ n)
  end.

Definition ScanLines (data : string) : list string * bool := scan data [] 0%N.

End bufio.

(** ** Values

    A Go [error]: whether [errors.Is(err, ErrRedisUnavailable)] holds, and
    the text [err.Error()] gives. *)

Record error : Type := MkError {
  is_ErrRedisUnavailable : bool;
  error_text : string
}.

Definition ErrRedisUnavailable : error := MkError true "redis is unavailable".

Definition errors_New (text : string) : error := MkError false text.

(** A [time.Time], by the two renderings the program makes of it: the layout
    ["20060102150405"] in spool file names, and the JSON text of a
    timestamp. *)

Record Time : Type := MkTime {
  Format_20060102150405 : string;
  MarshalJSON : string
}.

(** A Go [interface{}] value, as far as the log records hold them.  [VChan]
    stands for the values [json.Marshal] refuses (channels, functions). *)

Inductive any : Type :=
| VNil
| VBool (b : bool)
| VNumber (n : Z)
| VString (s : string)
| VTime (t : Time)
| VSlice (l : list any)
| VMap (m : list (string * any))
| VChan.

(** [v.(string)]: the type assertion, [None] where Go panics. *)
Definition as_string (v : option any) : option string :=
  match v with
  | Some (VString s) => Some s
  | _ => None
  end.

(** The [fields] argument of the producer API: a [map[string]interface{}],
    which may be nil. *)
Definition fields_value (fields : option (list (string * any))) : any :=
  match fields with
  | Some m => VMap m
  | None => VNil
  end.

(** [encoding/json], at the type the program uses it: [Marshal] of a
    [map[string]interface{}] and [Unmarshal] of a line into one. *)

Class Json : Type := {
  json_Marshal : gmap string any -> error + string;
  json_Unmarshal : string -> error + gmap string any
}.

(** ** The structured logger (zap) *)

Inductive Level : Type := DebugLevel | InfoLevel | WarnLevel | ErrorLevel | FatalLevel.

Inductive Field : Type :=
| zap_String (key val : string)
| zap_Int (key : string) (val : Z)
| zap_Error (err : error)
| zap_Any (key : string) (val : any).

Record Entry : Type := MkEntry {
  entry_level : Level;
  entry_message : string;
  entry_fields : list Field
}.

(** ** The remote sink (Redis)

    A key holds a list, head first, or a value of another kind.  [fault] is
    the error every command meets while the server cannot be used. *)

Inductive rvalue : Type :=
| RList (items : list string)
| RString (s : string).

Record redis : Type := MkRedis {
  db : gmap string rvalue;
  fault : option error
}.

Definition WRONGTYPE : error :=
  errors_New "WRONGTYPE Operation against a key holding the wrong kind of value".

(** [LPUSH key data]: insert at the head of the list at [key], creating
    it when absent. *)
Definition redis_LPush (r : redis) (key data : string) : redis * option error :=
  match fault r with
  | Some e => (r, Some e)
  | None =>
      match db r !! key with
      | None => (MkRedis (<[key := RList [data]]> (db r)) None, None)
      | Some (RList items) =>
          (MkRedis (<[key := RList (data :: items)]> (db r)) None, None)
      | Some (RString _) => (r, Some WRONGTYPE)
      end
  end.

(** A pipeline: the queued [LPUSH] commands, in order. *)
Definition Pipeline : Type := list (string * string).

Fixpoint run_cmds (r : redis) (cmds : Pipeline) : redis * list (option error) :=
  match cmds with
  | [] => (r, [])
  | (key, data) :: rest =>
      let '(r1, e) := redis_LPush r key data in
      let '(r2, es) := run_cmds r1 rest in
      (r2, e :: es)
  end.

Fixpoint first_error (es : list (option error)) : option error :=
  match es with
  | [] => None
  | Some e :: _ => Some e
  | None :: rest => first_error rest
  end.

(** [pipe.Exec(ctx)]: nothing is sent for an empty pipeline; otherwise
    every command gets its own result and the call returns the first
    error among them. *)
Definition pipe_Exec (r : redis) (cmds : Pipeline)
  : redis * list (option error) * option error :=
  match cmds with
  | [] => (r, [], None)
  | _ => let '(r', es) := run_cmds r cmds in (r', es, first_error es)
  end.

(** ** The local disk: the spool directory

    The regular files of the directory [fallbackPath], by entry name, and
    the errors the next directory listing, open or write meets (a missing
    directory, a permission, a full disk). *)

Record disk : Type := MkDisk {
  files : gmap string string;
  ReadDir_err : option error;
  Open_err : option error;
  Write_err : option error
}.

Definition newline : string := String "010"%char EmptyString.

Definition name_le (a b : string) : Prop := String.leb a b = true.

#[global] Instance name_le_dec : RelDecision name_le.
Proof. intros a b. unfold name_le. apply _. Defined.

(** [os.ReadDir]: the entry names, sorted by name. *)
Definition os_ReadDir (d : disk) : error + list string :=
  match ReadDir_err d with
  | Some err => inl err
  | None => inr (merge_sort name_le (fst <$> map_to_list (files d)))
  end.

(** [os.Open]. *)
Definition os_Open (d : disk) (name : string) : error + string :=
  match Open_err d with
  | Some err => inl err
  | None =>
      match files d !! name with
      | Some content => inr content
      | None => inl (errors_New "no such file or directory")
      end
  end.

(** [os.Rename]; the program drops its error. *)
Definition os_Rename (old new : string) (d : disk) : disk :=
  match files d !! old with
  | Some content =>
      MkDisk (<[new := content]> (delete old (files d)))
             (ReadDir_err d) (Open_err d) (Write_err d)
  | None => d
  end.

(** [os.Remove]; the program drops its error. *)
Definition os_Remove (name : string) (d : disk) : disk :=
  MkDisk (delete name (files d)) (ReadDir_err d) (Open_err d) (Write_err d).

Definition write_file (name content : string) (d : disk) : disk :=
  MkDisk (<[name := content]> (files d)) (ReadDir_err d) (Open_err d) (Write_err d).

(** ** Package [logger]: the process-wide state *)

Record world : Type := MkWorld {
  logger : list Entry;          (* what the zap logger has written, oldest first *)
  rdb : option redis;           (* [None] is the nil client *)
  serviceName : string;
  instanceID : string;
  facilityID : string;
  instanceType : string;
  fallbackPath : string;
  spool : disk;
  clock : Time                  (* what [time.Now()] reads *)
}.

Definition set_logger (l : list Entry) (w : world) : world :=
  MkWorld l (rdb w) (serviceName w) (instanceID w) (facilityID w)
          (instanceType w) (fallbackPath w) (spool w) (clock w).

Definition set_rdb (r : option redis) (w : world) : world :=
  MkWorld (logger w) r (serviceName w) (instanceID w) (facilityID w)
          (instanceType w) (fallbackPath w) (spool w) (clock w).

Definition set_spool (d : disk) (w : world) : world :=
  MkWorld (logger w) (rdb w) (serviceName w) (instanceID w) (facilityID w)
          (instanceType w) (fallbackPath w) d (clock w).

(** [logger.<Level>(msg, fields...)] for the levels that return. *)
Definition zap_log (lvl : Level) (msg : string) (fs : list Field) (w : world) : world :=
  set_logger (logger w ++ [MkEntry lvl msg fs]) w.

Definition nil_dereference : string :=
  "runtime error: invalid memory address or nil pointer dereference".

Definition ErrTooLong : error := errors_New "bufio.Scanner: token too long".

Section logger.
Context `{Json}.

(** Check if Redis is unavailable. *)
Definition isRedisUnavailable (err : error) : bool :=
  is_ErrRedisUnavailable err || strings.Contains (error_text err) "connection refused".

(** Fallback mechanism to store logs locally if Redis fails.  The file is
    opened with [O_APPEND|O_CREATE]; the results of [json.Marshal] and of
    [WriteString] are not looked at. *)
Definition logToFallback (logData : gmap string any) (w : world) : world :=
  let name := "fallback_" +:+ Format_20060102150405 (clock w) +:+ ".log" in
  match Open_err (spool w) with
  | Some err => zap_log ErrorLevel "Failed to open fallback log file" [zap_Error err] w
  | None =>
      let old := default EmptyString (files (spool w) !! name) in
      let data := match json_Marshal logData with
                  | inr data => data
                  | inl _ => EmptyString
                  end in
      match Write_err (spool w) with
      | Some _ => set_spool (write_file name old (spool w)) w
      | None => set_spool (write_file name (old +:+ data +:+ newline) (spool w)) w
      end
  end.

(** The record [LogToRedis] builds for one entry. *)
Definition logData_of (level message : string) (fields : option (list (string * any)))
    (w : world) : gmap string any :=
  list_to_map
    [ ("timestamp", VTime (clock w));
      ("level", VString level);
      ("message", VString message);
      ("metadata", fields_value fields);
      ("service_name", VString (serviceName w));
      ("instance_id", VString (instanceID w));
      ("facility_id", VString (facilityID w));
      ("instance_type", VString (instanceType w)) ].

(** General function to handle logging with fallback. *)
Definition LogToRedis (level message : string) (fields : option (list (string * any)))
    (w : world) : result world :=
  let logData := logData_of level message fields w in
  let key := "applogs:" +:+ facilityID w +:+ ":" +:+ instanceType w +:+ ":"
             +:+ serviceName w +:+ ":" +:+ instanceID w in
  match json_Marshal logData with
  | inl err =>
      Done (zap_log ErrorLevel "Failed to marshal log data to JSON" [zap_Error err] w)
  | inr data =>
      match rdb w with
      | None => Panic nil_dereference
      | Some r =>
          let '(r', err) := redis_LPush r key data in
          let w1 := set_rdb (Some r') w in
          match err with
          | None => Done w1
          | Some e =>
              if isRedisUnavailable e then
                Done (logToFallback logData
                        (zap_log WarnLevel "Redis unavailable, saving to fallback"
                                 [zap_Error e] w1))
              else
                Done (zap_log ErrorLevel "Failed to push log to Redis" [zap_Error e] w1)
          end
      end
  end.

(** The key [pushBatchToRedis] computes for a record: four type assertions,
    left to right; [None] where one of them panics. *)
Definition batch_key (logData : gmap string any) : option string :=
  f ← as_string (logData !! "facility_id");
  t ← as_string (logData !! "instance_type");
  s ← as_string (logData !! "service_name");
  i ← as_string (logData !! "instance_id");
  Some ("applogs:" +:+ f +:+ ":" +:+ t +:+ ":" +:+ s +:+ ":" +:+ i).

(** First loop of [pushBatchToRedis]: one [LPUSH] queued per record that
    marshals. *)
Fixpoint queue_batch (logs : list (gmap string any)) (pipe : Pipeline) (w : world)
  : result (Pipeline * world) :=
  match logs with
  | [] => Done (pipe, w)
  | logData :: rest =>
      match batch_key logData with
      | None => Panic "interface conversion: interface {} is not string"
      | Some key =>
          match json_Marshal logData with
          | inl err =>
              queue_batch rest pipe
                (zap_log ErrorLevel "Failed to marshal log data to JSON" [zap_Error err] w)
          | inr data => queue_batch rest (pipe ++ [(key, data)]) w
          end
      end
  end.

(** Second loop of [pushBatchToRedis]: the per-command errors. *)
Fixpoint check_cmds (cmds : list (string * string * option error)) (finalErr : option error)
    (w : world) : world * option error :=
  match cmds with
  | [] => (w, finalErr)
  | (key, data, None) :: rest => check_cmds rest finalErr w
  | (key, data, Some e) :: rest =>
      check_cmds rest (Some e)
        (zap_log WarnLevel "Failed to push individual log to Redis"
                 [zap_String "cmd" ("lpush " +:+ key +:+ " " +:+ data); zap_Error e] w)
  end.

(** pushBatchToRedis sends logs in a single batch operation. *)
Definition pushBatchToRedis (logs : list (gmap string any)) (w : world)
  : result (world * option error) :=
  match rdb w with
  | None => Panic nil_dereference
  | Some r =>
      '(pipe, w1) ← queue_batch logs [] w;
      let '(r', es, err) := pipe_Exec r pipe in
      let w2 := set_rdb (Some r') w1 in
      match err with
      | Some e => Done (zap_log WarnLevel "Pipeline execution failed" [zap_Error e] w2, Some e)
      | None => Done (check_cmds (zip pipe es) None w2)
      end
  end.

(** The naming convention of spool files. *)
Definition is_fallback_name (name : string) : bool :=
  String.eqb (filepath.Ext name) ".log" && strings.HasPrefix name "fallback_".

(** One turn of the scanner loop of [recoverFallbackLogs]. *)
Definition read_line (filePath : string) (acc : list (gmap string any) * bool * world)
    (line : string) : list (gmap string any) * bool * world :=
  let '(batchLogs, corrupt, w) := acc in
  if (String.length line =? 0)%nat then acc
  else match json_Unmarshal line with
       | inl _ =>
           (batchLogs, true,
            zap_log ErrorLevel "Invalid JSON in fallback log line"
                    [zap_String "file" filePath; zap_String "line" line] w)
       | inr logData => (batchLogs ++ [logData], corrupt, w)
       end.

(** The body of the file loop of [recoverFallbackLogs], for an entry whose
    name matches. *)
Definition recover_file (name : string) (w : world) : result world :=
  let filePath := filepath.Join (fallbackPath w) name in
  match os_Open (spool w) name with
  | inl err =>
      Done (zap_log ErrorLevel "Failed to read fallback log"
                    [zap_String "file" filePath; zap_Error err] w)
  | inr content =>
      let '(lines, too_long) := bufio.ScanLines content in
      let '(batchLogs, corrupt, w1) := foldl (read_line filePath) ([], false, w) lines in
      '(w2, redisPushFailed) ←
        match batchLogs with
        | [] => Done (w1, false)
        | _ =>
            '(w', err) ← pushBatchToRedis batchLogs w1;
            match err with
            | Some _ => Done (w', true)
            | None =>
                Done (zap_log InfoLevel "Batch log successfully sent to Redis"
                        [zap_String "file" filePath;
                         zap_Int "count" (Z.of_nat (length batchLogs))] w', false)
            end
        end;
      let w3 := if (too_long : bool)
                then zap_log ErrorLevel "Error reading fallback log line by line"
                             [zap_Error ErrTooLong] w2
                else w2 in
      if (corrupt : bool) then
        Done (set_spool (os_Rename name (name +:+ ".corrupt") (spool w3)) w3)
      else if negb redisPushFailed then
        Done (set_spool (os_Remove name (spool w3)) w3)
      else Done w3
  end.

Definition recover_entry (name : string) (w : world) : result world :=
  if is_fallback_name name then recover_file name w else Done w.

Fixpoint recover_entries (names : list string) (w : world) : result world :=
  match names with
  | [] => Done w
  | name :: rest => w' ← recover_entry name w; recover_entries rest w'
  end.

(** recoverFallbackLogs scans fallback logs and resends them to Redis. *)
Definition recoverFallbackLogs (w : world) : result world :=
  match rdb w with
  | None => Done (zap_log ErrorLevel "Redis client is not set. Skipping recovery." [] w)
  | Some _ =>
      match os_ReadDir (spool w) with
      | inl err => Done (zap_log ErrorLevel "Failed to scan fallback directory" [zap_Error err] w)
      | inr names => recover_entries names w
      end
  end.

End logger.

(** ** Package [applogs]: queue, producer calls, dispatcher *)

(** logEntry represents a single log entry for asynchronous processing. *)
Record logEntry : Type := MkLogEntry {
  level : string;
  message : string;
  fields : option (list (string * any))
}.

(** A buffered channel [chan logEntry]: the buffer, oldest first, its
    capacity, and whether [close] has run. *)
Record chan : Type := MkChan {
  buf : list logEntry;
  cap : nat;
  closed : bool
}.

(** Where the goroutine running [processLogs] is: blocked in the receive of
    its [range] loop, running (holding the entry it received, if it has one
    to process), or returned from the loop. *)
Inductive goroutine : Type :=
| Parked
| Running (cur : option logEntry)
| Returned.

(** The [Applogs] client with the goroutine it started and the state of
    package [logger]. *)
Record Applogs : Type := MkApplogs {
  logQueue : chan;
  consumer : goroutine;
  globals : world
}.

Section applogs.
Context `{Json}.

(** NewLogger initializes the logger and sets up the log queue.
    [InitApplogs] has run when [w] is read; [make] panics on a negative
    size. *)
Definition NewLogger (queueSize : Z) (w : world) : result Applogs :=
  if queueSize <? 0 then Panic "makechan: size out of range"
  else Done (MkApplogs (MkChan [] (Z.to_nat queueSize) false) (Running None) w).

(** logAsync queues a log entry for asynchronous processing.  The [select]
    takes the send when it can proceed at once: a receiver is waiting, or
    the buffer has room; a send on a closed channel panics; otherwise the
    [default] branch runs. *)
Definition logAsync (level message : string) (fields : option (list (string * any)))
    (a : Applogs) : result Applogs :=
  let entry := MkLogEntry level message fields in
  let q := logQueue a in
  if closed q then Panic "send on closed channel"
  else
    match consumer a with
    | Parked => Done (MkApplogs q (Running (Some entry)) (globals a))
    | _ =>
        if (length (buf q) <? cap q)%nat then
          Done (MkApplogs (MkChan (buf q ++ [entry]) (cap q) (closed q))
                          (consumer a) (globals a))
        else
          Done (MkApplogs q (consumer a)
                  (zap_log WarnLevel "Log queue is full, dropping log"
                           [zap_String "level" level; zap_String "message" message]
                           (globals a)))
    end.

(** The body of the loop of [processLogs].  zap's [Fatal] writes the entry
    and calls [os.Exit(1)]. *)
Definition process_entry (entry : logEntry) (w : world) : result world :=
  w1 ← LogToRedis (level entry) (message entry) (fields entry) w;
  let metadata := [zap_Any "metadata" (fields_value (fields entry))] in
  if String.eqb (level entry) "info" then
    Done (zap_log InfoLevel (message entry) metadata w1)
  else if String.eqb (level entry) "debug" then
    Done (zap_log DebugLevel (message entry) metadata w1)
  else if String.eqb (level entry) "warn" then
    Done (zap_log WarnLevel (message entry) metadata w1)
  else if String.eqb (level entry) "error" then
    Done (zap_log ErrorLevel (message entry) metadata w1)
  else if String.eqb (level entry) "fatal" then Exit 1
  else Done w1.

(** The receive of [for entry := range a.logQueue]. *)
Definition receive (a : Applogs) : Applogs :=
  let q := logQueue a in
  match buf q with
  | entry :: rest =>
      MkApplogs (MkChan rest (cap q) (closed q)) (Running (Some entry)) (globals a)
  | [] =>
      MkApplogs q (if closed q then Returned else Parked) (globals a)
  end.

(** processLogs handles asynchronous processing of logs from the queue: one
    move of its goroutine. *)
Definition processLogs (a : Applogs) : result Applogs :=
  match consumer a with
  | Running (Some entry) =>
      w ← process_entry entry (globals a);
      Done (MkApplogs (logQueue a) (Running None) w)
  | Running None => Done (receive a)
  | Parked | Returned => Done a
  end.

(** The goroutine left to run until it blocks or returns. *)
Fixpoint drain (fuel : nat) (a : Applogs) : result Applogs :=
  match fuel with
  | O => Done a
  | S fuel' =>
      match consumer a with
      | Running _ => a' ← processLogs a; drain fuel' a'
      | Parked | Returned => Done a
      end
  end.

(** StopLogger gracefully shuts down the logger.  [close] panics on a
    closed channel and releases a blocked receiver, whose loop ends. *)
Definition StopLogger (a : Applogs) : result Applogs :=
  let q := logQueue a in
  if closed q then Panic "close of closed channel"
  else
    Done (MkApplogs (MkChan (buf q) (cap q) true)
            (match consumer a with Parked => Returned | g => g end)
            (zap_log InfoLevel "Logger stopped gracefully" [] (globals a))).

Definition Info (message : string) (fields : option (list (string * any))) :=
  logAsync "info" message fields.

Definition Debug (message : string) (fields : option (list (string * any))) :=
  logAsync "debug" message fields.

Definition Warn (message : string) (fields : option (list (string * any))) :=
  logAsync "warn" message fields.

Definition Error (message : string) (fields : option (list (string * any))) :=
  logAsync "error" message fields.

Definition Fatal (message : string) (fields : option (list (string * any))) :=
  logAsync "fatal" message fields.

(** The entries accepted and not yet processed, in the order the dispatcher
    will process them. *)
Definition pending (a : Applogs) : list logEntry :=
  match consumer a with
  | Running (Some entry) => entry :: buf (logQueue a)
  | _ => buf (logQueue a)
  end.

(** What the channel operations keep true. *)
Definition chan_ok (a : Applogs) : Prop :=
  (length (buf (logQueue a)) <= cap (logQueue a))%nat /\
  (consumer a = Parked -> buf (logQueue a) = [] /\ closed (logQueue a) = false) /\
  (consumer a = Returned -> buf (logQueue a) = [] /\ closed (logQueue a) = true).

End applogs.

(** ** A reference JSON codec

    An instance of [Json] to run the model on concrete inputs: objects with
    keys in sorted order (as [json.Marshal] writes a map), strings with the
    short escapes, integers, [true], [false], [null], arrays and nested
    objects.  The general theorems below hold for every instance. *)

Module JsonRef.

Definition dquote : ascii := "034"%char.

Definition hex_digit (n : N) : ascii :=
  if (n <? 10)%N then ascii_of_N (48 + n) else ascii_of_N (87 + n).

Definition escape (c : ascii) : string :=
  if Ascii.eqb c dquote then String "\"%char (String dquote EmptyString)
  else if Ascii.eqb c "\"%char then "\\"
  else if Ascii.eqb c "010"%char then "\n"
  else if Ascii.eqb c "013"%char then "\r"
  else if Ascii.eqb c "009"%char then "\t"
  else if (N_of_ascii c <? 32)%N then
    "\u00" +:+ String (hex_digit (N_of_ascii c / 16)) (String (hex_digit (N_of_ascii c mod 16)) EmptyString)
  else String c EmptyString.

Fixpoint quote_body (s : string) : string :=
  match s with
  | EmptyString => EmptyString
  | String c rest => escape c +:+ quote_body rest
  end.

Definition quote (s : string) : string :=
  String dquote (quote_body s +:+ String dquote EmptyString).

Definition string_of_Z (n : Z) : string :=
  DecimalString.NilZero.string_of_int (Z.to_int n).

Fixpoint join (sep : string) (parts : list string) : string :=
  match parts with
  | [] => EmptyString
  | [p] => p
  | p :: rest => p +:+ sep +:+ join sep rest
  end.

Definition member_le (p q : string * string) : Prop := name_le p.1 q.1.

#[export] Instance member_le_dec : RelDecision member_le.
Proof. intros p q. unfold member_le. apply _. Defined.

Definition render_object (members : list (string * string)) : string :=
  "{" +:+ join "," ((fun p => quote p.1 +:+ ":" +:+ p.2) <$> merge_sort member_le members) +:+ "}".

Definition render_array (items : list string) : string :=
  "[" +:+ join "," items +:+ "]".

(** The JSON text of a value; [None] for an unsupported type. *)
Fixpoint marshal_value (v : any) : option string :=
  match v with
  | VNil => Some "null"
  | VBool b => Some (if b then "true" else "false")
  | VNumber n => Some (string_of_Z n)
  | VString s => Some (quote s)
  | VTime t => Some (quote (MarshalJSON t))
  | VSlice l =>
      items ← (fix go (l : list any) : option (list string) :=
                 match l with
                 | [] => Some []
                 | x :: r => s ← marshal_value x; ss ← go r; Some (s :: ss)
                 end) l;
      Some (render_array items)
  | VMap m =>
      members ← (fix go (m : list (string * any)) : option (list (string * string)) :=
                   match m with
                   | [] => Some []
                   | (k, x) :: r => s ← marshal_value x; ss ← go r; Some ((k, s) :: ss)
                   end) m;
      Some (render_object members)
  | VChan => None
  end.

Definition Marshal (m : gmap string any) : error + string :=
  match marshal_value (VMap (map_to_list m)) with
  | Some data => inr data
  | None => inl (errors_New "json: unsupported type")
  end.

Definition is_space (c : ascii) : bool :=
  Ascii.eqb c " "%char || Ascii.eqb c "009"%char || Ascii.eqb c "010"%char || Ascii.eqb c "013"%char.

Fixpoint skip_space (s : string) : string :=
  match s with
  | String c rest => if is_space c then skip_space rest else s
  | EmptyString => EmptyString
  end.

Definition digit_of (c : ascii) : option Z :=
  let n := N_of_ascii c in
  if ((48 <=? n) && (n <=? 57))%N then Some (Z.of_N n - 48) else None.

Definition hex_of (c : ascii) : option N :=
  let n := N_of_ascii c in
  if ((48 <=? n) && (n <=? 57))%N then Some (n - 48)%N
  else if ((97 <=? n) && (n <=? 102))%N then Some (n - 87)%N
  else if ((65 <=? n) && (n <=? 70))%N then Some (n - 55)%N
  else None.

Fixpoint parse_digits (s : string) (acc : Z) : Z * string :=
  match s with
  | String c rest =>
      match digit_of c with
      | Some d => parse_digits rest (10 * acc + d)
      | None => (acc, s)
      end
  | EmptyString => (acc, s)
  end.

Definition starts_with_digit (s : string) : bool :=
  match s with
  | String c _ => bool_decide (is_Some (digit_of c))
  | EmptyString => false
  end.

(** An integer; a fraction or an exponent is not read. *)
Definition parse_number (s : string) : option (any * string) :=
  let '(neg, body) := match s with
                      | String c rest => if Ascii.eqb c "-"%char then (true, rest) else (false, s)
                      | EmptyString => (false, s)
                      end in
  if starts_with_digit body then
    let '(n, rest) := parse_digits body 0 in
    match rest with
    | String c _ =>
        if Ascii.eqb c "."%char || Ascii.eqb c "e"%char || Ascii.eqb c "E"%char then None
        else Some (VNumber (if neg then - n else n), rest)
    | EmptyString => Some (VNumber (if neg then - n else n), rest)
    end
  else None.

Definition unescape (c : ascii) : option ascii :=
  if Ascii.eqb c dquote then Some dquote
  else if Ascii.eqb c "\"%char then Some "\"%char
  else if Ascii.eqb c "/"%char then Some "/"%char
  else if Ascii.eqb c "n"%char then Some "010"%char
  else if Ascii.eqb c "r"%char then Some "013"%char
  else if Ascii.eqb c "t"%char then Some "009"%char
  else if Ascii.eqb c "b"%char then Some "008"%char
  else if Ascii.eqb c "f"%char then Some "012"%char
  else None.

(** The rest of a string literal after its opening quote. *)
Fixpoint parse_string_body (s : string) : option (string * string) :=
  match s with
  | EmptyString => None
  | String c rest =>
      if Ascii.eqb c dquote then Some (EmptyString, rest)
      else if Ascii.eqb c "\"%char then
        match rest with
        | String e rest1 =>
            if Ascii.eqb e "u"%char then
              match rest1 with
              | String h1 (String h2 (String h3 (String h4 rest2))) =>
                  a ← hex_of h1; b ← hex_of h2; c3 ← hex_of h3; d ← hex_of h4;
                  let n := (((a * 16 + b) * 16 + c3) * 16 + d)%N in
                  if (n <? 128)%N then
                    '(t, r) ← parse_string_body rest2; Some (String (ascii_of_N n) t, r)
                  else None
              | _ => None
              end
            else
              ch ← unescape e;
              '(t, r) ← parse_string_body rest1; Some (String ch t, r)
        | EmptyString => None
        end
      else if (N_of_ascii c <? 32)%N then None
      else '(t, r) ← parse_string_body rest; Some (String c t, r)
  end.

Fixpoint parse_value (fuel : nat) (s : string) : option (any * string) :=
  match fuel with
  | O => None
  | S fuel' =>
      match skip_space s with
      | EmptyString => None
      | String c rest =>
          if Ascii.eqb c "{"%char then
            match skip_space rest with
            | String c1 rest1 =>
                if Ascii.eqb c1 "}"%char then Some (VMap [], rest1)
                else '(m, r) ← parse_members fuel' rest; Some (VMap m, r)
            | EmptyString => None
            end
          else if Ascii.eqb c "["%char then
            match skip_space rest with
            | String c1 rest1 =>
                if Ascii.eqb c1 "]"%char then Some (VSlice [], rest1)
                else '(l, r) ← parse_elems fuel' rest; Some (VSlice l, r)
            | EmptyString => None
            end
          else if Ascii.eqb c dquote then
            '(str, r) ← parse_string_body rest; Some (VString str, r)
          else if String.prefix "true" (String c rest) then
            Some (VBool true, String.substring 4 (String.length rest) (String c rest))
          else if String.prefix "false" (String c rest) then
            Some (VBool false, String.substring 5 (String.length rest) (String c rest))
          else if String.prefix "null" (String c rest) then
            Some (VNil, String.substring 4 (String.length rest) (String c rest))
          else parse_number (String c rest)
      end
  end
with parse_members (fuel : nat) (s : string) : option (list (string * any) * string) :=
  match fuel with
  | O => None
  | S fuel' =>
      match skip_space s with
      | String c rest =>
          if Ascii.eqb c dquote then
            '(k, r1) ← parse_string_body rest;
            match skip_space r1 with
            | String c2 r2 =>
                if Ascii.eqb c2 ":"%char then
                  '(v, r3) ← parse_value fuel' r2;
                  match skip_space r3 with
                  | String c4 r4 =>
                      if Ascii.eqb c4 ","%char then
                        '(ms, r5) ← parse_members fuel' r4; Some ((k, v) :: ms, r5)
                      else if Ascii.eqb c4 "}"%char then Some ([(k, v)], r4)
                      else None
                  | EmptyString => None
                  end
                else None
            | EmptyString => None
            end
          else None
      | EmptyString => None
      end
  end
with parse_elems (fuel : nat) (s : string) : option (list any * string) :=
  match fuel with
  | O => None
  | S fuel' =>
      '(v, r1) ← parse_value fuel' s;
      match skip_space r1 with
      | String c r2 =>
          if Ascii.eqb c ","%char then
            '(l, r3) ← parse_elems fuel' r2; Some (v :: l, r3)
          else if Ascii.eqb c "]"%char then Some ([v], r2)
          else None
      | EmptyString => None
      end
  end.

(** A line decoded into a [map[string]interface{}]: an object, with the
    last of duplicate keys kept, or [null], which leaves the map nil. *)
Definition Unmarshal (line : string) : error + gmap string any :=
  match parse_value (S (String.length line)) line with
  | Some (v, rest) =>
      match skip_space rest with
      | EmptyString =>
          match v with
          | VMap m => inr (list_to_map (reverse m))
          | VNil => inr ∅
          | _ => inl (errors_New "json: cannot unmarshal into Go value of type map[string]interface {}")
          end
      | _ => inl (errors_New "invalid character after top-level value")
      end
  | None => inl (errors_New "invalid character looking for beginning of value")
  end.

#[export] Instance codec : Json := {| json_Marshal := Marshal; json_Unmarshal := Unmarshal |}.

End JsonRef.

(** ** Reading the spool file: what the line loop computes *)

Section recovery_defs.
Context `{Json}.

(** A line the scanner delivered that [json.Unmarshal] rejects. *)
Definition malformed (line : string) : bool :=
  negb (String.length line =? 0)%nat &&
  match json_Unmarshal line with inl _ => true | inr _ => false end.

(** The records of the lines that decode, in file order. *)
Fixpoint decoded (lines : list string) : list (gmap string any) :=
  match lines with
  | [] => []
  | line :: rest =>
      if (String.length line =? 0)%nat then decoded rest
      else match json_Unmarshal line with
           | inl _ => decoded rest
           | inr logData => logData :: decoded rest
           end
  end.

(** The [LPUSH] a record contributes to the pipeline. *)
Definition cmd_of (logData : gmap string any) : Pipeline :=
  match batch_key logData, json_Marshal logData with
  | Some key, inr data => [(key, data)]
  | _, _ => []
  end.

Definition cmds_of (logs : list (gmap string any)) : Pipeline :=
  concat (cmd_of <$> logs).

(** What the grouped write of a batch reports: the first error among the
    results of its commands, if any. *)
Definition batch_error (r : redis) (logs : list (gmap string any)) : option error :=
  (pipe_Exec r (cmds_of logs)).2.

(** [n] recovery cycles in a row. *)
Fixpoint cycles (n : nat) (w : world) : result world :=
  match n with
  | O => Done w
  | S n' => w' ← recoverFallbackLogs w; cycles n' w'
  end.

End recovery_defs.

(** The routing key as the specification words it. *)
Definition spec_RoutingKey (facility_id instance_type service_name instance_id : string)
  : string :=
  facility_id +:+ ":" +:+ instance_type +:+ ":" +:+ service_name +:+ ":" +:+ instance_id.

(** The list a key of the sink holds, head first. *)
Definition items_at (r : redis) (key : string) : list string :=
  match db r !! key with
  | Some (RList items) => items
  | _ => []
  end.

(** The list the sink of a world holds at a key. *)
Definition sink_items (key : string) (w : world) : list string :=
  match rdb w with
  | Some r => items_at r key
  | None => []
  end.

(** The four identity fields a record carries, when all are strings. *)
Definition identity (logData : gmap string any) : option (string * string * string * string) :=
  f ← as_string (logData !! "facility_id");
  t ← as_string (logData !! "instance_type");
  s ← as_string (logData !! "service_name");
  i ← as_string (logData !! "instance_id");
  Some (f, t, s, i).

(** The [LPUSH] of a record at the key built from its own identity fields:
    the prefix [applogs:] and the routing key of the specification. *)
Definition keyed_cmd `{Json} (logData : gmap string any) : Pipeline :=
  match identity logData, json_Marshal logData with
  | Some (f, t, s, i), inr data => [("applogs:" +:+ spec_RoutingKey f t s i, data)]
  | _, _ => []
  end.

(** A run of producer calls, one after the other, with no move of the
    dispatcher in between. *)
Fixpoint log_calls (entries : list logEntry) (a : Applogs) : result Applogs :=
  match entries with
  | [] => Done a
  | e :: rest => a' ← logAsync (level e) (message e) (fields e) a; log_calls rest a'
  end.

(** ** Schedules

    The producer and the dispatcher run concurrently; a schedule lists
    whose move comes next. *)

Inductive event : Type :=
| Call (e : logEntry)
| Move.

Section schedules.
Context `{Json}.

Fixpoint run (evs : list event) (a : Applogs) : result Applogs :=
  match evs with
  | [] => Done a
  | Call e :: rest => a' ← logAsync (level e) (message e) (fields e) a; run rest a'
  | Move :: rest => a' ← processLogs a; run rest a'
  end.

Fixpoint calls (evs : list event) : list logEntry :=
  match evs with
  | [] => []
  | Call e :: rest => e :: calls rest
  | Move :: rest => calls rest
  end.

(** The key of this process and the payload of one of its entries. *)
Definition process_key (w : world) : string :=
  "applogs:" +:+ spec_RoutingKey (facilityID w) (instanceType w) (serviceName w) (instanceID w).

Definition payload (w : world) (e : logEntry) : string :=
  match json_Marshal (logData_of (level e) (message e) (fields e) w) with
  | inr data => data
  | inl _ => EmptyString
  end.

(** An entry the dispatcher sends on and returns from: it marshals, and
    its level is not [fatal]. *)
Definition sendable (w : world) (e : logEntry) : Prop :=
  is_Some (match json_Marshal (logData_of (level e) (message e) (fields e) w) with
           | inr data => Some data
           | inl _ => None
           end)
  /\ level e <> "fatal".

(** The sink takes commands and the key of the process does not hold a
    value of another kind. *)
Definition sink_ready (w : world) : Prop :=
  exists r, rdb w = Some r /\ fault r = None
            /\ forall s, db r !! process_key w <> Some (RString s).

(** The list the sink will hold at the key of the process once the pending
    entries are processed. *)
Definition eventual (a : Applogs) : list string :=
  rev (payload (globals a) <$> pending a)
  ++ sink_items (process_key (globals a)) (globals a).

(** Identity fields and clock agree. *)
Definition same_process (w w' : world) : Prop :=
  serviceName w' = serviceName w /\ instanceID w' = instanceID w
  /\ facilityID w' = facilityID w /\ instanceType w' = instanceType w
  /\ clock w' = clock w.

(** What a run keeps true while the queue is open and the sink takes the
    entries. *)
Definition steady (a : Applogs) : Prop :=
  chan_ok a
  /\ closed (logQueue a) = false
  /\ sink_ready (globals a)
  /\ Forall (sendable (globals a)) (pending a).

(** How many moves the dispatcher needs before it blocks. *)
Definition moves_left (a : Applogs) : nat :=
  match consumer a with
  | Running (Some _) => 2 * length (buf (logQueue a)) + 2
  | Running None => 2 * length (buf (logQueue a)) + 1
  | Parked | Returned => 0
  end.

End schedules.

(** ** Concrete worlds and runs, on the reference codec *)

Module Scenario.
Import JsonRef.

Definition noon : Time := MkTime "20250101120000" "2025-01-01T12:00:00Z".

Definition healthy : redis := MkRedis ∅ None.

Definition refused : error :=
  errors_New "dial tcp 127.0.0.1:6379: connect: connection refused".

Definition down : redis := MkRedis ∅ (Some refused).

Definition empty_disk : disk := MkDisk ∅ None None None.

(** Identity fields fixed, healthy empty sink, empty spool directory. *)
Definition w0 : world :=
  MkWorld [] (Some healthy) "svc" "i-1" "fac" "worker" "logs/fallback" empty_disk noon.

Definition with_files (l : list (string * string)) (w : world) : world :=
  set_spool (MkDisk (list_to_map l) None None None) w.

(** Queue size 10, three producer calls, then the dispatcher runs until it
    blocks on the empty queue. *)
Definition three_calls : result Applogs :=
  a ← NewLogger 10 w0;
  a ← Info "a" (Some [("k", VString "v1")]) a;
  a ← Warn "b" (Some [("k", VString "v2")]) a;
  a ← Error "c" (Some [("k", VString "v3")]) a;
  drain 8 a.

Definition sink_list (key : string) (a : Applogs) : list string :=
  sink_items key (globals a).

(** A field of a payload, decoded. *)
Definition decoded_field (key payload : string) : option any :=
  match json_Unmarshal payload with
  | inr logData => logData !! key
  | inl _ => None
  end.

(** The line the fallback store writes for an entry of this process. *)
Definition line_of (level message : string) (fields : option (list (string * any)))
  : string :=
  match json_Marshal (logData_of level message fields w0) with
  | inr data => data
  | inl _ => EmptyString
  end.

Definition lines (l : list string) : string :=
  foldr (fun line rest => line +:+ newline +:+ rest) EmptyString l.

Definition spool_name : string := "fallback_20250101115900.log".

(** A spool file with a line that is not JSON between two entries. *)
Definition torn_file : string :=
  lines [line_of "info" "a" None; "not json"; line_of "warn" "b" None].

(** A spool file with a line that is not JSON, an entry, and a JSON object
    without identity fields. *)
Definition foreign_file : string :=
  lines ["not json"; line_of "info" "a" None; "{}"].

(** A spool file whose first entry has a message of 65536 bytes, followed
    by a line that is not JSON. *)
Definition long_file : string :=
  lines [line_of "error" (N.iter 65536 (String "x"%char) EmptyString) None; "not json"].

(** A spool file of two empty lines. *)
Definition blank_file : string := newline +:+ newline.

(** An unbuffered queue whose dispatcher has reached its receive. *)
Definition unbuffered : result Applogs :=
  a ← NewLogger 0 w0; processLogs a.

(** The sink refuses connections; the disk is healthy. *)
Definition w_down : world := set_rdb (Some down) w0.

(** The disk opens the spool file and fails the write. *)
Definition w_disk_full : world :=
  set_spool (MkDisk ∅ None None (Some (errors_New "no space left on device"))) w_down.

End Scenario.

(** ** Whole runs of the client

    Producer calls, moves of the dispatcher and [StopLogger], in any
    order. *)

Inductive action : Type :=
| Produce (e : logEntry)
| Dispatch
| Stop.

Fixpoint perform `{Json} (acts : list action) (a : Applogs) : result Applogs :=
  match acts with
  | [] => Done a
  | Produce e :: rest =>
      a' ← logAsync (level e) (message e) (fields e) a; perform rest a'
  | Dispatch :: rest => a' ← processLogs a; perform rest a'
  | Stop :: rest => a' ← StopLogger a; perform rest a'
  end.

(** No byte of the string is a colon. *)
Fixpoint no_colon (s : string) : bool :=
  match s with
  | EmptyString => true
  | String c rest => negb (Ascii.eqb c ":"%char) && no_colon rest
  end.

(** ** Lines and sinks the replay needs *)

Fixpoint no_newline (s : string) : bool :=
  match s with
  | EmptyString => true
  | String c rest => negb (Ascii.eqb c "010"%char) && no_newline rest
  end.

Definition last_is_CR (s : string) : bool :=
  match rev (list_ascii_of_string s) with
  | c :: _ => Ascii.eqb c "013"%char
  | [] => false
  end.

(** A payload the scanner gives back as one line, as it was written: not
    empty, no newline inside, no carriage return at its end, shorter than
    the scanner's buffer. *)
Definition line_safe (data : string) : bool :=
  no_newline data && negb (last_is_CR data)
  && negb (String.length data =? 0)%nat
  && (N.of_nat (String.length data) <? bufio.MaxScanTokenSize)%N.

(** A sink that takes every [LPUSH]: it can be reached and no key holds a
    value of another kind. *)
Definition lists_only (r : redis) : Prop :=
  fault r = None /\ forall k s, db r !! k <> Some (RString s).

(** A spool file the scanner replays in full: each line it delivers is
    empty or decodes to a record with the four identity strings. *)
Definition replayable `{Json} (content : string) : Prop :=
  existsb malformed (bufio.ScanLines content).1 = false
  /\ Forall (fun logData => is_Some (batch_key logData)) (decoded (bufio.ScanLines content).1).

(** What a run keeps true while the sink takes the entries, on an open or
    a closed queue. *)
Definition flowing `{Json} (a : Applogs) : Prop :=
  chan_ok a
  /\ sink_ready (globals a)
  /\ Forall (sendable (globals a)) (pending a).

(** ** Accounting for the calls

    The warning [logAsync] records for an entry it drops, and the warnings
    of that kind in the structured log. *)

Definition drop_warning (e : logEntry) : Entry :=
  MkEntry WarnLevel "Log queue is full, dropping log"
          [zap_String "level" (level e); zap_String "message" (message e)].

Definition is_drop_warning (x : Entry) : bool :=
  match entry_level x, entry_fields x with
  | WarnLevel, [zap_String k1 _; zap_String k2 _] =>
      String.eqb (entry_message x) "Log queue is full, dropping log"
      && String.eqb k1 "level" && String.eqb k2 "message"
  | _, _ => false
  end.

Definition drops (w : world) : list Entry := List.filter is_drop_warning (logger w).

(** [interleave l1 l2 l]: [l] is [l1] and [l2] shuffled together, each in
    its order. *)
Inductive interleave {A : Type} : list A -> list A -> list A -> Prop :=
| interleave_nil : interleave [] [] []
| interleave_left (x : A) (l1 l2 l : list A) :
    interleave l1 l2 l -> interleave (x :: l1) l2 (x :: l)
| interleave_right (x : A) (l1 l2 l : list A) :
    interleave l1 l2 l -> interleave l1 (x :: l2) (x :: l).

(** The payloads a pipeline pushes to one key, in the order of its
    commands. *)
Definition sent_to (key : string) (cmds : Pipeline) : list string :=
  snd <$> List.filter (fun c => String.eqb c.1 key) cmds.

(** ** Through an outage

    The dispatcher's loop body run over a list of entries, and what an
    entry comes back as when its spooled line is replayed: the line is one
    the scanner reads whole, it decodes to a record with [key] as its sink
    key, and the record marshals to [payload']. *)

Fixpoint process_all `{Json} (es : list logEntry) (w : world) : result world :=
  match es with
  | [] => Done w
  | e :: rest => w' ← process_entry e w; process_all rest w'
  end.

Definition replays_as `{Json} (w : world) (key : string) (e : logEntry) (payload' : string)
  : Prop :=
  exists data logData',
    json_Marshal (logData_of (level e) (message e) (fields e) w) = inr data
    /\ line_safe data = true
    /\ json_Unmarshal data = inr logData'
    /\ batch_key logData' = Some key
    /\ json_Marshal logData' = inr payload'.

(** The content of a spool file that holds the given lines. *)
Fixpoint spool_text (lines : list string) : string :=
  match lines with
  | [] => EmptyString
  | line :: rest => line +:+ newline +:+ spool_text rest
  end.

(** ** The panic helper of package [applogs] *)

Section helpers.
Context `{Json}.

(** The fields [LogPanic] builds. *)
Definition panic_fields (panicData : any) (method url clientIP : string) (now : Time)
  : list (string * any) :=
  [("panic", panicData);
   ("method", VString method);
   ("url", VString url);
   ("client_ip", VString clientIP);
   ("timestamp", VTime now)].

(** LogPanic logs panic details for recovery. *)
Definition LogPanic (panicData : any) (method url clientIP : string) (a : Applogs)
  : result Applogs :=
  logAsync "error" "Recovered from panic"
           (Some (panic_fields panicData method url clientIP (clock (globals a)))) a.

End helpers.

(** ** Package [strconv] *)

(** [strconv.Quote], used in the text of a [*strconv.NumError]; kept as an
    interface. *)
Class Quoting : Type := { strconv_Quote : string -> string }.

Module strconv.

(** Go's [int] on a 64-bit platform. *)
Definition MinInt : Z := - 2 ^ 63.
Definition MaxInt : Z := 2 ^ 63 - 1.

Definition ErrSyntax `{Quoting} (s : string) : error :=
  errors_New ("strconv.Atoi: parsing " +:+ strconv_Quote s +:+ ": invalid syntax").

Definition ErrRange `{Quoting} (s : string) : error :=
  errors_New ("strconv.Atoi: parsing " +:+ strconv_Quote s +:+ ": value out of range").

(** [strconv.Atoi(s)]: an optional sign, then one or more decimal digits
    and nothing else; the value has to fit an [int]. *)
Definition Atoi `{Quoting} (s : string) : error + Z :=
  match s with
  | EmptyString => inl (ErrSyntax s)
  | String c rest =>
      let neg := Ascii.eqb c "-"%char in
      let digits := if neg || Ascii.eqb c "+"%char then rest else s in
      match digits with
      | EmptyString => inl (ErrSyntax s)
      | _ =>
          match NilEmpty.uint_of_string digits with
          | None => inl (ErrSyntax s)
          | Some d =>
              let v := if neg then - Z.of_uint d else Z.of_uint d in
              if (MinInt <=? v) && (v <=? MaxInt) then inr v else inl (ErrRange s)
          end
      end
  end.

(** [strconv.Itoa(n)]: the decimal text of [n]. *)
Definition Itoa (n : Z) : string := NilZero.string_of_int (Z.to_int n).

End strconv.

(** ** Package [logger]: initialisation

    The package variables [InitApplogs] sets beside those of [world], and
    the goroutines it starts. *)

Record package : Type := MkPackage {
  vars : world;
  logger_nil : bool;            (* [logger == nil]: no [InitApplogs] has got to set it *)
  redisAddr : string;
  syslogsPath : string;
  fallbackResyncTime : Z;
  syslogKeepTime : Z;
  recovery_loops : list Z;      (* the interval, in nanoseconds, of each recovery loop started *)
  cleanup_loops : nat           (* the daily cleanup loops started *)
}.

Definition set_vars (w : world) (p : package) : package :=
  MkPackage w (logger_nil p) (redisAddr p) (syslogsPath p) (fallbackResyncTime p)
            (syslogKeepTime p) (recovery_loops p) (cleanup_loops p).

Definition set_fallbackPath (path : string) (w : world) : world :=
  MkWorld (logger w) (rdb w) (serviceName w) (instanceID w) (facilityID w)
          (instanceType w) path (spool w) (clock w).

(** [wrap64 z]: the [int64] that the bits of [z] are. *)
Definition wrap64 (z : Z) : Z := (z + 2 ^ 63) mod 2 ^ 64 - 2 ^ 63.

(** [time.Second], a [time.Duration]: nanoseconds. *)
Definition time_Second : Z := 1000000000.

(** [os.Getenv(key)]: the empty string when the variable is not set. *)
Definition os_Getenv (env : gmap string string) (key : string) : string :=
  default EmptyString (env !! key).

(** [Ping] of a [*redis.Client]: the error the sink answers with, if any. *)
Definition redis_Ping (r : redis) : option error := fault r.

Section init.
Context `{Quoting}.

(** A call [logger.<Level>(msg, fields...)] of a level that returns: a
    method call on the nil [*zap.Logger] panics. *)
Definition pkg_log (lvl : Level) (msg : string) (fs : list Field) (p : package)
  : result package :=
  if logger_nil p then Panic nil_dereference
  else Done (set_vars (zap_log lvl msg fs (vars p)) p).

(** SetFallbackPath allows testing to override the fallback path. *)
Definition SetFallbackPath (path : string) (p : package) : package :=
  set_vars (set_fallbackPath path (vars p)) p.

(** SetRedisClient allows testing to inject a mock Redis client. *)
Definition SetRedisClient (client : option redis) (p : package) : package :=
  set_vars (set_rdb client (vars p)) p.

(** Ensure logs directory exists.  The results of [os.Stat] and
    [os.MkdirAll] are dropped by the source; what stays is the two path
    variables. *)
Definition ensureLogDirectory (p : package) : package :=
  let path := if String.eqb (fallbackPath (vars p)) EmptyString
              then filepath.Join "logs" "fallback"
              else fallbackPath (vars p) in
  MkPackage (set_fallbackPath path (vars p)) (logger_nil p) (redisAddr p)
            (filepath.Join "logs" "syslogs") (fallbackResyncTime p)
            (syslogKeepTime p) (recovery_loops p) (cleanup_loops p).

(** Utility function to get environment variable as integer. *)
Definition getEnvAsInt (env : gmap string string) (key : string) (defaultValue : Z)
    (p : package) : result (Z * package) :=
  let valueStr := os_Getenv env key in
  if String.eqb valueStr EmptyString then Done (defaultValue, p)
  else
    match strconv.Atoi valueStr with
    | inl err =>
        p' ← pkg_log WarnLevel
               "Invalid integer value for environment variable. Using default value."
               [zap_String "key" key; zap_String "value" valueStr; zap_Error err] p;
        Done (defaultValue, p')
    | inr value => Done (value, p)
    end.

(** Check Redis connection and log status. *)
Definition checkRedisConnection (p : package) : result package :=
  match rdb (vars p) with
  | None => pkg_log ErrorLevel "Redis client is nil. Skipping Redis connection check." [] p
  | Some r =>
      match redis_Ping r with
      | Some err =>
          pkg_log ErrorLevel "Failed to connect to Redis Database"
                  [zap_String "address" (redisAddr p); zap_Error err] p
      | None =>
          pkg_log InfoLevel "Connected to Redis successfully"
                  [zap_String "address" (redisAddr p)] p
      end
  end.

(** StartRecoveryProcess initiates periodic fallback recovery. *)
Definition StartRecoveryProcess (interval : Z) (p : package) : package :=
  MkPackage (vars p) (logger_nil p) (redisAddr p) (syslogsPath p)
            (fallbackResyncTime p) (syslogKeepTime p)
            (recovery_loops p ++ [interval]) (cleanup_loops p).

(** Initialize logger and Redis client.  [env] is the environment once
    [godotenv.Load] has run; [network addr] is the sink a client made for
    [addr] talks to ([NewRedisClient] never returns nil, so the [else]
    branch of the source is not reached).  The lines printed to the
    standard output and the syslog file the new logger opens are left
    out. *)
Definition InitApplogs (network : string -> redis) (env : gmap string string)
    (p : package) : result package :=
  let p := ensureLogDirectory p in
  let w := vars p in
  let p := MkPackage
             (MkWorld (logger w) (rdb w) (os_Getenv env "SERVICE_NAME")
                      (os_Getenv env "INSTANCE_ID") (os_Getenv env "FACILITY_ID")
                      (os_Getenv env "INSTANCE_TYPE") (fallbackPath w) (spool w) (clock w))
             (logger_nil p) (os_Getenv env "APPLG_CORE_REDIS") (syslogsPath p)
             (fallbackResyncTime p) (syslogKeepTime p) (recovery_loops p)
             (cleanup_loops p) in
  '(resync, p) ← getEnvAsInt env "FALLBACK_RESYNC_TIME" 30 p;
  let p := MkPackage (vars p) (logger_nil p) (redisAddr p) (syslogsPath p) resync
                     (syslogKeepTime p) (recovery_loops p) (cleanup_loops p) in
  '(keep, p) ← getEnvAsInt env "SYSLOG_KEEP_TIME" 72 p;
  let p := MkPackage (vars p) (logger_nil p) (redisAddr p) (syslogsPath p)
                     (fallbackResyncTime p) keep (recovery_loops p) (cleanup_loops p) in
  let p := MkPackage (vars p) false (redisAddr p) (syslogsPath p)
                     (fallbackResyncTime p) (syslogKeepTime p) (recovery_loops p)
                     (cleanup_loops p) in
  p ← pkg_log InfoLevel "Logger initialized successfully"
        [zap_Int "fallback_resync_time" (fallbackResyncTime p);
         zap_Int "syslog_keep_time" (syslogKeepTime p)] p;
  let p := SetRedisClient (Some (network (redisAddr p))) p in
  p ← pkg_log InfoLevel "Checking Redis connection" [] p;
  p ← checkRedisConnection p;
  let p := StartRecoveryProcess (wrap64 (fallbackResyncTime p * time_Second)) p in
  Done (MkPackage (vars p) (logger_nil p) (redisAddr p) (syslogsPath p)
                  (fallbackResyncTime p) (syslogKeepTime p) (recovery_loops p)
                  (S (cleanup_loops p))).

End init.

(** ** The log directories on disk

    What [cleanupOldLogs] reads and changes: the entries of the file tree
    with their modification times.  A path is the string [filepath.Join]
    builds from a directory variable and an entry name; a time is a number
    of nanoseconds. *)

Record FileInfo : Type := MkFileInfo {
  ModTime : Z;
  IsDir : bool
}.

Record fsys : Type := MkFsys {
  nodes : gmap string FileInfo;
  denied : string -> option error  (* what a call on a path fails with for another
                                      reason than absence, as a missing permission *)
}.

Fixpoint strip_prefix (pre s : string) : option string :=
  match pre, s with
  | EmptyString, _ => Some s
  | String a pre', String b s' => if Ascii.eqb a b then strip_prefix pre' s' else None
  | String _ _, EmptyString => None
  end.

(** The name [path] has as an entry of [dir], when it is one. *)
Definition entry_of (dir path : string) : option string :=
  match strip_prefix (filepath.Join dir EmptyString) path with
  | Some name =>
      if String.eqb name EmptyString || filepath.has_separator name then None
      else Some name
  | None => None
  end.

Definition has_entries (t : gmap string FileInfo) (dir : string) : bool :=
  existsb (fun path => bool_decide (is_Some (entry_of dir path))) (map_to_list t).*1.

Definition ENOENT : error := errors_New "no such file or directory".
Definition ENOTDIR : error := errors_New "not a directory".
Definition ENOTEMPTY : error := errors_New "directory not empty".

(** [os.ReadDir(dir)]: the entry names, sorted by name. *)
Definition fs_ReadDir (f : fsys) (dir : string) : error + list string :=
  match denied f dir with
  | Some err => inl err
  | None =>
      match nodes f !! dir with
      | None => inl ENOENT
      | Some info =>
          if IsDir info
          then inr (merge_sort name_le (omap (entry_of dir) (map_to_list (nodes f)).*1))
          else inl ENOTDIR
      end
  end.

(** [os.Stat(path)]. *)
Definition fs_Stat (f : fsys) (path : string) : error + FileInfo :=
  match denied f path with
  | Some err => inl err
  | None =>
      match nodes f !! path with
      | None => inl ENOENT
      | Some info => inr info
      end
  end.

(** Removing an entry is a write to the directory that holds it. *)
Definition touch_parent (now : Z) (path : string) (t : gmap string FileInfo)
  : gmap string FileInfo :=
  map_imap (fun dir info =>
              Some (match entry_of dir path with
                    | Some _ => MkFileInfo now (IsDir info)
                    | None => info
                    end)) t.

(** [os.Remove(path)]: a file, or a directory without entries. *)
Definition fs_Remove (now : Z) (path : string) (f : fsys) : fsys * option error :=
  match denied f path with
  | Some err => (f, Some err)
  | None =>
      match nodes f !! path with
      | None => (f, Some ENOENT)
      | Some info =>
          if IsDir info && has_entries (nodes f) path then (f, Some ENOTEMPTY)
          else (MkFsys (touch_parent now path (delete path (nodes f))) (denied f), None)
      end
  end.

(** The package with the file tree, and the file the zap logger writes
    (there is none when [getLogWriter] could not open it). *)
Record host : Type := MkHost {
  pkg : package;
  tree : fsys;
  syslog_file : option string
}.

(** [time.Hour]. *)
Definition time_Hour : Z := 3600 * time_Second.

(** [time.Now().Add(-time.Duration(syslogKeepTime) * time.Hour)]: the
    negation and the product are [int64] operations. *)
Definition expiration (now keep : Z) : Z :=
  now + wrap64 (wrap64 (- keep) * time_Hour).

Fixpoint foldlM {A B : Type} (f : A -> B -> result A) (a : A) (l : list B) : result A :=
  match l with
  | [] => Done a
  | b :: rest => a' ← f a b; foldlM f a' rest
  end.

Section cleanup.
Context `{Quoting}.

(** A call of the logger: the entry is written to the syslog file, whose
    modification time becomes [now]. *)
Definition host_log (now : Z) (lvl : Level) (msg : string) (fs : list Field) (h : host)
  : result host :=
  p ← pkg_log lvl msg fs (pkg h);
  let t := match syslog_file h with
           | Some path => alter (fun info => MkFileInfo now (IsDir info)) path (nodes (tree h))
           | None => nodes (tree h)
           end in
  Done (MkHost p (MkFsys t (denied (tree h))) (syslog_file h)).

(** The body of the inner loop of [cleanupOldLogs]. *)
Definition cleanup_entry (now exp : Z) (logDir : string) (h : host) (name : string)
  : result host :=
  let filePath := filepath.Join logDir name in
  match fs_Stat (tree h) filePath with
  | inl err =>
      host_log now WarnLevel "Failed to fetch log file info"
               [zap_String "file" filePath; zap_Error err] h
  | inr info =>
      if ModTime info <? exp then
        match fs_Remove now filePath (tree h) with
        | (_, Some err) =>
            host_log now ErrorLevel "Failed to delete old log file"
                     [zap_String "file" filePath; zap_Error err] h
        | (t, None) =>
            host_log now InfoLevel "Deleted old log file" [zap_String "file" filePath]
                     (MkHost (pkg h) t (syslog_file h))
        end
      else Done h
  end.

(** The body of its outer loop. *)
Definition cleanup_dir (now exp : Z) (h : host) (logDir : string) : result host :=
  match fs_ReadDir (tree h) logDir with
  | inl err =>
      host_log now WarnLevel "Failed to read log directory for cleanup"
               [zap_String "directory" logDir; zap_Error err] h
  | inr files => foldlM (cleanup_entry now exp logDir) h files
  end.

(** Cleanup logs older than syslogKeepTime.  [now] is what [time.Now()]
    reads. *)
Definition cleanupOldLogs (now : Z) (h : host) : result host :=
  let logDirs := ["logs"; fallbackPath (vars (pkg h)); syslogsPath (pkg h)] in
  let exp := expiration now (syslogKeepTime (pkg h)) in
  foldlM (cleanup_dir now exp) h logDirs.

End cleanup.

(** An entry without entries of its own: a file, or an empty directory. *)
Definition childless (t : gmap string FileInfo) (path : string) : Prop :=
  forall c, is_Some (t !! c) -> entry_of path c = None.

(** What a cleanup can have made of a tree: no entry is new, none changes
    its kind, a childless entry other than the syslog file is as it was or
    is gone, gone only if older than [exp], and a directory that is gone
    has no entry left. *)
Definition evolves (sys : option string) (exp : Z) (t t' : gmap string FileInfo) : Prop :=
  (forall k i', t' !! k = Some i' ->
     exists i, t !! k = Some i /\ IsDir i' = IsDir i
               /\ (childless t k -> sys <> Some k -> i' = i))
  /\ (forall k i, t !! k = Some i -> t' !! k = None ->
        (childless t k -> sys <> Some k -> ModTime i < exp)
        /\ (IsDir i = true -> childless t' k)).

(** What a cleanup leaves of the host as it was: the variables it reads,
    the logger, and the permissions. *)
Definition settled (h h' : host) : Prop :=
  logger_nil (pkg h') = logger_nil (pkg h)
  /\ fallbackPath (vars (pkg h')) = fallbackPath (vars (pkg h))
  /\ syslogsPath (pkg h') = syslogsPath (pkg h)
  /\ syslogKeepTime (pkg h') = syslogKeepTime (pkg h)
  /\ syslog_file h' = syslog_file h
  /\ denied (tree h') = denied (tree h).

(** ** More concrete worlds, on the reference codec *)

Module Cases.
Import JsonRef Scenario.

(** The record the scanner decodes from a line. *)
Definition record_of (line : string) : gmap string any :=
  match json_Unmarshal line with
  | inr logData => logData
  | inl _ => ∅
  end.

(** Two entries in one spool file, beside a file of another kind. *)
Definition two_entries : string :=
  lines [line_of "info" "a" None; line_of "warn" "b" None].

Definition w_spooled : world :=
  with_files [(spool_name, two_entries); ("notes.txt", "kept")] w0.

(** A queue of size 4 holding two entries, the dispatcher holding a third. *)
Definition busy : Applogs :=
  MkApplogs (MkChan [MkLogEntry "warn" "b" None; MkLogEntry "error" "c" None] 4 false)
            (Running (Some (MkLogEntry "info" "a" None))) w0.

(** The same queue with a fatal entry between the two. *)
Definition doomed : Applogs :=
  MkApplogs (MkChan [MkLogEntry "warn" "b" None; MkLogEntry "fatal" "x" None;
                     MkLogEntry "error" "c" None] 4 false)
            (Running (Some (MkLogEntry "info" "a" None))) w0.

(** A record of another instance, and a sink in which the key of that
    instance holds a string. *)
Definition w_other : world :=
  MkWorld [] (Some healthy) "svc" "i-2" "fac" "worker" "logs/fallback" empty_disk noon.

Definition line_other : string :=
  match json_Marshal (logData_of "warn" "b" None w_other) with
  | inr data => data
  | inl _ => EmptyString
  end.

Definition taken : redis :=
  MkRedis {[ "applogs:fac:worker:svc:i-2" := RString "x" ]} None.

Definition w_refused : world :=
  set_rdb (Some taken)
          (with_files [(spool_name, lines [line_of "info" "a" None; line_other]);
                       ("notes.txt", "kept")] w0).

(** The busy client once [StopLogger] has returned. *)
Definition stopped : Applogs :=
  MkApplogs (MkChan [MkLogEntry "warn" "b" None; MkLogEntry "error" "c" None] 4 true)
            (Running (Some (MkLogEntry "info" "a" None)))
            (zap_log InfoLevel "Logger stopped gracefully" [] w0).

(** The first line of [long_file], and what follows it. *)
Definition long_line : string :=
  line_of "error" (N.iter 65536 (String "x"%char) EmptyString) None.

Definition after_long_line : string := newline +:+ lines ["not json"].

(** A directory that holds a quarantined file and a torn spool file of the
    name the quarantined one was renamed from. *)
Definition w_requarantine : world :=
  with_files [(spool_name, torn_file); (spool_name +:+ ".corrupt", "OLD")] w0.

(** A directory with one blank spool file: with a client, without one, and
    on a disk that refuses to open files. *)
Definition w_blank : world := with_files [(spool_name, blank_file)] w0.

Definition w_blank_no_client : world := set_rdb None w_blank.

Definition w_blank_locked : world :=
  set_spool (MkDisk (files (spool w_blank)) None
                    (Some (errors_New "permission denied")) None) w_blank.

(** [strconv.Quote] for texts without a character to escape. *)
#[export] Instance quoting : Quoting :=
  {| strconv_Quote s := String "034"%char (s +:+ String "034"%char EmptyString) |}.

(** A process that has not initialised the package. *)
Definition pkg_fresh : package :=
  MkPackage (MkWorld [] None EmptyString EmptyString EmptyString EmptyString EmptyString
                     empty_disk noon)
            true EmptyString EmptyString 0 0 [] 0.

Definition env_numbers : gmap string string :=
  list_to_map [("FALLBACK_RESYNC_TIME", "0"); ("SYSLOG_KEEP_TIME", "-5");
               ("APPLG_CORE_REDIS", "127.0.0.1:6379")].

Definition env_hours : gmap string string :=
  list_to_map [("SYSLOG_KEEP_TIME", "72h")].

(** Noon of 2025-01-01, and the log directories then: a spool file and a
    quarantined file written 100 hours before, a spool file written one
    hour before, and the syslog file. *)
Definition noon_ns : Z := 1735732800 * time_Second.

Definition host0 : host :=
  MkHost
    (MkPackage w0 false "127.0.0.1:6379" "logs/syslogs" 30 72 [30 * time_Second] 1)
    (MkFsys
       (list_to_map
          [("logs", MkFileInfo (noon_ns - 200 * time_Hour) true);
           ("logs/fallback", MkFileInfo (noon_ns - 200 * time_Hour) true);
           ("logs/syslogs", MkFileInfo (noon_ns - 200 * time_Hour) true);
           ("logs/fallback/fallback_20241228080000.log",
            MkFileInfo (noon_ns - 100 * time_Hour) false);
           ("logs/fallback/fallback_20241228080001.log.corrupt",
            MkFileInfo (noon_ns - 100 * time_Hour) false);
           ("logs/fallback/fallback_20250101110000.log",
            MkFileInfo (noon_ns - 1 * time_Hour) false);
           ("logs/syslogs/syslogs_241220241200.log",
            MkFileInfo (noon_ns - 1 * time_Hour) false)])
       (fun _ => None))
    (Some "logs/syslogs/syslogs_241220241200.log").

End Cases.

(** ** Facts about the library models *)

Lemma Ext_corrupt (p : string) : filepath.Ext (p +:+ ".corrupt") = ".corrupt".
Proof.
  induction p as [|c p IH].
  - reflexivity.
  - change (String c p +:+ ".corrupt") with (String c (p +:+ ".corrupt")).
    cbn [filepath.Ext]. rewrite IH. reflexivity.
Qed.

Lemma redis_LPush_error (r r' : redis) (key data : string) (e : error) :
  redis_LPush r key data = (r', Some e) -> r' = r.
Proof.
  unfold redis_LPush.
  destruct (fault r); [congruence|].
  destruct (db r !! key) as [[?|?]|]; congruence.
Qed.

Lemma first_error_None (es : list (option error)) :
  first_error es = None -> Forall (fun e => e = None) es.
Proof.
  induction es as [|[e|] es IH]; cbn; intros Hf.
  - constructor.
  - discriminate.
  - constructor; auto.
Qed.

Lemma pipe_Exec_first (r : redis) (cmds : Pipeline) :
  (pipe_Exec r cmds).2 = first_error (pipe_Exec r cmds).1.2.
Proof.
  destruct cmds as [|c cmds]; [reflexivity|].
  unfold pipe_Exec. destruct (run_cmds r (c :: cmds)) as [r' es]. reflexivity.
Qed.

(** ** Facts about package [logger] *)

Section logger_facts.
Context `{Json}.

Lemma foldl_read_line (filePath : string) (lines : list string) :
  forall (batch : list (gmap string any)) (corrupt : bool) (w : world),
  exists w',
    foldl (read_line filePath) (batch, corrupt, w) lines
      = (batch ++ decoded lines, corrupt || existsb malformed lines, w')
    /\ rdb w' = rdb w /\ spool w' = spool w.
Proof.
  induction lines as [|line lines IH]; intros batch corrupt w; cbn [foldl decoded existsb].
  - exists w. rewrite app_nil_r, orb_false_r. auto.
  - unfold read_line at 2, malformed at 1.
    destruct (String.length line =? 0)%nat; cbn [negb andb orb].
    + apply IH.
    + destruct (json_Unmarshal line) as [err|logData].
      * destruct (IH batch true
                    (zap_log ErrorLevel "Invalid JSON in fallback log line"
                       [zap_String "file" filePath; zap_String "line" line] w))
          as (w' & -> & Hr & Hs).
        exists w'. rewrite orb_true_r. auto.
      * destruct (IH (batch ++ [logData]) corrupt w) as (w' & -> & Hr & Hs).
        exists w'. rewrite <- app_assoc. auto.
Qed.

Lemma queue_batch_Done (logs : list (gmap string any)) :
  forall (pipe pipe' : Pipeline) (w w' : world),
  queue_batch logs pipe w = Done (pipe', w') ->
  pipe' = pipe ++ cmds_of logs /\ rdb w' = rdb w /\ spool w' = spool w.
Proof.
  induction logs as [|logData logs IH]; intros pipe pipe' w w'; cbn [queue_batch].
  - intros [= <- <-]. unfold cmds_of. cbn. rewrite app_nil_r. auto.
  - unfold cmds_of. cbn [fmap list_fmap concat]. unfold cmd_of at 1.
    destruct (batch_key logData) as [key|]; [|discriminate].
    destruct (json_Marshal logData) as [err|data]; intros Hq.
    + apply IH in Hq as (-> & Hr & Hs). auto.
    + apply IH in Hq as (-> & Hr & Hs). rewrite <- app_assoc. auto.
Qed.

Lemma queue_batch_total (logs : list (gmap string any)) :
  forall (pipe : Pipeline) (w : world),
  Forall (fun logData => is_Some (batch_key logData)) logs ->
  exists w', queue_batch logs pipe w = Done (pipe ++ cmds_of logs, w').
Proof.
  induction logs as [|logData logs IH]; intros pipe w Hk; cbn [queue_batch].
  - exists w. unfold cmds_of. cbn. by rewrite app_nil_r.
  - apply Forall_cons in Hk as [[key Hkey] Hk].
    unfold cmds_of. cbn [fmap list_fmap concat]. unfold cmd_of at 1. rewrite Hkey.
    destruct (json_Marshal logData) as [err|data].
    + apply IH, Hk.
    + rewrite app_assoc. apply IH, Hk.
Qed.

Lemma check_cmds_quiet (pipe : Pipeline) (es : list (option error)) :
  forall (finalErr : option error) (w : world),
  Forall (fun e => e = None) es ->
  check_cmds (zip pipe es) finalErr w = (w, finalErr).
Proof.
  revert es. induction pipe as [|[key data] pipe IH]; intros es finalErr w Hes.
  - reflexivity.
  - destruct es as [|e es]; [reflexivity|].
    apply Forall_cons in Hes as [-> Hes]. cbn. apply IH, Hes.
Qed.

(** What [pushBatchToRedis] does when it returns: the pipeline holds the
    commands of the records, the sink has executed it, and the error
    returned is the one the grouped write reports. *)
Lemma pushBatchToRedis_Done (logs : list (gmap string any)) (w w' : world)
    (r : redis) (err : option error) :
  rdb w = Some r ->
  pushBatchToRedis logs w = Done (w', err) ->
  err = batch_error r logs
  /\ rdb w' = Some (pipe_Exec r (cmds_of logs)).1.1
  /\ spool w' = spool w.
Proof.
  intros Hr. unfold pushBatchToRedis. rewrite Hr.
  destruct (queue_batch logs [] w) as [[pipe w1]| |] eqn:Hq; cbn; try discriminate.
  apply queue_batch_Done in Hq as (-> & Hr1 & Hs1). cbn [app].
  unfold batch_error.
  pose proof (pipe_Exec_first r (cmds_of logs)) as Hfirst.
  destruct (pipe_Exec r (cmds_of logs)) as [[r' es] e]. cbn in Hfirst |- *.
  destruct e as [e|].
  - intros [= <- <-]. auto.
  - rewrite check_cmds_quiet by (apply first_error_None; congruence).
    intros [= <- <-]. auto.
Qed.

Lemma pushBatchToRedis_total (logs : list (gmap string any)) (w : world) (r : redis) :
  rdb w = Some r ->
  Forall (fun logData => is_Some (batch_key logData)) logs ->
  exists w', pushBatchToRedis logs w = Done (w', batch_error r logs).
Proof.
  intros Hr Hk. unfold pushBatchToRedis. rewrite Hr.
  destruct (queue_batch_total logs [] w Hk) as (w1 & ->). cbn.
  unfold batch_error.
  pose proof (pipe_Exec_first r (cmds_of logs)) as Hfirst.
  destruct (pipe_Exec r (cmds_of logs)) as [[r' es] e]. cbn in Hfirst |- *.
  destruct e as [e|].
  - eauto.
  - rewrite check_cmds_quiet by (apply first_error_None; congruence). eauto.
Qed.

End logger_facts.

Section recovery_facts.
Context `{Json}.

Lemma os_Open_inr (d : disk) (name content : string) :
  os_Open d name = inr content -> files d !! name = Some content.
Proof.
  unfold os_Open. destruct (Open_err d); [discriminate|].
  destruct (files d !! name); congruence.
Qed.

(** The files of the spool directory, and the sink, after the scanner has
    carried a file through. *)
Lemma recover_file_Done (w w' : world) (r : redis) (name content : string) :
  rdb w = Some r ->
  os_Open (spool w) name = inr content ->
  recover_file name w = Done w' ->
  files (spool w') =
    (if existsb malformed (bufio.ScanLines content).1
     then <[name +:+ ".corrupt" := content]> (delete name (files (spool w)))
     else match batch_error r (decoded (bufio.ScanLines content).1) with
          | Some _ => files (spool w)
          | None => delete name (files (spool w))
          end)
  /\ rdb w' = Some (pipe_Exec r (cmds_of (decoded (bufio.ScanLines content).1))).1.1.
Proof.
  intros Hr Hopen. unfold recover_file. rewrite Hopen.
  apply os_Open_inr in Hopen.
  destruct (bufio.ScanLines content) as [lines too_long]. cbn [fst].
  destruct (foldl_read_line (filepath.Join (fallbackPath w) name) lines [] false w)
    as (w1 & -> & Hr1 & Hs1).
  cbn [app orb]. rewrite Hr in Hr1.
  destruct (decoded lines) as [|logData logs] eqn:Hdec.
  - cbn. unfold batch_error, cmds_of. cbn.
    destruct (existsb malformed lines); intros [= <-];
      destruct too_long; cbn; unfold os_Rename; rewrite ?Hs1, ?Hopen, ?Hr1; auto.
  - destruct (pushBatchToRedis (logData :: logs) w1) as [[w2 err]| |] eqn:Hpush;
      cbn; try discriminate.
    apply (pushBatchToRedis_Done _ _ _ r) in Hpush as (-> & Hr2 & Hs2); [|done].
    rewrite Hs1 in Hs2.
    destruct (batch_error r (logData :: logs)); cbn;
      destruct (existsb malformed lines); intros [= <-];
      destruct too_long; cbn; unfold os_Rename; rewrite ?Hs2, ?Hopen, ?Hr2; auto.
Qed.

Lemma recover_file_total (w : world) (r : redis) (name content : string) :
  rdb w = Some r ->
  os_Open (spool w) name = inr content ->
  Forall (fun logData => is_Some (batch_key logData)) (decoded (bufio.ScanLines content).1) ->
  exists w', recover_file name w = Done w'.
Proof.
  intros Hr Hopen Hk. unfold recover_file. rewrite Hopen.
  destruct (bufio.ScanLines content) as [lines too_long]. cbn [fst] in Hk.
  destruct (foldl_read_line (filepath.Join (fallbackPath w) name) lines [] false w)
    as (w1 & -> & Hr1 & Hs1).
  cbn [app orb]. rewrite Hr in Hr1.
  destruct (decoded lines) as [|logData logs] eqn:Hdec.
  - cbn. destruct (existsb malformed lines); eauto.
  - destruct (pushBatchToRedis_total (logData :: logs) w1 r Hr1 Hk) as (w2 & ->).
    cbn. destruct (batch_error r (logData :: logs)); cbn;
      destruct (existsb malformed lines); eauto.
Qed.

(** Corruption isolation, where it holds: when every decoded record holds
    the four identity strings, a file with a malformed line has the records
    of its other lines submitted in one pipeline, in file order, and is
    renamed. *)
Lemma corrupt_file_is_quarantined (w : world) (r : redis) (name content : string) :
  rdb w = Some r ->
  os_Open (spool w) name = inr content ->
  existsb malformed (bufio.ScanLines content).1 = true ->
  Forall (fun logData => is_Some (batch_key logData)) (decoded (bufio.ScanLines content).1) ->
  exists w',
    recover_file name w = Done w'
    /\ rdb w' = Some (pipe_Exec r (cmds_of (decoded (bufio.ScanLines content).1))).1.1
    /\ files (spool w') = <[name +:+ ".corrupt" := content]> (delete name (files (spool w))).
Proof.
  intros Hr Hopen Hbad Hk.
  destruct (recover_file_total w r name content Hr Hopen Hk) as [w' Hw'].
  destruct (recover_file_Done w w' r name content Hr Hopen Hw') as [Hfiles Hrdb].
  rewrite Hbad in Hfiles. eauto.
Qed.

End recovery_facts.

(** ** The recovery scanner *)

Section recovery_theorems.
Context `{Json}.

(** Where the scanner carries a file through, and as far as the lines it
    delivered go: the file is renamed with the suffix [.corrupt] if a
    delivered line failed to parse, whatever the grouped write did; it is
    deleted if none failed and the grouped write reported no failure; it
    is left as it was if none failed and the grouped write failed.  The
    scanner carries the file through whenever every decoded record holds
    the four identity strings. *)
Lemma file_disposition (w : world) (r : redis) (name content : string) :
  rdb w = Some r ->
  os_Open (spool w) name = inr content ->
  (Forall (fun logData => is_Some (batch_key logData))
          (decoded (bufio.ScanLines content).1) ->
   exists w', recover_file name w = Done w')
  /\ (forall w', recover_file name w = Done w' ->
      (existsb malformed (bufio.ScanLines content).1 = true ->
       files (spool w') = <[name +:+ ".corrupt" := content]> (delete name (files (spool w))))
      /\ (existsb malformed (bufio.ScanLines content).1 = false ->
          batch_error r (decoded (bufio.ScanLines content).1) = None ->
          files (spool w') = delete name (files (spool w)))
      /\ (existsb malformed (bufio.ScanLines content).1 = false ->
          is_Some (batch_error r (decoded (bufio.ScanLines content).1)) ->
          files (spool w') = files (spool w))).
Proof.
  intros Hr Hopen. split.
  - eauto using recover_file_total.
  - intros w' Hdone.
    destruct (recover_file_Done w w' r name content Hr Hopen Hdone) as [Hfiles _].
    repeat split.
    + intros Hbad. by rewrite Hbad in Hfiles.
    + intros Hgood Hok. by rewrite Hgood, Hok in Hfiles.
    + intros Hgood [e He]. by rewrite Hgood, He in Hfiles.
Qed.

Lemma blank_lines (lines : list string) :
  Forall (fun line => line = EmptyString) lines ->
  decoded lines = [] /\ existsb malformed lines = false.
Proof.
  induction 1 as [|line lines -> _ [IH1 IH2]]; [done|].
  cbn. auto.
Qed.

(** The pass over a spool file whose lines are all empty (an empty file
    too): the file is removed and nothing is submitted to the sink. *)
Lemma recover_entry_blank (w : world) (name content : string) (lines : list string) :
  is_fallback_name name = true ->
  os_Open (spool w) name = inr content ->
  bufio.ScanLines content = (lines, false) ->
  Forall (fun line => line = EmptyString) lines ->
  exists w',
    recover_entry name w = Done w'
    /\ files (spool w') = delete name (files (spool w))
    /\ rdb w' = rdb w.
Proof.
  intros Hname Hopen Hscan Hblank.
  unfold recover_entry. rewrite Hname. unfold recover_file. rewrite Hopen, Hscan.
  destruct (foldl_read_line (filepath.Join (fallbackPath w) name) lines [] false w)
    as (w1 & -> & Hr1 & Hs1).
  destruct (blank_lines lines Hblank) as [-> ->]. cbn.
  eexists. split; [reflexivity|]. cbn. rewrite Hs1. auto.
Qed.

Lemma is_fallback_name_corrupt (p : string) : is_fallback_name (p +:+ ".corrupt") = false.
Proof. unfold is_fallback_name. rewrite Ext_corrupt. reflexivity. Qed.

Lemma pushBatchToRedis_spool (logs : list (gmap string any)) (w w' : world)
    (err : option error) :
  pushBatchToRedis logs w = Done (w', err) -> spool w' = spool w.
Proof.
  intros Hpush. destruct (rdb w) as [r|] eqn:Hr.
  - by destruct (pushBatchToRedis_Done logs w w' r err Hr Hpush) as (_ & _ & ?).
  - unfold pushBatchToRedis in Hpush. by rewrite Hr in Hpush.
Qed.

(** Whatever the scanner does with an entry, it renames or removes that
    entry only. *)
Lemma recover_entry_spool (name : string) (w w' : world) :
  recover_entry name w = Done w' ->
  spool w' = spool w
  \/ is_fallback_name name = true
     /\ (spool w' = os_Remove name (spool w)
         \/ spool w' = os_Rename name (name +:+ ".corrupt") (spool w)).
Proof.
  unfold recover_entry. destruct (is_fallback_name name) eqn:Hname.
  2:{ intros [= <-]. by left. }
  unfold recover_file. destruct (os_Open (spool w) name) as [err|content].
  { intros [= <-]. by left. }
  destruct (bufio.ScanLines content) as [lines too_long].
  destruct (foldl_read_line (filepath.Join (fallbackPath w) name) lines [] false w)
    as (w1 & -> & Hr1 & Hs1).
  cbn [app orb].
  destruct (decoded lines) as [|logData logs].
  - cbn. destruct (existsb malformed lines); intros [= <-];
      destruct too_long; cbn; rewrite Hs1; auto.
  - destruct (pushBatchToRedis (logData :: logs) w1) as [[w2 err]| |] eqn:Hpush;
      cbn; try discriminate.
    apply pushBatchToRedis_spool in Hpush. rewrite Hs1 in Hpush.
    destruct err; cbn; destruct (existsb malformed lines); intros [= <-];
      destruct too_long; cbn; rewrite Hpush; auto.
Qed.

Lemma recover_entry_keeps (name q : string) (w w' : world) :
  is_fallback_name q = false ->
  recover_entry name w = Done w' ->
  is_Some (files (spool w) !! q) ->
  is_Some (files (spool w') !! q).
Proof.
  intros Hq Hdone Hin.
  destruct (recover_entry_spool name w w' Hdone) as [->|[Hname [->| ->]]]; [done| |].
  - cbn. rewrite lookup_delete_ne; [done|]. intros ->. congruence.
  - unfold os_Rename. destruct (files (spool w) !! name) as [content|]; [|done]. cbn.
    destruct (decide (name +:+ ".corrupt" = q)) as [->|Hne].
    + rewrite lookup_insert_eq. eauto.
    + rewrite lookup_insert_ne by done.
      rewrite lookup_delete_ne; [done|]. intros ->. congruence.
Qed.

Lemma recover_entries_keeps (names : list string) (q : string) :
  forall w w',
  is_fallback_name q = false ->
  recover_entries names w = Done w' ->
  is_Some (files (spool w) !! q) ->
  is_Some (files (spool w') !! q).
Proof.
  induction names as [|name names IH]; intros w w' Hq; cbn.
  - by intros [= <-].
  - destruct (recover_entry name w) as [w1| |] eqn:Hstep; cbn; try discriminate.
    intros Hrest Hin. eapply IH; eauto using recover_entry_keeps.
Qed.

Lemma recoverFallbackLogs_keeps (q : string) (w w' : world) :
  is_fallback_name q = false ->
  recoverFallbackLogs w = Done w' ->
  is_Some (files (spool w) !! q) ->
  is_Some (files (spool w') !! q).
Proof.
  intros Hq. unfold recoverFallbackLogs.
  destruct (rdb w); [|by intros [= <-]].
  destruct (os_ReadDir (spool w)) as [err|names]; [by intros [= <-]|].
  by apply recover_entries_keeps.
Qed.

Lemma length_append (a b : string) :
  String.length (a +:+ b) = (String.length a + String.length b)%nat.
Proof.
  induction a as [|c a IH]; [done|].
  change (String c a +:+ b) with (String c (a +:+ b)). cbn [String.length]. by rewrite IH.
Qed.

Lemma append_same_suffix (a b suffix : string) :
  a +:+ suffix = b +:+ suffix -> a = b.
Proof.
  revert b. induction a as [|c a IH]; intros b Heq.
  - destruct b as [|d b]; [done|]. exfalso.
    apply (f_equal String.length) in Heq.
    change (EmptyString +:+ suffix) with suffix in Heq.
    change (String d b +:+ suffix) with (String d (b +:+ suffix)) in Heq.
    cbn [String.length] in Heq. rewrite length_append in Heq. lia.
  - destruct b as [|d b].
    + exfalso. apply (f_equal String.length) in Heq.
      change (EmptyString +:+ suffix) with suffix in Heq.
      change (String c a +:+ suffix) with (String c (a +:+ suffix)) in Heq.
      cbn [String.length] in Heq. rewrite length_append in Heq. lia.
    + change (String c a +:+ suffix) with (String c (a +:+ suffix)) in Heq.
      change (String d b +:+ suffix) with (String d (b +:+ suffix)) in Heq.
      injection Heq as -> Heq. by rewrite (IH b Heq).
Qed.

(** A quarantined file is replaced only by the quarantine of the spool
    file it has its name from; while no such spool file is in the
    directory, the scanner leaves its content alone. *)
Lemma recover_entry_quarantined (name p : string) (w w' : world) :
  recover_entry name w = Done w' ->
  files (spool w) !! p = None \/ is_fallback_name p = false ->
  files (spool w') !! (p +:+ ".corrupt") = files (spool w) !! (p +:+ ".corrupt")
  /\ (files (spool w') !! p = None \/ is_fallback_name p = false).
Proof.
  intros Hdone Hfree.
  destruct (recover_entry_spool name w w' Hdone) as [->|[Hname [->| ->]]]; [done| |].
  - cbn. split.
    + rewrite lookup_delete_ne; [done|]. intros ->.
      by rewrite is_fallback_name_corrupt in Hname.
    + destruct Hfree as [Hp|Hp]; [left|by right].
      destruct (decide (name = p)) as [->|Hne];
        [apply lookup_delete_eq|by rewrite lookup_delete_ne].
  - unfold os_Rename. destruct (files (spool w) !! name) as [content|] eqn:Hfile; [|done].
    cbn. assert (Hne : name <> p).
    { intros ->. destruct Hfree as [Hp|Hp]; congruence. }
    split.
    + rewrite lookup_insert_ne by (intros Heq; by apply append_same_suffix in Heq).
      rewrite lookup_delete_ne; [done|]. intros ->.
      by rewrite is_fallback_name_corrupt in Hname.
    + destruct Hfree as [Hp|Hp]; [|by right].
      destruct (decide (name +:+ ".corrupt" = p)) as [<-|Hnp].
      * right. apply is_fallback_name_corrupt.
      * left. by rewrite lookup_insert_ne, lookup_delete_ne.
Qed.

Lemma recover_entries_quarantined (names : list string) (p : string) :
  forall w w',
  recover_entries names w = Done w' ->
  files (spool w) !! p = None \/ is_fallback_name p = false ->
  files (spool w') !! (p +:+ ".corrupt") = files (spool w) !! (p +:+ ".corrupt")
  /\ (files (spool w') !! p = None \/ is_fallback_name p = false).
Proof.
  induction names as [|name names IH]; intros w w'; cbn.
  - by intros [= <-].
  - destruct (recover_entry name w) as [w1| |] eqn:Hstep; cbn; try discriminate.
    intros Hrest Hfree.
    destruct (recover_entry_quarantined name p w w1 Hstep Hfree) as [Hsame Hfree1].
    destruct (IH w1 w' Hrest Hfree1) as [Hsame' Hfree']. split; [congruence|done].
Qed.

Lemma recoverFallbackLogs_quarantined (p : string) (w w' : world) :
  recoverFallbackLogs w = Done w' ->
  files (spool w) !! p = None \/ is_fallback_name p = false ->
  files (spool w') !! (p +:+ ".corrupt") = files (spool w) !! (p +:+ ".corrupt")
  /\ (files (spool w') !! p = None \/ is_fallback_name p = false).
Proof.
  unfold recoverFallbackLogs.
  destruct (rdb w); [|by intros [= <-]].
  destruct (os_ReadDir (spool w)) as [err|names]; [by intros [= <-]|].
  apply recover_entries_quarantined.
Qed.

(** C8, as the code has it: a file renamed with the suffix [.corrupt] no
    longer matches the naming convention (prefix [fallback_], extension
    [.log]), so no later cycle selects it: the scanner neither reads nor
    removes nor renames it, and after any number of cycles a file of that
    name is still in the directory.  Its content is the one it had as long
    as the directory holds no spool file of the name it was renamed from;
    the quarantine of such a file replaces it. *)
Theorem C8_quarantined_file_stays (n : nat) (p content : string) (w w' : world) :
  cycles n w = Done w' ->
  files (spool w) !! (p +:+ ".corrupt") = Some content ->
  is_fallback_name (p +:+ ".corrupt") = false
  /\ (forall v, recover_entry (p +:+ ".corrupt") v = Done v)
  /\ is_Some (files (spool w') !! (p +:+ ".corrupt"))
  /\ (files (spool w) !! p = None \/ is_fallback_name p = false ->
      files (spool w') !! (p +:+ ".corrupt") = Some content).
Proof.
  intros Hrun Hin. split; [apply is_fallback_name_corrupt|]. split; [|split].
  - intros v. unfold recover_entry. by rewrite is_fallback_name_corrupt.
  - assert (Hsome : is_Some (files (spool w) !! (p +:+ ".corrupt"))) by eauto.
    clear Hin. revert w Hrun Hsome. induction n as [|n IH]; intros w; cbn.
    + by intros [= <-].
    + destruct (recoverFallbackLogs w) as [w1| |] eqn:Hcycle; cbn; try discriminate.
      intros Hrest Hsome. apply (IH w1 Hrest).
      eapply recoverFallbackLogs_keeps; eauto using is_fallback_name_corrupt.
  - revert w Hrun Hin. induction n as [|n IH]; intros w; cbn.
    + by intros [= <-].
    + destruct (recoverFallbackLogs w) as [w1| |] eqn:Hcycle; cbn; try discriminate.
      intros Hrest Hin Hfree.
      destruct (recoverFallbackLogs_quarantined p w w1 Hcycle Hfree) as [Hsame Hfree1].
      apply (IH w1 Hrest); [congruence|done].
Qed.

End recovery_theorems.

(** ** The dispatcher's remote append and the fallback store *)

Section dispatch_theorems.
Context `{Json}.

(** When the spool file cannot be opened, the fallback append records the
    error and stores nothing. *)
Lemma logToFallback_open_failure (logData : gmap string any) (w : world) (e : error) :
  Open_err (spool w) = Some e ->
  logToFallback logData w
    = zap_log ErrorLevel "Failed to open fallback log file" [zap_Error e] w.
Proof. intros He. unfold logToFallback. by rewrite He. Qed.

(** On a disk that takes the write, the fallback append adds one line to
    the spool file named after the clock. *)
Lemma logToFallback_appends (logData : gmap string any) (w : world) (data : string) :
  Open_err (spool w) = None ->
  Write_err (spool w) = None ->
  json_Marshal logData = inr data ->
  files (spool (logToFallback logData w))
    = <["fallback_" +:+ Format_20060102150405 (clock w) +:+ ".log" :=
          default EmptyString
            (files (spool w) !! ("fallback_" +:+ Format_20060102150405 (clock w) +:+ ".log"))
          +:+ data +:+ newline]> (files (spool w))
  /\ logger (logToFallback logData w) = logger w.
Proof. intros Ho Hw Hm. unfold logToFallback. by rewrite Ho, Hw, Hm. Qed.

(** C5: when the remote append of a dequeued entry fails with an error
    classified as sink-unavailable, the entry goes to the fallback store
    (and is on disk once the spool file takes the write); when it fails
    with any other error, an error is recorded through the structured
    logger and the entry is dropped: nothing reaches the fallback store
    or the sink. *)
Theorem C5_failed_append (w : world) (level message : string)
    (fields : option (list (string * any))) (data : string) (r r' : redis) (e : error) :
  json_Marshal (logData_of level message fields w) = inr data ->
  rdb w = Some r ->
  redis_LPush r ("applogs:" +:+ facilityID w +:+ ":" +:+ instanceType w +:+ ":"
                 +:+ serviceName w +:+ ":" +:+ instanceID w) data = (r', Some e) ->
  (isRedisUnavailable e = true ->
   LogToRedis level message fields w
     = Done (logToFallback (logData_of level message fields w)
               (zap_log WarnLevel "Redis unavailable, saving to fallback" [zap_Error e] w))
   /\ (Open_err (spool w) = None -> Write_err (spool w) = None ->
       exists w', LogToRedis level message fields w = Done w'
         /\ files (spool w') !! ("fallback_" +:+ Format_20060102150405 (clock w) +:+ ".log")
            = Some (default EmptyString
                      (files (spool w)
                         !! ("fallback_" +:+ Format_20060102150405 (clock w) +:+ ".log"))
                    +:+ data +:+ newline)))
  /\ (isRedisUnavailable e = false ->
      LogToRedis level message fields w
        = Done (zap_log ErrorLevel "Failed to push log to Redis" [zap_Error e] w)).
Proof.
  intros Hm Hr Hpush.
  pose proof (redis_LPush_error _ _ _ _ _ Hpush) as ->.
  assert (Hw : set_rdb (Some r) w = w) by (destruct w; unfold set_rdb; cbn in *; by subst).
  split; intros Hclass; unfold LogToRedis; rewrite Hm, Hr, Hpush, Hclass, Hw.
  - split; [reflexivity|]. intros Ho Hwr. eexists. split; [reflexivity|].
    destruct (logToFallback_appends (logData_of level message fields w)
                (zap_log WarnLevel "Redis unavailable, saving to fallback" [zap_Error e] w)
                data Ho Hwr Hm) as [-> _].
    cbn. by rewrite lookup_insert_eq.
  - reflexivity.
Qed.

(** C9, on the code: when the spool file opens and the write fails, the
    fallback append records nothing through the structured logger; the
    entry is not stored and no other target is tried. *)
Theorem C9_write_failure_not_recorded (logData : gmap string any) (w : world) (e : error) :
  Open_err (spool w) = None ->
  Write_err (spool w) = Some e ->
  logger (logToFallback logData w) = logger w
  /\ rdb (logToFallback logData w) = rdb w
  /\ files (spool (logToFallback logData w))
       !! ("fallback_" +:+ Format_20060102150405 (clock w) +:+ ".log")
     = Some (default EmptyString
               (files (spool w)
                  !! ("fallback_" +:+ Format_20060102150405 (clock w) +:+ ".log"))).
Proof.
  intros Ho Hw. unfold logToFallback. rewrite Ho, Hw. cbn.
  by rewrite lookup_insert_eq.
Qed.

End dispatch_theorems.

(** ** The ingestion queue *)

Lemma chan_ok_NewLogger (queueSize : Z) (w : world) (a : Applogs) :
  NewLogger queueSize w = Done a -> chan_ok a.
Proof.
  unfold NewLogger. destruct (queueSize <? 0); [discriminate|].
  intros [= <-]. unfold chan_ok. cbn. repeat split; (lia || discriminate).
Qed.

Lemma chan_ok_logAsync (level message : string) (fields : option (list (string * any)))
    (a a' : Applogs) :
  chan_ok a -> logAsync level message fields a = Done a' -> chan_ok a'.
Proof.
  intros (Hlen & Hpark & Hret). unfold logAsync.
  destruct (closed (logQueue a)) eqn:Hclosed; [discriminate|].
  destruct (consumer a) as [|cur|] eqn:Hcons.
  - intros [= <-]. unfold chan_ok. cbn. repeat split; (done || discriminate).
  - destruct (length (buf (logQueue a)) <? cap (logQueue a))%nat eqn:Hroom;
      intros [= <-]; unfold chan_ok; cbn; rewrite ?Hcons.
    + apply Nat.ltb_lt in Hroom. rewrite length_app. cbn.
      repeat split; (lia || discriminate).
    + repeat split; (done || discriminate).
  - destruct (Hret eq_refl) as [_ Hc]. congruence.
Qed.

Lemma chan_ok_StopLogger (a a' : Applogs) :
  chan_ok a -> StopLogger a = Done a' -> chan_ok a'.
Proof.
  intros (Hlen & Hpark & Hret). unfold StopLogger.
  destruct (closed (logQueue a)) eqn:Hclosed; [discriminate|].
  intros [= <-]. unfold chan_ok. cbn.
  destruct (consumer a) as [|cur|] eqn:Hcons.
  - destruct (Hpark eq_refl) as [Hbuf _]. repeat split; (done || discriminate).
  - repeat split; (done || discriminate).
  - destruct (Hret eq_refl) as [_ Hc]. congruence.
Qed.

Lemma chan_ok_processLogs `{Json} (a a' : Applogs) :
  chan_ok a -> processLogs a = Done a' -> chan_ok a'.
Proof.
  intros (Hlen & Hpark & Hret). unfold processLogs.
  destruct (consumer a) as [|[entry|]|] eqn:Hcons.
  - intros [= <-]. unfold chan_ok. by rewrite Hcons.
  - destruct (process_entry entry (globals a)) as [w| |]; cbn; try discriminate.
    intros [= <-]. unfold chan_ok. cbn. repeat split; (done || discriminate).
  - intros [= <-]. unfold receive, chan_ok.
    destruct (buf (logQueue a)) as [|entry rest] eqn:Hbuf; cbn.
    + rewrite Hbuf. destruct (closed (logQueue a)) eqn:Hclosed;
        repeat split; (done || discriminate).
    + cbn in Hlen. repeat split; (lia || discriminate).
  - intros [= <-]. unfold chan_ok. by rewrite Hcons.
Qed.

Lemma logAsync_room (b : list logEntry) (N : nat) (cur : option logEntry) (w : world)
    (e : logEntry) :
  (length b < N)%nat ->
  logAsync (level e) (message e) (fields e) (MkApplogs (MkChan b N false) (Running cur) w)
    = Done (MkApplogs (MkChan (b ++ [e]) N false) (Running cur) w).
Proof.
  intros Hroom. apply Nat.ltb_lt in Hroom.
  unfold logAsync. cbn -[Nat.ltb]. rewrite Hroom. by destruct e.
Qed.

Lemma logAsync_full (b : list logEntry) (N : nat) (cur : option logEntry) (w : world)
    (e : logEntry) :
  (N <= length b)%nat ->
  logAsync (level e) (message e) (fields e) (MkApplogs (MkChan b N false) (Running cur) w)
    = Done (MkApplogs (MkChan b N false) (Running cur)
              (zap_log WarnLevel "Log queue is full, dropping log"
                 [zap_String "level" (level e); zap_String "message" (message e)] w)).
Proof.
  intros Hfull. apply Nat.ltb_ge in Hfull.
  unfold logAsync. cbn -[Nat.ltb]. by rewrite Hfull.
Qed.

(** Against a dispatcher that makes no move, calls fill the buffer in the
    order they are made, as long as there is room. *)
Lemma log_calls_fill (es : list logEntry) :
  forall (b : list logEntry) (N : nat) (cur : option logEntry) (w : world),
  (length b + length es <= N)%nat ->
  log_calls es (MkApplogs (MkChan b N false) (Running cur) w)
    = Done (MkApplogs (MkChan (b ++ es) N false) (Running cur) w).
Proof.
  induction es as [|e es IH]; intros b N cur w Hroom; cbn [log_calls].
  - by rewrite app_nil_r.
  - cbn in Hroom. rewrite logAsync_room by lia. cbn.
    rewrite IH by (rewrite length_app; cbn; lia).
    by rewrite <- app_assoc.
Qed.

(** On an open queue with room in the buffer, the entry is accepted behind
    the pending ones. *)
Lemma logAsync_accepts (a : Applogs) (level message : string)
    (fields : option (list (string * any))) :
  chan_ok a ->
  closed (logQueue a) = false ->
  (length (buf (logQueue a)) < cap (logQueue a))%nat ->
  exists a',
    logAsync level message fields a = Done a'
    /\ pending a' = pending a ++ [MkLogEntry level message fields]
    /\ globals a' = globals a
    /\ cap (logQueue a') = cap (logQueue a)
    /\ (length (buf (logQueue a')) <= S (length (buf (logQueue a))))%nat
    /\ closed (logQueue a') = false.
Proof.
  intros (Hlen & Hpark & Hret) Hopen Hroom. unfold logAsync. rewrite Hopen.
  destruct (consumer a) as [|cur|] eqn:Hcons.
  - destruct (Hpark eq_refl) as [Hbuf _].
    eexists. split; [reflexivity|]. unfold pending. cbn. rewrite Hcons, Hbuf.
    repeat split; (done || lia).
  - apply Nat.ltb_lt in Hroom. rewrite Hroom.
    eexists. split; [reflexivity|]. unfold pending. cbn. rewrite Hcons, length_app. cbn.
    repeat split; try done; try lia. by destruct cur.
  - destruct (Hret eq_refl) as [_ Hc]. congruence.
Qed.

Lemma log_calls_app (es1 es2 : list logEntry) (a : Applogs) :
  log_calls (es1 ++ es2) a = a' ← log_calls es1 a; log_calls es2 a'.
Proof.
  revert a. induction es1 as [|e es1 IH]; intros a; cbn; [done|].
  destruct (logAsync (level e) (message e) (fields e) a) as [a1| |]; cbn; auto.
Qed.

(** C3, as the code has it: on an open queue, an entry enqueued while the
    queue holds fewer than its capacity is accepted behind the entries
    already pending; an entry enqueued at capacity, when the capacity is at
    least 1 or the dispatcher is not blocked in its receive, is dropped
    with a warning carrying its level and message, and the call returns.
    [N+1] calls against a dispatcher that is not blocked in its receive
    and makes no move all return, the first [N] entries are buffered in
    order and the last one is dropped.  Against a dispatcher that is
    blocked in its receive and makes no move of its own, the first entry
    is handed to it, the next [N] are buffered in order, and it is call
    [N+2] that is dropped. *)
Theorem C3_enqueue_or_drop :
  (forall (a : Applogs) (level message : string) (fields : option (list (string * any))),
     chan_ok a ->
     closed (logQueue a) = false ->
     ((length (buf (logQueue a)) < cap (logQueue a))%nat ->
      exists a',
        logAsync level message fields a = Done a'
        /\ pending a' = pending a ++ [MkLogEntry level message fields]
        /\ globals a' = globals a)
     /\ (length (buf (logQueue a)) = cap (logQueue a) ->
         (0 < cap (logQueue a))%nat \/ consumer a <> Parked ->
         logAsync level message fields a
           = Done (MkApplogs (logQueue a) (consumer a)
                     (zap_log WarnLevel "Log queue is full, dropping log"
                        [zap_String "level" level; zap_String "message" message]
                        (globals a)))))
  /\ (forall (N : nat) (w : world) (cur : option logEntry) (es : list logEntry) (e : logEntry),
        length es = N ->
        log_calls (es ++ [e]) (MkApplogs (MkChan [] N false) (Running cur) w)
          = Done (MkApplogs (MkChan es N false) (Running cur)
                    (zap_log WarnLevel "Log queue is full, dropping log"
                       [zap_String "level" (level e); zap_String "message" (message e)] w)))
  /\ (forall (N : nat) (w : world) (e0 : logEntry) (es : list logEntry) (e : logEntry),
        length es = N ->
        log_calls (e0 :: es ++ [e]) (MkApplogs (MkChan [] N false) Parked w)
          = Done (MkApplogs (MkChan es N false) (Running (Some e0))
                    (zap_log WarnLevel "Log queue is full, dropping log"
                       [zap_String "level" (level e); zap_String "message" (message e)] w))).
Proof.
  split; [|split].
  - intros a level message fields (Hlen & Hpark & Hret) Hopen. split.
    + intros Hroom.
      destruct (logAsync_accepts a level message fields) as (a' & ? & ? & ? & _);
        [done..|eauto].
    + intros Hfull Hbusy. unfold logAsync. rewrite Hopen.
      assert (Hnp : consumer a <> Parked).
      { destruct Hbusy as [Hpos|]; [|done].
        intros Hp. destruct (Hpark Hp) as [Hbuf _]. rewrite Hbuf in Hfull. cbn in Hfull. lia. }
      assert (Hb : (length (buf (logQueue a)) <? cap (logQueue a))%nat = false)
        by (apply Nat.ltb_ge; lia).
      rewrite Hb. by destruct (consumer a).
  - intros N w cur es e Hlen.
    rewrite log_calls_app, (log_calls_fill es [] N cur w) by (cbn; lia).
    unfold mbind, result_bind. cbn [log_calls].
    rewrite logAsync_full by (cbn; lia). reflexivity.
  - intros N w e0 es e Hlen. cbn [log_calls].
    assert (Hhand : logAsync (level e0) (message e0) (fields e0)
                      (MkApplogs (MkChan [] N false) Parked w)
                    = Done (MkApplogs (MkChan [] N false) (Running (Some e0)) w))
      by (by destruct e0).
    rewrite Hhand. cbn [mbind result_bind].
    rewrite log_calls_app, (log_calls_fill es [] N (Some e0) w) by (cbn; lia).
    unfold mbind, result_bind. cbn [log_calls].
    rewrite logAsync_full by (cbn; lia). reflexivity.
Qed.

(** C4, on the code: once [StopLogger] has closed the queue, every producer
    call panics in the caller. *)
Theorem C4_enqueue_after_close_panics (a a' : Applogs) (level message : string)
    (fields : option (list (string * any))) :
  StopLogger a = Done a' ->
  logAsync level message fields a' = Panic "send on closed channel".
Proof.
  unfold StopLogger. destruct (closed (logQueue a)); [discriminate|].
  by intros [= <-].
Qed.

(** ** The routing key *)

Section routing_key.
Context `{Json}.

Lemma rdb_logToFallback (logData : gmap string any) (w : world) :
  rdb (logToFallback logData w) = rdb w.
Proof.
  unfold logToFallback. destruct (Open_err (spool w)); [done|].
  by destruct (Write_err (spool w)).
Qed.

Lemma batch_key_identity (logData : gmap string any) :
  batch_key logData
    = (fun '(f, t, s, i) => "applogs:" +:+ spec_RoutingKey f t s i) <$> identity logData.
Proof.
  unfold batch_key, identity.
  destruct (as_string (logData !! "facility_id")); [|done].
  destruct (as_string (logData !! "instance_type")); [|done].
  destruct (as_string (logData !! "service_name")); [|done].
  by destruct (as_string (logData !! "instance_id")).
Qed.

Lemma cmds_of_keyed (logs : list (gmap string any)) :
  cmds_of logs = concat (keyed_cmd <$> logs).
Proof.
  unfold cmds_of. f_equal. apply list_fmap_ext. intros _ logData _.
  unfold cmd_of, keyed_cmd. rewrite batch_key_identity.
  by destruct (identity logData) as [[[[f t] s] i]|].
Qed.

(** On a healthy sink whose key holds a list (or nothing), the entry lands
    at the head of the list at the key of the process. *)
Lemma LogToRedis_prepends (w : world) (level message : string)
    (fields : option (list (string * any))) (data : string) (r : redis) :
  json_Marshal (logData_of level message fields w) = inr data ->
  rdb w = Some r ->
  fault r = None ->
  (forall s, db r !! ("applogs:" +:+ spec_RoutingKey (facilityID w) (instanceType w)
                        (serviceName w) (instanceID w)) <> Some (RString s)) ->
  exists r',
    LogToRedis level message fields w = Done (set_rdb (Some r') w)
    /\ items_at r' ("applogs:" +:+ spec_RoutingKey (facilityID w) (instanceType w)
                      (serviceName w) (instanceID w))
       = data :: items_at r ("applogs:" +:+ spec_RoutingKey (facilityID w) (instanceType w)
                               (serviceName w) (instanceID w)).
Proof.
  intros Hm Hr Hf Hlist. unfold LogToRedis. rewrite Hm, Hr.
  unfold spec_RoutingKey in *. unfold redis_LPush, items_at. rewrite Hf.
  destruct (db r !! _) as [[items|s]|] eqn:Hkey.
  - eexists. split; [reflexivity|]. cbn. by rewrite lookup_insert_eq.
  - by destruct (Hlist s).
  - eexists. split; [reflexivity|]. cbn. by rewrite lookup_insert_eq.
Qed.

(** C2, as the code has it: the key the dispatcher appends at is the
    string [applogs:] followed by
    [<facility_id>:<instance_type>:<service_name>:<instance_id>] of the
    process; the key the recovery scanner appends a record at is the same
    string built from the identity fields the record itself carries, for
    records that carry the four of them as strings. *)
Theorem C2_routing_key_has_prefix :
  (forall (w : world) (level message : string) (fields : option (list (string * any)))
          (data : string) (r : redis),
     json_Marshal (logData_of level message fields w) = inr data ->
     rdb w = Some r ->
     exists w',
       LogToRedis level message fields w = Done w'
       /\ rdb w' = Some (redis_LPush r
                           ("applogs:" +:+ spec_RoutingKey (facilityID w) (instanceType w)
                                             (serviceName w) (instanceID w)) data).1)
  /\ (forall (w : world) (r : redis) (logs : list (gmap string any)),
        rdb w = Some r ->
        Forall (fun logData => is_Some (identity logData)) logs ->
        exists w',
          pushBatchToRedis logs w = Done (w', batch_error r logs)
          /\ rdb w' = Some (pipe_Exec r (concat (keyed_cmd <$> logs))).1.1).
Proof.
  split.
  - intros w level message fields data r Hm Hr.
    unfold LogToRedis. rewrite Hm, Hr. unfold spec_RoutingKey.
    destruct (redis_LPush r _ data) as [r' [e|]]; cbn [fst].
    + destruct (isRedisUnavailable e); eexists; (split; [reflexivity|]).
      * by rewrite rdb_logToFallback.
      * done.
    + eexists. by split.
  - intros w r logs Hr Hid.
    assert (Hk : Forall (fun logData => is_Some (batch_key logData)) logs).
    { eapply Forall_impl; [exact Hid|]. intros logData [x Hx].
      rewrite batch_key_identity, Hx. by destruct x as [[[f t] s] i]. }
    destruct (pushBatchToRedis_total logs w r Hr Hk) as (w' & Hpush).
    exists w'. split; [done|].
    destruct (pushBatchToRedis_Done logs w w' r _ Hr Hpush) as (_ & -> & _).
    by rewrite cmds_of_keyed.
Qed.

End routing_key.

(** ** Runs on the reference codec *)

Section runs.
Import JsonRef Scenario.

(** C1, on the code: queue of size 10, the calls [Info "a"], [Warn "b"],
    [Error "c"], healthy sink, dispatcher run until the queue is empty.
    The list at the key of the process has 3 entries, newest first: its
    first entry decodes to level [error], message [c], and the entry of
    the first call, level [info], message [a], is the last one. *)
Theorem C1_sink_list_newest_first :
  exists a,
    three_calls = Done a
    /\ consumer a = Parked
    /\ buf (logQueue a) = []
    /\ length (sink_list "applogs:fac:worker:svc:i-1" a) = 3%nat
    /\ decoded_field "level" <$> sink_list "applogs:fac:worker:svc:i-1" a
       = [Some (VString "error"); Some (VString "warn"); Some (VString "info")]
    /\ decoded_field "message" <$> sink_list "applogs:fac:worker:svc:i-1" a
       = [Some (VString "c"); Some (VString "b"); Some (VString "a")].
Proof.
  eexists. split; [vm_compute; reflexivity|].
  repeat split; vm_compute; reflexivity.
Qed.

(** C2 as stated fails: the list the dispatcher appends to is not at the
    bare string [fac:worker:svc:i-1] but at [applogs:fac:worker:svc:i-1],
    and so for a record the recovery scanner replays. *)
Lemma C2_bare_key_is_not_used :
  exists w1 w2 err,
    LogToRedis "info" "a" None w0 = Done w1
    /\ pushBatchToRedis (decoded [line_of "info" "a" None]) w0 = Done (w2, err)
    /\ sink_items (spec_RoutingKey "fac" "worker" "svc" "i-1") w1 = []
    /\ sink_items (spec_RoutingKey "fac" "worker" "svc" "i-1") w2 = []
    /\ sink_items "applogs:fac:worker:svc:i-1" w1 = [line_of "info" "a" None]
    /\ sink_items "applogs:fac:worker:svc:i-1" w2 = [line_of "info" "a" None].
Proof.
  do 3 eexists. split; [vm_compute; reflexivity|]. split; [vm_compute; reflexivity|].
  repeat split; vm_compute; reflexivity.
Qed.

(** C3 as stated fails at capacity 0: with the dispatcher blocked in its
    receive the queue holds as many entries as its capacity, and the entry
    is handed to the dispatcher; nothing is dropped and no warning is
    written. *)
Lemma C3_unbuffered_entry_is_not_dropped :
  exists a a',
    unbuffered = Done a
    /\ length (buf (logQueue a)) = cap (logQueue a)
    /\ closed (logQueue a) = false
    /\ Info "a" None a = Done a'
    /\ pending a' = [MkLogEntry "info" "a" None]
    /\ logger (globals a') = logger (globals a).
Proof.
  do 2 eexists. split; [vm_compute; reflexivity|].
  repeat split; vm_compute; reflexivity.
Qed.

(** C7, on the code: a spool file with a line that is not JSON, an entry
    the fallback store wrote, and the line [{}].  The first line is
    malformed and the other two decode; the cycle panics on the type
    assertion while it builds the batch, so nothing is submitted and the
    file is not renamed. *)
Theorem C7_record_without_identity_panics :
  (bufio.ScanLines foreign_file).1 = ["not json"; line_of "info" "a" None; "{}"]
  /\ malformed <$> (bufio.ScanLines foreign_file).1 = [true; false; false]
  /\ identity <$> decoded (bufio.ScanLines foreign_file).1
     = [Some ("fac", "worker", "svc", "i-1"); None]
  /\ recoverFallbackLogs (with_files [(spool_name, foreign_file)] w0)
     = Panic "interface conversion: interface {} is not string".
Proof. repeat split; vm_compute; reflexivity. Qed.

(** A second run against corruption isolation.  The first line of the file
    is an entry as the fallback store writes it, 65536 bytes of message
    long, and the second line is not JSON.  The long line stops the
    scanner before any line is decoded: the batch is empty, the file is
    not marked corrupt, and the cycle removes it. *)
Lemma long_line_file_is_deleted :
  long_file = lines [line_of "error" (N.iter 65536 (String "x"%char) EmptyString) None;
                     "not json"]
  /\ identity <$> decoded [line_of "error" (N.iter 65536 (String "x"%char) EmptyString) None]
     = [Some ("fac", "worker", "svc", "i-1")]
  /\ malformed "not json" = true
  /\ bufio.ScanLines long_file = ([], true)
  /\ exists w',
       recoverFallbackLogs (with_files [(spool_name, long_file)] w0) = Done w'
       /\ files (spool w') = ∅
       /\ rdb w' = Some healthy.
Proof.
  split; [reflexivity|]. split; [vm_compute; reflexivity|].
  split; [vm_compute; reflexivity|]. split; [vm_compute; reflexivity|].
  eexists. split; [vm_compute; reflexivity|]. split; vm_compute; reflexivity.
Qed.

End runs.

Section witnesses.
Import JsonRef Scenario.

Lemma C2_routing_key_has_prefix_witness :
  json_Marshal (logData_of "info" "a" None w0) = inr (line_of "info" "a" None)
  /\ rdb w0 = Some healthy
  /\ Forall (fun logData => is_Some (identity logData)) (decoded [line_of "warn" "b" None])
  /\ (exists w',
        LogToRedis "info" "a" None w0 = Done w'
        /\ rdb w' = Some (redis_LPush healthy
                            ("applogs:" +:+ spec_RoutingKey "fac" "worker" "svc" "i-1")
                            (line_of "info" "a" None)).1)
  /\ (exists w',
        pushBatchToRedis (decoded [line_of "warn" "b" None]) w0
          = Done (w', batch_error healthy (decoded [line_of "warn" "b" None]))
        /\ rdb w' = Some (pipe_Exec healthy
                            (concat (keyed_cmd <$> (decoded [line_of "warn" "b" None])))).1.1).
Proof.
  assert (Hm : json_Marshal (logData_of "info" "a" None w0) = inr (line_of "info" "a" None))
    by (vm_compute; reflexivity).
  assert (Hid : Forall (fun logData => is_Some (identity logData))
                       (decoded [line_of "warn" "b" None]))
    by (apply (bool_decide_unpack _); vm_compute; exact I).
  split; [exact Hm|]. split; [reflexivity|]. split; [exact Hid|]. split.
  - exact (proj1 C2_routing_key_has_prefix w0 "info" "a" None _ healthy Hm eq_refl).
  - exact (proj2 C2_routing_key_has_prefix w0 healthy _ eq_refl Hid).
Defined.

Lemma C3_enqueue_or_drop_witness :
  log_calls [MkLogEntry "info" "a" None; MkLogEntry "warn" "b" None;
             MkLogEntry "error" "c" None]
            (MkApplogs (MkChan [] 2 false) (Running None) w0)
    = Done (MkApplogs
              (MkChan [MkLogEntry "info" "a" None; MkLogEntry "warn" "b" None] 2 false)
              (Running None)
              (zap_log WarnLevel "Log queue is full, dropping log"
                 [zap_String "level" "error"; zap_String "message" "c"] w0))
  /\ (exists a',
        logAsync "info" "a" None (MkApplogs (MkChan [] 2 false) Parked w0) = Done a'
        /\ pending a' = [MkLogEntry "info" "a" None]
        /\ globals a' = w0)
  /\ logAsync "info" "a" None (MkApplogs (MkChan [] 0 false) (Running None) w0)
     = Done (MkApplogs (MkChan [] 0 false) (Running None)
               (zap_log WarnLevel "Log queue is full, dropping log"
                  [zap_String "level" "info"; zap_String "message" "a"] w0))
  /\ log_calls [MkLogEntry "info" "a" None; MkLogEntry "warn" "b" None;
                MkLogEntry "error" "c" None; MkLogEntry "debug" "d" None]
               (MkApplogs (MkChan [] 2 false) Parked w0)
     = Done (MkApplogs
               (MkChan [MkLogEntry "warn" "b" None; MkLogEntry "error" "c" None] 2 false)
               (Running (Some (MkLogEntry "info" "a" None)))
               (zap_log WarnLevel "Log queue is full, dropping log"
                  [zap_String "level" "debug"; zap_String "message" "d"] w0)).
Proof.
  split; [|split; [|split]].
  4:{ exact (proj2 (proj2 C3_enqueue_or_drop) 2%nat w0 (MkLogEntry "info" "a" None)
               [MkLogEntry "warn" "b" None; MkLogEntry "error" "c" None]
               (MkLogEntry "debug" "d" None) eq_refl). }
  - exact (proj1 (proj2 C3_enqueue_or_drop) 2%nat w0 None
             [MkLogEntry "info" "a" None; MkLogEntry "warn" "b" None]
             (MkLogEntry "error" "c" None) eq_refl).
  - refine (proj1 (proj1 C3_enqueue_or_drop
                     (MkApplogs (MkChan [] 2 false) Parked w0) "info" "a" None _ eq_refl) _).
    + unfold chan_ok. cbn. repeat split; (lia || discriminate).
    + cbn. lia.
  - refine (proj2 (proj1 C3_enqueue_or_drop
                     (MkApplogs (MkChan [] 0 false) (Running None) w0) "info" "a" None
                     _ eq_refl) eq_refl _).
    + unfold chan_ok. cbn. repeat split; (lia || discriminate).
    + right. discriminate.
Defined.

Lemma C4_enqueue_after_close_panics_witness :
  exists a a',
    NewLogger 10 w0 = Done a
    /\ StopLogger a = Done a'
    /\ Info "a" None a' = Panic "send on closed channel".
Proof.
  exists (MkApplogs (MkChan [] 10 false) (Running None) w0).
  exists (MkApplogs (MkChan [] 10 true) (Running None)
            (zap_log InfoLevel "Logger stopped gracefully" [] w0)).
  split; [reflexivity|]. split; [reflexivity|].
  exact (C4_enqueue_after_close_panics
           (MkApplogs (MkChan [] 10 false) (Running None) w0) _ "info" "a" None eq_refl).
Defined.

Lemma C5_failed_append_witness :
  json_Marshal (logData_of "info" "f" (Some [("k", VString "fb")]) w_down)
    = inr (line_of "info" "f" (Some [("k", VString "fb")]))
  /\ rdb w_down = Some down
  /\ redis_LPush down "applogs:fac:worker:svc:i-1"
       (line_of "info" "f" (Some [("k", VString "fb")])) = (down, Some refused)
  /\ isRedisUnavailable refused = true
  /\ exists w',
       LogToRedis "info" "f" (Some [("k", VString "fb")]) w_down = Done w'
       /\ files (spool w') !! "fallback_20250101120000.log"
          = Some (line_of "info" "f" (Some [("k", VString "fb")]) +:+ newline).
Proof.
  assert (Hm : json_Marshal (logData_of "info" "f" (Some [("k", VString "fb")]) w_down)
               = inr (line_of "info" "f" (Some [("k", VString "fb")])))
    by (vm_compute; reflexivity).
  assert (Hc : isRedisUnavailable refused = true) by (vm_compute; reflexivity).
  split; [exact Hm|]. split; [reflexivity|]. split; [reflexivity|]. split; [exact Hc|].
  exact (proj2 (proj1 (C5_failed_append w_down "info" "f" (Some [("k", VString "fb")])
                         _ down down refused Hm eq_refl eq_refl) Hc)
               eq_refl eq_refl).
Defined.

Lemma file_disposition_witness :
  rdb (with_files [(spool_name, torn_file)] w0) = Some healthy
  /\ os_Open (spool (with_files [(spool_name, torn_file)] w0)) spool_name = inr torn_file
  /\ existsb malformed (bufio.ScanLines torn_file).1 = true
  /\ exists w',
       recover_file spool_name (with_files [(spool_name, torn_file)] w0) = Done w'
       /\ files (spool w')
          = <[spool_name +:+ ".corrupt" := torn_file]>
              (delete spool_name (files (spool (with_files [(spool_name, torn_file)] w0)))).
Proof.
  assert (Ho : os_Open (spool (with_files [(spool_name, torn_file)] w0)) spool_name
               = inr torn_file) by (vm_compute; reflexivity).
  assert (Hbad : existsb malformed (bufio.ScanLines torn_file).1 = true)
    by (vm_compute; reflexivity).
  assert (Hk : Forall (fun logData => is_Some (batch_key logData))
                      (decoded (bufio.ScanLines torn_file).1)).
  { apply (bool_decide_unpack _). vm_compute. exact I. }
  split; [reflexivity|]. split; [exact Ho|]. split; [exact Hbad|].
  destruct (file_disposition (with_files [(spool_name, torn_file)] w0) healthy
              spool_name torn_file eq_refl Ho) as [Htotal Hdisp].
  destruct (Htotal Hk) as [w' Hw'].
  exists w'. split; [exact Hw'|].
  exact (proj1 (Hdisp w' Hw') Hbad).
Defined.

Lemma C8_quarantined_file_stays_witness :
  exists w1 w2,
    recoverFallbackLogs (with_files [(spool_name, torn_file)] w0) = Done w1
    /\ cycles 2 w1 = Done w2
    /\ files (spool w1) !! (spool_name +:+ ".corrupt") = Some torn_file
    /\ is_fallback_name (spool_name +:+ ".corrupt") = false
    /\ (forall v, recover_entry (spool_name +:+ ".corrupt") v = Done v)
    /\ is_Some (files (spool w2) !! (spool_name +:+ ".corrupt"))
    /\ (files (spool w1) !! spool_name = None \/ is_fallback_name spool_name = false ->
        files (spool w2) !! (spool_name +:+ ".corrupt") = Some torn_file).
Proof.
  do 2 eexists. split; [vm_compute; reflexivity|].
  match goal with
  | |- cycles 2 ?w1 = Done ?w2 /\ ?present /\ _ =>
      assert (Hrun : cycles 2 w1 = Done w2) by (vm_compute; reflexivity);
      assert (Hin : present) by (vm_compute; reflexivity)
  end.
  split; [exact Hrun|]. split; [exact Hin|].
  exact (C8_quarantined_file_stays 2 spool_name torn_file _ _ Hrun Hin).
Defined.

Lemma C9_write_failure_not_recorded_witness :
  Open_err (spool w_disk_full) = None
  /\ Write_err (spool w_disk_full) = Some (errors_New "no space left on device")
  /\ logger (logToFallback (logData_of "info" "f" None w_disk_full) w_disk_full) = []
  /\ files (spool (logToFallback (logData_of "info" "f" None w_disk_full) w_disk_full))
       !! "fallback_20250101120000.log" = Some EmptyString.
Proof.
  split; [reflexivity|]. split; [reflexivity|].
  destruct (C9_write_failure_not_recorded (logData_of "info" "f" None w_disk_full)
              w_disk_full _ eq_refl eq_refl) as (Hlog & _ & Hfile).
  split; [exact Hlog|exact Hfile].
Defined.

End witnesses.

(** ** The order of the sink list *)

Section sink_order.
Context `{Json}.

Lemma same_process_refl (w : world) : same_process w w.
Proof. by unfold same_process. Qed.

Lemma same_process_trans (w1 w2 w3 : world) :
  same_process w1 w2 -> same_process w2 w3 -> same_process w1 w3.
Proof. unfold same_process. intuition congruence. Qed.

Lemma process_key_same (w w' : world) :
  same_process w w' -> process_key w' = process_key w.
Proof. intros (Hs & Hi & Hf & Ht & _). unfold process_key. by rewrite Hs, Hi, Hf, Ht. Qed.

Lemma logData_of_same (w w' : world) (l m : string) (f : option (list (string * any))) :
  same_process w w' -> logData_of l m f w' = logData_of l m f w.
Proof. intros (Hs & Hi & Hf & Ht & Hc). unfold logData_of. by rewrite Hs, Hi, Hf, Ht, Hc. Qed.

Lemma payload_same (w w' : world) (e : logEntry) :
  same_process w w' -> payload w' e = payload w e.
Proof. intros Hs. unfold payload. by rewrite (logData_of_same w w'). Qed.

Lemma sendable_same (w w' : world) (e : logEntry) :
  same_process w w' -> sendable w e -> sendable w' e.
Proof. intros Hs. unfold sendable. by rewrite (logData_of_same w w'). Qed.

Lemma LogToRedis_ready (w : world) (l m : string) (f : option (list (string * any)))
    (data : string) (r : redis) :
  json_Marshal (logData_of l m f w) = inr data ->
  rdb w = Some r ->
  fault r = None ->
  (forall s, db r !! process_key w <> Some (RString s)) ->
  LogToRedis l m f w
    = Done (set_rdb (Some (MkRedis (<[process_key w := RList (data :: items_at r (process_key w))]>
                                      (db r)) None)) w).
Proof.
  intros Hm Hr Hf Hk. unfold LogToRedis. rewrite Hm, Hr.
  change ("applogs:" +:+ facilityID w +:+ ":" +:+ instanceType w +:+ ":"
          +:+ serviceName w +:+ ":" +:+ instanceID w) with (process_key w).
  unfold redis_LPush, items_at. rewrite Hf.
  destruct (db r !! process_key w) as [[items|s]|] eqn:Hkey; try done.
  by destruct (Hk s).
Qed.

(** One entry sent on by the dispatcher lands at the head of the list. *)
Lemma process_entry_ready (e : logEntry) (w : world) :
  sink_ready w ->
  sendable w e ->
  exists w',
    process_entry e w = Done w'
    /\ sink_ready w'
    /\ same_process w w'
    /\ sink_items (process_key w) w' = payload w e :: sink_items (process_key w) w.
Proof.
  intros (r & Hr & Hf & Hk) [Hm Hlevel].
  unfold process_entry, payload.
  destruct (json_Marshal (logData_of (level e) (message e) (fields e) w)) as [err|data] eqn:Hdata;
    [by destruct Hm|].
  rewrite (LogToRedis_ready w _ _ _ data r Hdata Hr Hf Hk). cbn [mbind result_bind].
  set (r' := MkRedis _ None).
  assert (Hready : forall lg, sink_ready (set_logger lg (set_rdb (Some r') w))
                              /\ same_process w (set_logger lg (set_rdb (Some r') w))
                              /\ sink_items (process_key w) (set_logger lg (set_rdb (Some r') w))
                                 = data :: sink_items (process_key w) w).
  { intros lg. split; [|split].
    - exists r'. split; [done|]. split; [done|]. intros s.
      change (process_key (set_logger lg (set_rdb (Some r') w))) with (process_key w).
      unfold r'. cbn. by rewrite lookup_insert_eq.
    - by unfold same_process.
    - unfold sink_items. cbn. rewrite Hr. unfold items_at at 1, r'. cbn.
      by rewrite lookup_insert_eq. }
  assert (Hself : set_rdb (Some r') w = set_logger (logger w) (set_rdb (Some r') w))
    by done.
  repeat (match goal with
          | |- context [String.eqb ?a ?b] => destruct (String.eqb_spec a b)
          end; [try (eexists; split; [reflexivity|]; apply Hready)|]).
  - by destruct Hlevel.
  - eexists. split; [reflexivity|]. rewrite Hself. apply Hready.
Qed.

Lemma move_steady (a : Applogs) :
  steady a ->
  exists a',
    processLogs a = Done a'
    /\ steady a'
    /\ same_process (globals a) (globals a')
    /\ eventual a' = eventual a
    /\ cap (logQueue a') = cap (logQueue a)
    /\ (length (buf (logQueue a')) <= length (buf (logQueue a)))%nat.
Proof.
  intros (Hok & Hopen & Hsink & Hsend).
  pose proof Hok as (Hlen & Hpark & Hret).
  unfold processLogs. destruct (consumer a) as [|[e|]|] eqn:Hcons.
  - exists a. unfold steady. auto 10 using same_process_refl.
  - unfold pending in Hsend. rewrite Hcons in Hsend.
    apply Forall_cons in Hsend as [He Hrest].
    destruct (process_entry_ready e (globals a) Hsink He) as (w' & -> & Hsink' & Hsame & Hitems).
    cbn [mbind result_bind]. eexists. split; [reflexivity|].
    split; [|split; [done|split; [|done]]].
    + split; [|split; [done|split; [done|]]].
      * unfold chan_ok. cbn. repeat split; (done || discriminate).
      * unfold pending. cbn. eapply Forall_impl; [exact Hrest|].
        intros x. by apply sendable_same.
    + unfold eventual, pending. cbn [consumer globals logQueue]. rewrite Hcons.
      cbn [fmap list_fmap rev].
      rewrite (process_key_same _ _ Hsame), Hitems.
      rewrite (list_fmap_ext (payload w') (payload (globals a)) (buf (logQueue a)))
        by (intros; by apply payload_same).
      change (payload (globals a) <$> e :: buf (logQueue a))
        with (payload (globals a) e :: (payload (globals a) <$> buf (logQueue a))).
      cbn [rev]. by rewrite <- app_assoc.
  - exists (receive a). split; [done|]. unfold receive, steady, eventual, pending, chan_ok.
    unfold pending in Hsend. rewrite Hcons in Hsend.
    destruct (buf (logQueue a)) as [|e rest] eqn:Hbuf; cbn.
    + rewrite Hopen, ?Hcons. cbn. rewrite ?Hbuf.
      repeat split; try done; try lia; try discriminate.
    + rewrite ?Hcons. cbn in Hlen.
      repeat split; try done; try lia; try discriminate.
  - destruct (Hret eq_refl) as [_ Hc]. congruence.
Qed.

Lemma call_steady (a : Applogs) (e : logEntry) :
  steady a ->
  sendable (globals a) e ->
  (length (buf (logQueue a)) < cap (logQueue a))%nat ->
  exists a',
    logAsync (level e) (message e) (fields e) a = Done a'
    /\ steady a'
    /\ globals a' = globals a
    /\ eventual a' = payload (globals a) e :: eventual a
    /\ cap (logQueue a') = cap (logQueue a)
    /\ (length (buf (logQueue a')) <= S (length (buf (logQueue a))))%nat.
Proof.
  intros (Hok & Hopen & Hsink & Hsend) He Hroom.
  destruct (logAsync_accepts a (level e) (message e) (fields e) Hok Hopen Hroom)
    as (a' & Hcall & Hpend & Hglob & Hcap & Hbuf & Hopen').
  replace (MkLogEntry (level e) (message e) (fields e)) with e in Hpend by (by destruct e).
  exists a'. split; [done|]. split; [|split; [done|split; [|done]]].
  - split; [eauto using chan_ok_logAsync|]. split; [done|]. rewrite Hglob. split; [done|].
    rewrite Hpend. apply Forall_app. split; [done|]. by constructor.
  - unfold eventual. rewrite Hglob, Hpend, fmap_app, rev_app_distr. reflexivity.
Qed.

(** Under any schedule in which the buffer has room for every call, the
    calls all return and the entries reach the list newest first. *)
Lemma run_steady (evs : list event) :
  forall a,
  steady a ->
  Forall (sendable (globals a)) (calls evs) ->
  (length (buf (logQueue a)) + length (calls evs) <= cap (logQueue a))%nat ->
  exists a',
    run evs a = Done a'
    /\ steady a'
    /\ same_process (globals a) (globals a')
    /\ eventual a' = rev (payload (globals a) <$> calls evs) ++ eventual a.
Proof.
  induction evs as [|[e|] evs IH]; intros a Hst Hsend Hroom; cbn [run calls] in *.
  - exists a. auto using same_process_refl.
  - apply Forall_cons in Hsend as [He Hsend]. cbn in Hroom.
    destruct (call_steady a e Hst He) as (a1 & -> & Hst1 & Hglob & Hev & Hcap & Hbuf); [lia|].
    cbn [mbind result_bind].
    destruct (IH a1 Hst1) as (a' & -> & Hst' & Hsame & Hev').
    { by rewrite Hglob. }
    { lia. }
    exists a'. split; [done|]. split; [done|]. rewrite Hglob in Hsame, Hev'.
    split; [done|]. rewrite Hev', Hev. cbn [fmap list_fmap rev].
    change (payload (globals a) <$> e :: calls evs)
      with (payload (globals a) e :: (payload (globals a) <$> calls evs)).
    cbn [rev]. by rewrite <- app_assoc.
  - destruct (move_steady a Hst) as (a1 & -> & Hst1 & Hsame1 & Hev & Hcap & Hbuf).
    cbn [mbind result_bind].
    destruct (IH a1 Hst1) as (a' & -> & Hst' & Hsame & Hev').
    { eapply Forall_impl; [exact Hsend|]. intros x. by apply sendable_same. }
    { lia. }
    exists a'. split; [done|]. split; [done|].
    split; [eauto using same_process_trans|]. rewrite Hev', Hev.
    by rewrite (list_fmap_ext (payload (globals a1)) (payload (globals a)) (calls evs))
      by (intros; by apply payload_same).
Qed.

Lemma drain_steady (fuel : nat) :
  forall a,
  steady a ->
  (moves_left a <= fuel)%nat ->
  exists a',
    drain fuel a = Done a'
    /\ consumer a' = Parked
    /\ pending a' = []
    /\ same_process (globals a) (globals a')
    /\ eventual a' = eventual a.
Proof.
  induction fuel as [|fuel IH]; intros a Hst Hfuel.
  - pose proof Hst as ((_ & Hpark & Hret) & Hopen & _).
    unfold moves_left in Hfuel. cbn [drain].
    destruct (consumer a) as [|[e|]|] eqn:Hcons; try lia.
    + exists a. unfold pending. rewrite Hcons. destruct (Hpark eq_refl) as [-> _].
      auto using same_process_refl.
    + destruct (Hret eq_refl) as [_ Hc]. congruence.
  - pose proof Hst as ((_ & Hpark & Hret) & Hopen & _).
    cbn [drain]. destruct (consumer a) as [|cur|] eqn:Hcons.
    + exists a. unfold pending. rewrite Hcons. destruct (Hpark eq_refl) as [-> _].
      auto using same_process_refl.
    + destruct (move_steady a Hst) as (a1 & Hmove & Hst1 & Hsame1 & Hev & Hcap & Hbuf).
      rewrite Hmove. cbn [mbind result_bind].
      destruct (IH a1 Hst1) as (a' & -> & Hp & Hpend & Hsame & Hev').
      { revert Hmove Hfuel. unfold processLogs, moves_left. rewrite Hcons.
        destruct cur as [e|].
        - destruct (process_entry e (globals a)); cbn; try discriminate.
          intros [= <-]. cbn. lia.
        - intros [= <-]. unfold receive.
          destruct (buf (logQueue a)) as [|e rest]; cbn; [|lia].
          destruct (closed (logQueue a)); cbn; lia. }
      exists a'. split; [done|]. split; [done|]. split; [done|].
      split; [eauto using same_process_trans|congruence].
    + destruct (Hret eq_refl) as [_ Hc]. congruence.
Qed.

Lemma steady_NewLogger (queueSize : Z) (w : world) (a : Applogs) :
  sink_ready w -> NewLogger queueSize w = Done a -> steady a.
Proof.
  intros Hsink Hnew. split; [eauto using chan_ok_NewLogger|].
  revert Hnew. unfold NewLogger. destruct (queueSize <? 0); [discriminate|].
  intros [= <-]. cbn. split; [done|]. split; [done|]. constructor.
Qed.

(** X1: From a fresh logger with a queue large enough for the calls, under any
    schedule: every call returns, the dispatcher empties the queue and
    blocks, and the list at the key of the process then holds the payloads
    of the calls, last call first, in front of what it held. *)
Theorem sink_list_newest_first (queueSize : Z) (w : world) (evs : list event) :
  sink_ready w ->
  Forall (sendable w) (calls evs) ->
  (Z.of_nat (length (calls evs)) <= queueSize)%Z ->
  exists a a1,
    NewLogger queueSize w = Done a
    /\ run evs a = Done a1
    /\ forall fuel, (moves_left a1 <= fuel)%nat ->
       exists a2,
         drain fuel a1 = Done a2
         /\ consumer a2 = Parked
         /\ buf (logQueue a2) = []
         /\ sink_items (process_key w) (globals a2)
            = rev (payload w <$> calls evs) ++ sink_items (process_key w) w.
Proof.
  intros Hsink Hsend Hsize.
  assert (Hnew : NewLogger queueSize w
                 = Done (MkApplogs (MkChan [] (Z.to_nat queueSize) false) (Running None) w)).
  { unfold NewLogger. destruct (Z.ltb_spec queueSize 0); [lia|done]. }
  pose proof (steady_NewLogger _ _ _ Hsink Hnew) as Hst.
  destruct (run_steady evs _ Hst) as (a1 & Hrun & Hst1 & Hsame1 & Hev1); [done|cbn; lia|].
  eexists _, a1. split; [exact Hnew|]. split; [exact Hrun|].
  intros fuel Hfuel.
  destruct (drain_steady fuel a1 Hst1 Hfuel) as (a2 & Hdrain & Hp & Hpend & Hsame2 & Hev2).
  exists a2. split; [done|]. split; [done|]. split.
  { unfold pending in Hpend. by rewrite Hp in Hpend. }
  cbn in Hsame1, Hev1.
  assert (Hsame : same_process w (globals a2)) by eauto using same_process_trans.
  unfold eventual in Hev2 at 1. rewrite Hpend in Hev2. cbn in Hev2.
  rewrite (process_key_same _ _ Hsame) in Hev2. rewrite Hev2, Hev1.
  unfold eventual, pending. cbn. done.
Qed.

End sink_order.

(** The three calls of the scenario under another schedule, the dispatcher
    moving between the calls: the same list. *)
Example other_schedule_same_list :
  exists a1 a2,
    (a ← NewLogger 10 Scenario.w0;
     run (H := JsonRef.codec)
         [Call (MkLogEntry "info" "a" None); Move; Move; Move;
          Call (MkLogEntry "warn" "b" None); Call (MkLogEntry "error" "c" None); Move] a)
      = Done a1
    /\ drain (H := JsonRef.codec) 8 a1 = Done a2
    /\ consumer a2 = Parked
    /\ Scenario.decoded_field "message"
         <$> Scenario.sink_list "applogs:fac:worker:svc:i-1" a2
       = [Some (VString "c"); Some (VString "b"); Some (VString "a")].
Proof.
  do 2 eexists. split; [vm_compute; reflexivity|]. split; [vm_compute; reflexivity|].
  split; vm_compute; reflexivity.
Qed.

(** ** Further properties of the queue *)

Section queue_extras.
Context `{Json}.

Lemma cap_logAsync (l m : string) (f : option (list (string * any))) (a a' : Applogs) :
  logAsync l m f a = Done a' -> cap (logQueue a') = cap (logQueue a).
Proof.
  unfold logAsync. destruct (closed (logQueue a)); [discriminate|].
  destruct (consumer a); [by intros [= <-]| |];
    destruct (length (buf (logQueue a)) <? cap (logQueue a))%nat; by intros [= <-].
Qed.

Lemma cap_processLogs (a a' : Applogs) :
  processLogs a = Done a' -> cap (logQueue a') = cap (logQueue a).
Proof.
  unfold processLogs. destruct (consumer a) as [|[e|]|]; try by intros [= <-].
  - destruct (process_entry e (globals a)); cbn; try discriminate. by intros [= <-].
  - intros [= <-]. unfold receive. by destruct (buf (logQueue a)).
Qed.

Lemma cap_StopLogger (a a' : Applogs) :
  StopLogger a = Done a' -> cap (logQueue a') = cap (logQueue a).
Proof.
  unfold StopLogger. destruct (closed (logQueue a)); [discriminate|]. by intros [= <-].
Qed.

(** X2: from [NewLogger] on, whatever the producers, the dispatcher and
    [StopLogger] do and in whatever order, the queue never holds more
    entries than the size it was made with, its capacity never changes, and
    a dispatcher blocked in its receive means an empty, open queue. *)
Theorem queue_never_exceeds_capacity (queueSize : Z) (w : world) (acts : list action)
    (a a' : Applogs) :
  NewLogger queueSize w = Done a ->
  perform acts a = Done a' ->
  (length (buf (logQueue a')) <= Z.to_nat queueSize)%nat
  /\ cap (logQueue a') = Z.to_nat queueSize
  /\ chan_ok a'.
Proof.
  intros Hnew Hrun.
  assert (Hinv : chan_ok a /\ cap (logQueue a) = Z.to_nat queueSize).
  { split; [eauto using chan_ok_NewLogger|].
    revert Hnew. unfold NewLogger. destruct (queueSize <? 0); [discriminate|].
    by intros [= <-]. }
  clear Hnew. revert a Hinv Hrun.
  induction acts as [|[e| |] acts IH]; intros a [Hok Hcap]; cbn [perform].
  - intros [= <-]. destruct Hok as (Hlen & ?). rewrite <- Hcap. done.
  - destruct (logAsync (level e) (message e) (fields e) a) as [a1| |] eqn:Hcall;
      cbn; try discriminate.
    apply IH. split; [eauto using chan_ok_logAsync|].
    by rewrite (cap_logAsync _ _ _ _ _ Hcall).
  - destruct (processLogs a) as [a1| |] eqn:Hmove; cbn; try discriminate.
    apply IH. split; [eauto using chan_ok_processLogs|].
    by rewrite (cap_processLogs _ _ Hmove).
  - destruct (StopLogger a) as [a1| |] eqn:Hstop; cbn; try discriminate.
    apply IH. split; [eauto using chan_ok_StopLogger|].
    by rewrite (cap_StopLogger _ _ Hstop).
Qed.

End queue_extras.

(** ** The routing key and the spool names *)

Lemma colon_split (a a' r r' : string) :
  no_colon a = true -> no_colon a' = true ->
  a +:+ ":" +:+ r = a' +:+ ":" +:+ r' -> a = a' /\ r = r'.
Proof.
  revert a'. induction a as [|c a IH]; intros [|c' a'] Ha Ha' Heq.
  - change (String ":" r = String ":" r') in Heq. by injection Heq as ->.
  - change (String ":" r = String c' (a' +:+ ":" +:+ r')) in Heq.
    injection Heq as <- _. by cbn in Ha'.
  - change (String c (a +:+ ":" +:+ r) = String ":" r') in Heq.
    injection Heq as -> _. by cbn in Ha.
  - change (String c (a +:+ ":" +:+ r) = String c' (a' +:+ ":" +:+ r')) in Heq.
    cbn in Ha, Ha'.
    apply andb_true_iff in Ha as [_ Ha]. apply andb_true_iff in Ha' as [_ Ha'].
    injection Heq as -> Hrest. destruct (IH a' Ha Ha' Hrest) as [-> ->]. done.
Qed.

Section key_extras.
Context `{Json}.

(** X3: records whose first three identity fields hold no colon get the
    same sink key only when their four identity fields are equal; with a
    colon inside a field two different identities share one key. *)
Theorem batch_key_separates_identities :
  (forall (d d' : gmap string any) (f t s i f' t' s' i' : string),
     identity d = Some (f, t, s, i) ->
     identity d' = Some (f', t', s', i') ->
     no_colon f = true -> no_colon t = true -> no_colon s = true ->
     no_colon f' = true -> no_colon t' = true -> no_colon s' = true ->
     batch_key d = batch_key d' ->
     (f, t, s, i) = (f', t', s', i'))
  /\ (exists d d' : gmap string any,
        identity d <> identity d' /\ is_Some (batch_key d) /\ batch_key d = batch_key d').
Proof.
  split.
  - intros d d' f t s i f' t' s' i' Hd Hd' Hf Ht Hs Hf' Ht' Hs'.
    rewrite !batch_key_identity, Hd, Hd'. cbn. unfold spec_RoutingKey.
    intros [= Hkey].
    apply colon_split in Hkey as [-> Hkey]; [|done..].
    apply colon_split in Hkey as [-> Hkey]; [|done..].
    apply colon_split in Hkey as [-> ->]; done.
  - exists (list_to_map [("facility_id", VString "a:b"); ("instance_type", VString "c");
                         ("service_name", VString "s"); ("instance_id", VString "i")]),
           (list_to_map [("facility_id", VString "a"); ("instance_type", VString "b:c");
                         ("service_name", VString "s"); ("instance_id", VString "i")]).
    split; [|split].
    + vm_compute. discriminate.
    + eexists. vm_compute. reflexivity.
    + vm_compute. reflexivity.
Qed.

End key_extras.

Lemma prefix_nil (s : string) : String.prefix EmptyString s = true.
Proof. by destruct s. Qed.

Lemma Ext_log (p : string) : filepath.Ext (p +:+ ".log") = ".log".
Proof.
  induction p as [|c p IH].
  - reflexivity.
  - change (String c p +:+ ".log") with (String c (p +:+ ".log")).
    cbn [filepath.Ext]. rewrite IH. reflexivity.
Qed.

Lemma Ext_log_after (pre p : string) : filepath.Ext (pre +:+ p +:+ ".log") = ".log".
Proof.
  induction pre as [|c pre IH].
  - apply Ext_log.
  - change (String c pre +:+ p +:+ ".log") with (String c (pre +:+ p +:+ ".log")).
    cbn [filepath.Ext]. rewrite IH. reflexivity.
Qed.

Lemma is_fallback_name_spool (stamp : string) :
  is_fallback_name ("fallback_" +:+ stamp +:+ ".log") = true.
Proof.
  unfold is_fallback_name, strings.HasPrefix. rewrite Ext_log_after. cbn. apply prefix_nil.
Qed.

Section naming_extras.
Context `{Json}.

(** X4: when the spool file opens, the fallback store creates or extends
    exactly one file of the directory, and the name of that file is one
    the recovery scanner selects. *)
Theorem logToFallback_writes_a_spool_name (logData : gmap string any) (w : world) :
  Open_err (spool w) = None ->
  exists name,
    is_fallback_name name = true
    /\ is_Some (files (spool (logToFallback logData w)) !! name)
    /\ forall q, q <> name ->
         files (spool (logToFallback logData w)) !! q = files (spool w) !! q.
Proof.
  intros Ho. exists ("fallback_" +:+ Format_20060102150405 (clock w) +:+ ".log").
  split; [|split].
  - apply is_fallback_name_spool.
  - unfold logToFallback. rewrite Ho.
    destruct (Write_err (spool w)); cbn; rewrite lookup_insert_eq; eauto.
  - intros q Hq. unfold logToFallback. rewrite Ho.
    destruct (Write_err (spool w)); cbn; by rewrite lookup_insert_ne.
Qed.

End naming_extras.

(** ** Strings *)

Lemma append_nil_r (s : string) : s +:+ EmptyString = s.
Proof.
  induction s as [|c s IH]; [done|].
  change (String c s +:+ EmptyString) with (String c (s +:+ EmptyString)). by rewrite IH.
Qed.

Lemma append_assoc (a b c : string) : (a +:+ b) +:+ c = a +:+ b +:+ c.
Proof.
  induction a as [|x a IH]; [done|].
  change ((String x a +:+ b) +:+ c) with (String x ((a +:+ b) +:+ c)). by rewrite IH.
Qed.

Lemma prefix_iff (sub s : string) :
  String.prefix sub s = true <-> exists post, s = sub +:+ post.
Proof.
  revert s. induction sub as [|c sub IH]; intros s.
  - rewrite prefix_nil. split; [eauto|done].
  - destruct s as [|c' s]; cbn.
    + split; [done|]. by intros [post [=]].
    + destruct (ascii_dec c c') as [->|Hne].
      * rewrite IH. split.
        -- intros [post ->]. by exists post.
        -- intros [post Heq].
           change (String c' sub +:+ post) with (String c' (sub +:+ post)) in Heq.
           injection Heq as ->. by exists post.
      * split; [done|]. intros [post Heq].
        change (String c sub +:+ post) with (String c (sub +:+ post)) in Heq.
        by injection Heq as ->.
Qed.

(** [strings.Contains] holds exactly of the strings in which the substring
    occurs. *)
Lemma Contains_iff (s sub : string) :
  strings.Contains s sub = true <-> exists pre post, s = pre +:+ sub +:+ post.
Proof.
  induction s as [|c s IH]; cbn [strings.Contains].
  - rewrite orb_false_r, prefix_iff. split.
    + intros [post Heq]. by exists EmptyString, post.
    + intros (pre & post & Heq). destruct pre as [|x pre]; [by exists post|].
      by change (String x pre +:+ sub +:+ post) with (String x (pre +:+ sub +:+ post)) in Heq.
  - rewrite orb_true_iff, prefix_iff, IH. split.
    + intros [[post Heq]|(pre & post & Heq)].
      * by exists EmptyString, post.
      * exists (String c pre), post. by rewrite Heq.
    + intros (pre & post & Heq). destruct pre as [|x pre].
      * left. by exists post.
      * right. exists pre, post.
        change (String x pre +:+ sub +:+ post) with (String x (pre +:+ sub +:+ post)) in Heq.
        by injection Heq as _ ->.
Qed.

Section classify_extras.
Context `{Json}.

(** An error is classified as sink-unavailable exactly when it is (or
    wraps) [ErrRedisUnavailable] or its text holds ["connection refused"]
    somewhere, in this spelling. *)
Theorem isRedisUnavailable_iff (err : error) :
  isRedisUnavailable err = true
  <-> is_ErrRedisUnavailable err = true
      \/ exists pre post, error_text err = pre +:+ "connection refused" +:+ post.
Proof. unfold isRedisUnavailable. by rewrite orb_true_iff, Contains_iff. Qed.

Lemma queue_batch_panics (logs : list (gmap string any)) :
  forall (pipe : Pipeline) (w : world),
  Exists (fun logData => batch_key logData = None) logs ->
  queue_batch logs pipe w = Panic "interface conversion: interface {} is not string".
Proof.
  induction logs as [|logData logs IH]; intros pipe w Hex; [by apply Exists_nil in Hex|].
  cbn [queue_batch]. destruct (batch_key logData) as [key|] eqn:Hkey; [|done].
  apply Exists_cons in Hex as [Hhead|Htail]; [congruence|].
  destruct (json_Marshal logData); by apply IH.
Qed.

(** X5: with a client set, [pushBatchToRedis] returns, with the error the
    grouped write reports, when every record holds the four identity
    fields as strings; when one record does not, it panics while it
    builds the pipeline, whatever the other records and the sink are. *)
Theorem pushBatchToRedis_returns_or_panics (logs : list (gmap string any)) (w : world)
    (r : redis) :
  rdb w = Some r ->
  (Forall (fun logData => is_Some (batch_key logData)) logs
   /\ exists w', pushBatchToRedis logs w = Done (w', batch_error r logs))
  \/ (Exists (fun logData => batch_key logData = None) logs
      /\ pushBatchToRedis logs w = Panic "interface conversion: interface {} is not string").
Proof.
  intros Hr.
  destruct (decide (Forall (fun logData => is_Some (batch_key logData)) logs)) as [Hall|Hnot].
  - left. eauto using pushBatchToRedis_total.
  - right. apply not_Forall_Exists in Hnot; [|apply _].
    assert (Hex : Exists (fun logData => batch_key logData = None) logs).
    { eapply Exists_impl; [exact Hnot|]. intros d Hd. cbn in Hd.
      destruct (batch_key d); [|done]. by destruct Hd. }
    split; [done|]. unfold pushBatchToRedis. rewrite Hr.
    by rewrite (queue_batch_panics logs [] w Hex).
Qed.

End classify_extras.

(** ** What the dispatcher and the scanner leave alone *)

Section frame_extras.
Context `{Json}.

Lemma redis_LPush_only_adds (r r' : redis) (key data : string) (e : option error) :
  redis_LPush r key data = (r', e) ->
  fault r' = fault r
  /\ forall k, exists more, items_at r' k = more ++ items_at r k.
Proof.
  unfold redis_LPush. destruct (fault r) as [f|] eqn:Hf.
  { intros [= <- _]. split; [done|]. intros k. by exists []. }
  destruct (db r !! key) as [[items|s]|] eqn:Hkey; intros [= <- _]; (split; [done|]);
    intros k; unfold items_at; cbn;
    (destruct (decide (key = k)) as [<-|Hne];
     [rewrite ?lookup_insert_eq, ?Hkey|rewrite ?lookup_insert_ne by done]).
  - by exists [data].
  - by exists [].
  - by exists [].
  - by exists [].
  - by exists [data].
  - by exists [].
Qed.

Lemma logToFallback_only_adds (logData : gmap string any) (w : world) :
  same_process w (logToFallback logData w)
  /\ fallbackPath (logToFallback logData w) = fallbackPath w
  /\ rdb (logToFallback logData w) = rdb w
  /\ (exists more, logger (logToFallback logData w) = logger w ++ more)
  /\ (forall q content, files (spool w) !! q = Some content ->
        exists more, files (spool (logToFallback logData w)) !! q = Some (content +:+ more)).
Proof.
  unfold logToFallback. destruct (Open_err (spool w)) as [err|].
  { repeat split; [by eexists|]. intros q content Hq. exists EmptyString.
    by rewrite append_nil_r. }
  set (name := "fallback_" +:+ _).
  assert (Hfiles : forall tail q content,
            files (spool w) !! q = Some content ->
            exists more,
              <[name := default EmptyString (files (spool w) !! name) +:+ tail]>
                (files (spool w)) !! q = Some (content +:+ more)).
  { intros tail q content Hq. destruct (decide (name = q)) as [<-|Hne].
    - rewrite lookup_insert_eq, Hq. by exists tail.
    - rewrite lookup_insert_ne by done. exists EmptyString. by rewrite append_nil_r. }
  destruct (Write_err (spool w)); cbn.
  - repeat split; [exists []; by rewrite app_nil_r|]. intros q content Hq.
    destruct (Hfiles EmptyString q content Hq) as [more Hmore].
    rewrite append_nil_r in Hmore. eauto.
  - repeat split; [exists []; by rewrite app_nil_r|]. intros q content Hq. eauto.
Qed.

(** X6: whatever happens to an entry the dispatcher processes and returns
    from (sent, spooled or dropped), the step only adds: identity fields,
    clock and fallback path are unchanged, the structured log is extended,
    every list of the sink keeps its items behind any new one, and every
    file of the spool directory keeps its content in front of any new
    line. *)
Theorem process_entry_only_adds (e : logEntry) (w w' : world) :
  process_entry e w = Done w' ->
  same_process w w'
  /\ fallbackPath w' = fallbackPath w
  /\ (exists more, logger w' = logger w ++ more)
  /\ (forall r, rdb w = Some r ->
        exists r', rdb w' = Some r' /\ fault r' = fault r
                   /\ forall k, exists more, items_at r' k = more ++ items_at r k)
  /\ (forall q content, files (spool w) !! q = Some content ->
        exists more, files (spool w') !! q = Some (content +:+ more)).
Proof.
  unfold process_entry.
  destruct (LogToRedis (level e) (message e) (fields e) w) as [w1| |] eqn:Hsend;
    cbn [mbind result_bind]; try discriminate.
  assert (Hw1 : same_process w w1
                /\ fallbackPath w1 = fallbackPath w
                /\ (exists more, logger w1 = logger w ++ more)
                /\ (forall r, rdb w = Some r ->
                      exists r', rdb w1 = Some r' /\ fault r' = fault r
                                 /\ forall k, exists more, items_at r' k = more ++ items_at r k)
                /\ (forall q content, files (spool w) !! q = Some content ->
                      exists more, files (spool w1) !! q = Some (content +:+ more))).
  { revert Hsend. unfold LogToRedis.
    destruct (json_Marshal _) as [err|data].
    { intros [= <-]. repeat split; [by eexists| |].
      - intros r Hr. exists r. repeat split; [done|]. intros k. by exists [].
      - intros q content Hq. exists EmptyString. by rewrite append_nil_r. }
    destruct (rdb w) as [r|] eqn:Hr; [|discriminate].
    destruct (redis_LPush r _ data) as [r' err] eqn:Hpush.
    destruct (redis_LPush_only_adds _ _ _ _ _ Hpush) as [Hfault Hitems].
    destruct err as [err|]; [destruct (isRedisUnavailable err)|]; intros [= <-].
    - destruct (logToFallback_only_adds
                  (logData_of (level e) (message e) (fields e) w)
                  (zap_log WarnLevel "Redis unavailable, saving to fallback" [zap_Error err]
                     (set_rdb (Some r') w)))
        as (Hsame & Hpath & Hrdb & [more Hlog] & Hfiles).
      repeat split; try apply Hsame; [done| | |].
      + rewrite Hlog. unfold zap_log. cbn [logger set_logger]. rewrite <- app_assoc. by eexists.
      + intros r0 [= <-]. exists r'. by rewrite Hrdb.
      + intros q content Hq. by apply Hfiles.
    - repeat split; [by eexists| |].
      + intros r0 [= <-]. by exists r'.
      + intros q content Hq. exists EmptyString. by rewrite append_nil_r.
    - repeat split; [exists []; by rewrite app_nil_r| |].
      + intros r0 [= <-]. by exists r'.
      + intros q content Hq. exists EmptyString. by rewrite append_nil_r. }
  destruct Hw1 as (Hsame & Hpath & [more Hlog] & Hsink & Hfiles).
  assert (Hmirror : forall lvl,
            Done (zap_log lvl (message e)
                    [zap_Any "metadata" (fields_value (fields e))] w1) = Done w' ->
            same_process w w' /\ fallbackPath w' = fallbackPath w
            /\ (exists more, logger w' = logger w ++ more)
            /\ (forall r, rdb w = Some r ->
                  exists r', rdb w' = Some r' /\ fault r' = fault r
                             /\ forall k, exists more, items_at r' k = more ++ items_at r k)
            /\ (forall q content, files (spool w) !! q = Some content ->
                  exists more, files (spool w') !! q = Some (content +:+ more))).
  { intros lvl [= <-]. repeat split; try apply Hsame; [done| |done|done].
    cbn. rewrite Hlog, <- app_assoc. by eexists. }
  repeat (match goal with
          | |- context [String.eqb ?a ?b] => destruct (String.eqb a b)
          end; [by (apply Hmirror || discriminate)|]).
  intros [= <-]. repeat split; try apply Hsame; eauto.
Qed.

Lemma recover_entry_other_files (name q : string) (w w' : world) :
  is_fallback_name q = false ->
  (forall p, q <> p +:+ ".corrupt") ->
  recover_entry name w = Done w' ->
  files (spool w') !! q = files (spool w) !! q.
Proof.
  intros Hq Hnc Hdone.
  destruct (recover_entry_spool name w w' Hdone) as [->|[Hname [->| ->]]]; [done| |].
  - cbn. rewrite lookup_delete_ne; [done|]. intros ->. congruence.
  - unfold os_Rename. destruct (files (spool w) !! name) as [content|]; [|done]. cbn.
    rewrite lookup_insert_ne by (intros Heq; by apply (Hnc name)).
    rewrite lookup_delete_ne; [done|]. intros ->. congruence.
Qed.

(** X7: over any number of recovery cycles, a file of the directory whose
    name neither matches the spool convention nor ends in [.corrupt] keeps
    its content: the scanner reads, removes and renames spool files only. *)
Theorem recovery_leaves_other_files (n : nat) (q : string) (w w' : world) :
  is_fallback_name q = false ->
  (forall p, q <> p +:+ ".corrupt") ->
  cycles n w = Done w' ->
  files (spool w') !! q = files (spool w) !! q.
Proof.
  intros Hq Hnc. revert w. induction n as [|n IH]; intros w; cbn.
  - by intros [= <-].
  - destruct (recoverFallbackLogs w) as [w1| |] eqn:Hcycle; cbn; try discriminate.
    intros Hrest. rewrite (IH w1 Hrest). clear Hrest IH.
    revert Hcycle. unfold recoverFallbackLogs.
    destruct (rdb w); [|by intros [= <-]].
    destruct (os_ReadDir (spool w)) as [err|names]; [by intros [= <-]|].
    clear -Hq Hnc. revert w. induction names as [|name names IH]; intros w; cbn.
    + by intros [= <-].
    + destruct (recover_entry name w) as [w2| |] eqn:Hstep; cbn; try discriminate.
      intros Hrest. rewrite (IH w2 Hrest).
      eauto using recover_entry_other_files.
Qed.

End frame_extras.

(** ** From the fallback store back to the sink *)

Lemma scan_one_line (data : string) :
  forall (cur : list ascii) (n : N),
  no_newline data = true ->
  (n + N.of_nat (String.length data) < bufio.MaxScanTokenSize)%N ->
  bufio.scan (data +:+ newline) cur n
    = ([bufio.token (rev (list_ascii_of_string data) ++ cur)], false).
Proof.
  induction data as [|c data IH]; intros cur n Hnl Hlen.
  - reflexivity.
  - change (String c data +:+ newline) with (String c (data +:+ newline)).
    cbn [no_newline] in Hnl. apply andb_true_iff in Hnl as [Hc Hnl].
    apply negb_true_iff in Hc. cbn [bufio.scan]. rewrite Hc.
    cbn [String.length] in Hlen.
    assert (Hfit : (bufio.MaxScanTokenSize <=? N.succ n)%N = false).
    { apply N.leb_gt. lia. }
    rewrite Hfit, IH by (done || lia).
    cbn [list_ascii_of_string rev]. by rewrite <- app_assoc.
Qed.

Lemma ScanLines_safe_line (data : string) :
  line_safe data = true -> bufio.ScanLines (data +:+ newline) = ([data], false).
Proof.
  unfold line_safe. rewrite !andb_true_iff, !negb_true_iff, N.ltb_lt.
  intros [[[Hnl Hcr] _] Hlen]. unfold bufio.ScanLines.
  rewrite scan_one_line by (done || lia). rewrite app_nil_r.
  unfold bufio.token, bufio.dropCR. unfold last_is_CR in Hcr.
  destruct (rev (list_ascii_of_string data)) as [|c l] eqn:Hrev.
  - apply (f_equal (@rev ascii)) in Hrev. rewrite rev_involutive in Hrev. cbn in Hrev.
    rewrite <- (string_of_list_ascii_of_string data), Hrev. reflexivity.
  - rewrite Hcr, <- Hrev, rev_involutive, string_of_list_ascii_of_string. reflexivity.
Qed.

Section replay_extras.
Context `{Json}.

(** X8: an entry that went to the fallback store while the sink refused
    connections is delivered by the recovery scanner once the sink takes
    commands again: the record decoded from the spooled line lands at the
    head of the list at its key, and the spool file is removed. *)
Theorem spooled_entry_is_replayed (w : world) (l m : string)
    (f : option (list (string * any))) (r r2 : redis) (e : error)
    (data data' key : string) (logData' : gmap string any) :
  rdb w = Some r ->
  fault r = Some e ->
  isRedisUnavailable e = true ->
  Open_err (spool w) = None ->
  Write_err (spool w) = None ->
  files (spool w) !! ("fallback_" +:+ Format_20060102150405 (clock w) +:+ ".log") = None ->
  json_Marshal (logData_of l m f w) = inr data ->
  line_safe data = true ->
  json_Unmarshal data = inr logData' ->
  batch_key logData' = Some key ->
  json_Marshal logData' = inr data' ->
  fault r2 = None ->
  (forall s, db r2 !! key <> Some (RString s)) ->
  exists w1 w2 r2',
    LogToRedis l m f w = Done w1
    /\ files (spool w1) !! ("fallback_" +:+ Format_20060102150405 (clock w) +:+ ".log")
       = Some (data +:+ newline)
    /\ recover_entry ("fallback_" +:+ Format_20060102150405 (clock w) +:+ ".log")
         (set_rdb (Some r2) w1) = Done w2
    /\ rdb w2 = Some r2'
    /\ items_at r2' key = data' :: items_at r2 key
    /\ files (spool w2) !! ("fallback_" +:+ Format_20060102150405 (clock w) +:+ ".log") = None.
Proof.
  intros Hr Hf Hclass Ho Hwr Hfresh Hm Hsafe Hun Hkey Hm' Hf2 Hk2.
  set (name := "fallback_" +:+ Format_20060102150405 (clock w) +:+ ".log") in *.
  assert (Hsend : LogToRedis l m f w
                  = Done (logToFallback (logData_of l m f w)
                            (zap_log WarnLevel "Redis unavailable, saving to fallback"
                               [zap_Error e] w))).
  { unfold LogToRedis. rewrite Hm, Hr. unfold redis_LPush. rewrite Hf, Hclass.
    by replace (set_rdb (Some r) w) with w
      by (destruct w; unfold set_rdb; cbn in *; by subst). }
  set (w1 := logToFallback _ _) in Hsend.
  assert (Hfile : files (spool w1) !! name = Some (data +:+ newline)).
  { unfold w1, logToFallback. cbn [spool zap_log set_logger clock].
    rewrite Ho, Hwr, Hm. fold name. rewrite Hfresh. cbn. by rewrite lookup_insert_eq. }
  assert (Hopen : os_Open (spool (set_rdb (Some r2) w1)) name = inr (data +:+ newline)).
  { unfold os_Open. cbn [spool set_rdb].
    replace (Open_err (spool w1)) with (@None error).
    - by rewrite Hfile.
    - unfold w1, logToFallback. cbn [spool zap_log set_logger]. by rewrite Ho, Hwr. }
  assert (Hnonempty : (String.length data =? 0)%nat = false).
  { revert Hsafe. unfold line_safe. rewrite !andb_true_iff, !negb_true_iff. tauto. }
  assert (Hlines : (bufio.ScanLines (data +:+ newline)).1 = [data])
    by (by rewrite ScanLines_safe_line).
  assert (Hdec : decoded (bufio.ScanLines (data +:+ newline)).1 = [logData']).
  { rewrite Hlines. cbn. by rewrite Hnonempty, Hun. }
  assert (Hgood : existsb malformed (bufio.ScanLines (data +:+ newline)).1 = false).
  { rewrite Hlines. cbn. unfold malformed. by rewrite Hun, andb_false_r. }
  destruct (recover_file_total (set_rdb (Some r2) w1) r2 name (data +:+ newline) eq_refl Hopen)
    as [w2 Hw2].
  { rewrite Hdec. repeat constructor. by rewrite Hkey. }
  destruct (recover_file_Done (set_rdb (Some r2) w1) w2 r2 name _ eq_refl Hopen Hw2)
    as [Hfiles Hrdb].
  rewrite Hgood, Hdec in Hfiles. rewrite Hdec in Hrdb.
  assert (Hexec : pipe_Exec r2 (cmds_of [logData'])
                  = (MkRedis (<[key := RList (data' :: items_at r2 key)]> (db r2)) None,
                     [None], None)).
  { unfold cmds_of, cmd_of. cbn. rewrite Hkey, Hm'. cbn. unfold redis_LPush, items_at.
    rewrite Hf2. destruct (db r2 !! key) as [[items|s]|] eqn:Hlook; try done.
    by destruct (Hk2 s). }
  unfold batch_error in Hfiles. rewrite Hexec in Hfiles, Hrdb. cbn in Hfiles, Hrdb.
  exists w1, w2, (MkRedis (<[key := RList (data' :: items_at r2 key)]> (db r2)) None).
  split; [done|]. split; [done|]. split.
  { unfold recover_entry. unfold name at 1. by rewrite is_fallback_name_spool. }
  split; [done|]. split.
  - unfold items_at at 1. cbn. by rewrite lookup_insert_eq.
  - rewrite Hfiles. apply lookup_delete_eq.
Qed.

End replay_extras.

(** ** A recovery cycle that empties the spool directory *)

Lemma redis_LPush_lists_only (r : redis) (key data : string) :
  lists_only r ->
  (redis_LPush r key data).2 = None /\ lists_only (redis_LPush r key data).1.
Proof.
  intros [Hf Hk]. unfold redis_LPush. rewrite Hf.
  destruct (db r !! key) as [[items|s]|] eqn:Hkey; cbn.
  - split; [done|]. split; [done|]. intros k s. cbn.
    destruct (decide (key = k)) as [<-|Hne];
      [by rewrite lookup_insert_eq|rewrite lookup_insert_ne by done; apply Hk].
  - by destruct (Hk key s).
  - split; [done|]. split; [done|]. intros k s. cbn.
    destruct (decide (key = k)) as [<-|Hne];
      [by rewrite lookup_insert_eq|rewrite lookup_insert_ne by done; apply Hk].
Qed.

Lemma run_cmds_lists_only (cmds : Pipeline) :
  forall r, lists_only r ->
  first_error (run_cmds r cmds).2 = None /\ lists_only (run_cmds r cmds).1.
Proof.
  induction cmds as [|[key data] cmds IH]; intros r Hr; cbn; [done|].
  destruct (redis_LPush_lists_only r key data Hr) as [He Hr1].
  destruct (redis_LPush r key data) as [r1 e]. cbn in He, Hr1. subst e.
  destruct (IH r1 Hr1) as [Hes Hr2].
  destruct (run_cmds r1 cmds) as [r2 es]. done.
Qed.

Lemma pipe_Exec_lists_only (r : redis) (cmds : Pipeline) :
  lists_only r -> (pipe_Exec r cmds).2 = None /\ lists_only (pipe_Exec r cmds).1.1.
Proof.
  intros Hr. destruct cmds as [|c cmds]; [done|].
  unfold pipe_Exec. destruct (run_cmds_lists_only (c :: cmds) r Hr) as [Hes Hr'].
  by destruct (run_cmds r (c :: cmds)) as [r' es].
Qed.

Section drain_spool_extras.
Context `{Json}.

Lemma recover_entry_faults (name : string) (w w' : world) :
  recover_entry name w = Done w' ->
  Open_err (spool w') = Open_err (spool w)
  /\ ReadDir_err (spool w') = ReadDir_err (spool w).
Proof.
  intros Hdone.
  destruct (recover_entry_spool name w w' Hdone) as [->|[_ [->| ->]]]; [done|done|].
  unfold os_Rename. by destruct (files (spool w) !! name).
Qed.

Lemma recover_file_replayable (w : world) (r : redis) (name content : string) :
  rdb w = Some r ->
  lists_only r ->
  os_Open (spool w) name = inr content ->
  replayable content ->
  exists w' r',
    recover_file name w = Done w'
    /\ rdb w' = Some r'
    /\ lists_only r'
    /\ files (spool w') = delete name (files (spool w)).
Proof.
  intros Hr Hlists Hopen [Hgood Hkeyed].
  destruct (recover_file_total w r name content Hr Hopen Hkeyed) as [w' Hw'].
  destruct (recover_file_Done w w' r name content Hr Hopen Hw') as [Hfiles Hrdb].
  destruct (pipe_Exec_lists_only r (cmds_of (decoded (bufio.ScanLines content).1)) Hlists)
    as [Herr Hlists'].
  unfold batch_error in Hfiles. rewrite Hgood, Herr in Hfiles.
  eexists w', _. split; [done|]. split; [exact Hrdb|]. split; [exact Hlists'|exact Hfiles].
Qed.

Lemma recover_entries_replayable (names : list string) :
  forall (w : world) (r : redis),
  rdb w = Some r ->
  lists_only r ->
  Open_err (spool w) = None ->
  (forall name content,
     files (spool w) !! name = Some content -> is_fallback_name name = true ->
     replayable content) ->
  exists w' r',
    recover_entries names w = Done w'
    /\ rdb w' = Some r'
    /\ lists_only r'
    /\ ReadDir_err (spool w') = ReadDir_err (spool w)
    /\ (forall q, q ∈ names -> is_fallback_name q = true -> files (spool w') !! q = None)
    /\ (forall q, q ∉ names \/ is_fallback_name q = false ->
          files (spool w') !! q = files (spool w) !! q).
Proof.
  induction names as [|name names IH]; intros w r Hr Hlists Ho Hclean; cbn [recover_entries].
  { exists w, r. split_and!; try done. intros q Hq. by apply elem_of_nil in Hq. }
  assert (Hstep : exists w1 r1,
            recover_entry name w = Done w1
            /\ rdb w1 = Some r1 /\ lists_only r1
            /\ (is_fallback_name name = true -> files (spool w1) !! name = None)
            /\ (forall q, q <> name \/ is_fallback_name name = false ->
                  files (spool w1) !! q = files (spool w) !! q)).
  { unfold recover_entry. destruct (is_fallback_name name) eqn:Hname.
    - destruct (files (spool w) !! name) as [content|] eqn:Hfile.
      + assert (Hopen : os_Open (spool w) name = inr content)
          by (unfold os_Open; by rewrite Ho, Hfile).
        destruct (recover_file_replayable w r name content Hr Hlists Hopen)
          as (w1 & r1 & Hw1 & Hr1 & Hl1 & Hfiles); [eauto|].
        exists w1, r1. rewrite Hfiles. split_and!; try done.
        * intros _. apply lookup_delete_eq.
        * intros q [Hq|?]; [|done]. by rewrite lookup_delete_ne.
      + unfold recover_file, os_Open. rewrite Ho, Hfile.
        eexists _, r. split_and!; try done.
    - exists w, r. split_and!; try done. }
  destruct Hstep as (w1 & r1 & Hw1 & Hr1 & Hl1 & Hgone & Hkeep).
  destruct (recover_entry_faults name w w1 Hw1) as [Ho1 Hrd1].
  rewrite Hw1. cbn [mbind result_bind].
  destruct (IH w1 r1 Hr1 Hl1) as (w' & r' & Hw' & Hr' & Hl' & Hrd' & Hnone & Hsame).
  { congruence. }
  { intros n content Hn Hmatch. destruct (decide (n = name)) as [->|Hne].
    - rewrite Hgone in Hn; done.
    - rewrite Hkeep in Hn by auto. eauto. }
  exists w', r'. split_and!; try done; [congruence| |].
  - intros q Hq Hmatch. apply elem_of_cons in Hq as [->|Hq]; [|by apply Hnone].
    destruct (decide (name ∈ names)) as [Hin|Hnotin]; [by apply Hnone|].
    rewrite Hsame by auto. by apply Hgone.
  - intros q Hq. rewrite Hsame, Hkeep; [done| |].
    + destruct Hq as [Hq|Hq]; [left; set_solver|].
      destruct (decide (q = name)) as [->|]; auto.
    + destruct Hq as [Hq|Hq]; [left; set_solver|by right].
Qed.

Lemma recover_entries_nothing_to_do (names : list string) (w : world) :
  (forall name, name ∈ names -> is_fallback_name name = false) ->
  recover_entries names w = Done w.
Proof.
  induction names as [|name names IH]; intros Hnames; cbn [recover_entries]; [done|].
  unfold recover_entry at 1. rewrite Hnames by set_solver. cbn [mbind result_bind].
  apply IH. intros n Hn. apply Hnames. set_solver.
Qed.

Lemma os_ReadDir_names (d : disk) (names : list string) (q : string) :
  os_ReadDir d = inr names -> q ∈ names <-> is_Some (files d !! q).
Proof.
  unfold os_ReadDir. destruct (ReadDir_err d); [discriminate|]. intros [= <-].
  rewrite merge_sort_Permutation, list_elem_of_fmap. split.
  - intros [[k v] [-> Hkv]]. apply elem_of_map_to_list in Hkv. eauto.
  - intros [v Hv]. exists (q, v). split; [done|]. by apply elem_of_map_to_list.
Qed.

(** X9: with a sink that takes every append, a directory that can be
    listed and opened, and spool files whose lines all decode to records
    with the four identity strings, a recovery cycle returns and leaves no
    spool file behind, touching no other file; a second cycle then finds
    nothing to do: it changes nothing and writes nothing. *)
Theorem clean_cycle_empties_the_spool (w : world) (r : redis) :
  rdb w = Some r ->
  lists_only r ->
  ReadDir_err (spool w) = None ->
  Open_err (spool w) = None ->
  (forall name content,
     files (spool w) !! name = Some content -> is_fallback_name name = true ->
     replayable content) ->
  exists w',
    recoverFallbackLogs w = Done w'
    /\ (forall q, is_fallback_name q = true -> files (spool w') !! q = None)
    /\ (forall q, is_fallback_name q = false ->
          files (spool w') !! q = files (spool w) !! q)
    /\ recoverFallbackLogs w' = Done w'.
Proof.
  intros Hr Hlists Hrd Ho Hclean.
  destruct (os_ReadDir (spool w)) as [err|names] eqn:Hlist.
  { unfold os_ReadDir in Hlist. by rewrite Hrd in Hlist. }
  destruct (recover_entries_replayable names w r Hr Hlists Ho Hclean)
    as (w' & r' & Hw' & Hr' & Hl' & Hrd' & Hnone & Hsame).
  assert (Hgone : forall q, is_fallback_name q = true -> files (spool w') !! q = None).
  { intros q Hq. destruct (decide (q ∈ names)) as [Hin|Hout]; [by apply Hnone|].
    rewrite Hsame by auto.
    destruct (files (spool w) !! q) eqn:Hfile; [|done].
    destruct Hout. apply (os_ReadDir_names (spool w)); eauto. }
  exists w'. split; [|split; [done|split; [auto|]]].
  - unfold recoverFallbackLogs. by rewrite Hr, Hlist.
  - unfold recoverFallbackLogs. rewrite Hr'.
    destruct (os_ReadDir (spool w')) as [err|names'] eqn:Hlist'.
    { unfold os_ReadDir in Hlist'. rewrite Hrd', Hrd in Hlist'. discriminate. }
    apply recover_entries_nothing_to_do. intros name Hname.
    apply (os_ReadDir_names (spool w') names' name Hlist') in Hname as [content Hfile].
    destruct (is_fallback_name name) eqn:Hmatch; [|done].
    by rewrite Hgone in Hfile.
Qed.

End drain_spool_extras.

(** ** Shutdown and fatal entries *)

Section shutdown_extras.
Context `{Json}.

Lemma move_flowing (a : Applogs) :
  flowing a ->
  exists a',
    processLogs a = Done a'
    /\ flowing a'
    /\ same_process (globals a) (globals a')
    /\ eventual a' = eventual a
    /\ closed (logQueue a') = closed (logQueue a)
    /\ (forall cur, consumer a = Running cur -> (moves_left a' < moves_left a)%nat).
Proof.
  intros (Hok & Hsink & Hsend).
  pose proof Hok as (Hlen & Hpark & Hret).
  unfold processLogs. destruct (consumer a) as [|[e|]|] eqn:Hcons.
  - exists a. unfold flowing. split_and!; try done; auto using same_process_refl.
  - unfold pending in Hsend. rewrite Hcons in Hsend.
    apply Forall_cons in Hsend as [He Hrest].
    destruct (process_entry_ready e (globals a) Hsink He) as (w' & -> & Hsink' & Hsame & Hitems).
    cbn [mbind result_bind]. eexists. split; [reflexivity|].
    unfold flowing. split_and!; try done.
    + unfold pending. cbn. eapply Forall_impl; [exact Hrest|].
      intros x. by apply sendable_same.
    + unfold eventual, pending. cbn [consumer globals logQueue]. rewrite Hcons.
      rewrite (process_key_same _ _ Hsame), Hitems.
      rewrite (list_fmap_ext (payload w') (payload (globals a)) (buf (logQueue a)))
        by (intros; by apply payload_same).
      change (payload (globals a) <$> e :: buf (logQueue a))
        with (payload (globals a) e :: (payload (globals a) <$> buf (logQueue a))).
      cbn [rev]. by rewrite <- app_assoc.
    + intros cur _. unfold moves_left. rewrite Hcons. cbn. lia.
  - exists (receive a). split; [done|].
    unfold pending in Hsend. rewrite Hcons in Hsend.
    unfold receive, flowing, eventual, pending, chan_ok, moves_left. rewrite Hcons.
    destruct (buf (logQueue a)) as [|e rest] eqn:Hbuf; cbn.
    + rewrite ?Hbuf. destruct (closed (logQueue a)) eqn:Hclosed; cbn;
        split_and!; try done; try lia; try discriminate; intros; lia.
    + cbn in Hlen.
      split_and!; try done; try lia; try discriminate; intros; lia.
  - exists a. unfold flowing. split_and!; try done; auto using same_process_refl.
Qed.

Lemma drain_flowing (fuel : nat) :
  forall a,
  flowing a ->
  (moves_left a <= fuel)%nat ->
  exists a',
    drain fuel a = Done a'
    /\ consumer a' = (if closed (logQueue a) then Returned else Parked)
    /\ pending a' = []
    /\ same_process (globals a) (globals a')
    /\ eventual a' = eventual a.
Proof.
  assert (Hrest : forall a, flowing a -> consumer a = Parked \/ consumer a = Returned ->
            consumer a = (if closed (logQueue a) then Returned else Parked)
            /\ pending a = []).
  { intros a ((_ & Hpark & Hret) & _) [Hc|Hc]; unfold pending; rewrite Hc.
    - destruct (Hpark Hc) as [-> ->]. done.
    - destruct (Hret Hc) as [-> ->]. done. }
  induction fuel as [|fuel IH]; intros a Hfl Hfuel.
  - cbn [drain]. unfold moves_left in Hfuel.
    destruct (consumer a) as [|[e|]|] eqn:Hcons; try lia;
      (destruct (Hrest a Hfl) as [Hc Hp]; [auto|]; exists a;
       rewrite <- Hc; auto using same_process_refl).
  - cbn [drain]. destruct (consumer a) as [|cur|] eqn:Hcons.
    + destruct (Hrest a Hfl) as [Hc Hp]; [auto|]. exists a.
      rewrite <- Hc. auto using same_process_refl.
    + destruct (move_flowing a Hfl) as (a1 & Hmove & Hfl1 & Hsame1 & Hev & Hcl & Hless).
      rewrite Hmove. cbn [mbind result_bind].
      specialize (Hless cur Hcons).
      destruct (IH a1 Hfl1) as (a' & -> & Hc & Hp & Hsame & Hev'); [lia|].
      exists a'. rewrite <- Hcl. split_and!; try done;
        [eauto using same_process_trans|congruence].
    + destruct (Hrest a Hfl) as [Hc Hp]; [auto|]. exists a.
      rewrite <- Hc. auto using same_process_refl.
Qed.

(** X10: [StopLogger] on an open queue returns at once; the dispatcher, left
    to run, then sends on every entry that was still pending, in the order
    they were accepted, and returns from its loop: the list at the key of
    the process ends up holding their payloads, last accepted first, in
    front of what it held. *)
Theorem StopLogger_lets_the_queue_drain (a : Applogs) :
  flowing a ->
  closed (logQueue a) = false ->
  exists a1,
    StopLogger a = Done a1
    /\ forall fuel, (moves_left a1 <= fuel)%nat ->
       exists a2,
         drain fuel a1 = Done a2
         /\ consumer a2 = Returned
         /\ buf (logQueue a2) = []
         /\ sink_items (process_key (globals a)) (globals a2)
            = rev (payload (globals a) <$> pending a)
              ++ sink_items (process_key (globals a)) (globals a).
Proof.
  intros (Hok & Hsink & Hsend) Hopen.
  pose proof Hok as (Hlen & Hpark & Hret).
  assert (Hstop : StopLogger a
                  = Done (MkApplogs (MkChan (buf (logQueue a)) (cap (logQueue a)) true)
                            (match consumer a with Parked => Returned | g => g end)
                            (zap_log InfoLevel "Logger stopped gracefully" [] (globals a))))
    by (unfold StopLogger; by rewrite Hopen).
  eexists. split; [exact Hstop|]. set (a1 := MkApplogs _ _ _).
  assert (Hpend : pending a1 = pending a).
  { unfold pending, a1. cbn. destruct (consumer a) as [|[e|]|] eqn:Hc; try done. }
  assert (Hfl1 : flowing a1).
  { split; [eauto using chan_ok_StopLogger|]. split.
    - destruct Hsink as (r & Hr & Hf & Hk). by exists r.
    - rewrite Hpend. done. }
  intros fuel Hfuel.
  destruct (drain_flowing fuel a1 Hfl1 Hfuel) as (a2 & Hdrain & Hc & Hp & Hsame & Hev).
  exists a2. split; [done|]. split; [done|]. split.
  { unfold pending in Hp. rewrite Hc in Hp. done. }
  assert (Hsame' : same_process (globals a) (globals a2)) by done.
  unfold eventual in Hev. rewrite Hp, Hpend in Hev. cbn [fmap list_fmap rev app] in Hev.
  rewrite (process_key_same _ _ Hsame) in Hev.
  change (process_key (globals a1)) with (process_key (globals a)) in Hev.
  rewrite Hev. reflexivity.
Qed.

Lemma process_entry_fatal (e : logEntry) (w : world) :
  is_Some (rdb w) -> level e = "fatal" -> process_entry e w = Exit 1.
Proof.
  intros [r Hr] Hlevel. unfold process_entry, LogToRedis. rewrite Hlevel, Hr.
  destruct (json_Marshal _) as [err|data]; [done|].
  destruct (redis_LPush r _ data) as [r' [err|]]; [|done].
  by destruct (isRedisUnavailable err).
Qed.

Lemma process_entry_returns (e : logEntry) (w : world) :
  is_Some (rdb w) -> level e <> "fatal" ->
  exists w', process_entry e w = Done w' /\ is_Some (rdb w').
Proof.
  intros [r Hr] Hlevel. unfold process_entry.
  assert (Hsend : exists w1, LogToRedis (level e) (message e) (fields e) w = Done w1
                             /\ is_Some (rdb w1)).
  { unfold LogToRedis. rewrite Hr. destruct (json_Marshal _) as [err|data].
    - eexists. split; [done|]. cbn. eauto.
    - destruct (redis_LPush r _ data) as [r' [err|]].
      + destruct (isRedisUnavailable err); (eexists; split; [done|]).
        * rewrite rdb_logToFallback. cbn. eauto.
        * cbn. eauto.
      + eexists. split; [done|]. cbn. eauto. }
  destruct Hsend as (w1 & -> & Hr1). cbn [mbind result_bind].
  repeat (match goal with
          | |- context [String.eqb ?a ?b] => destruct (String.eqb_spec a b)
          end; [try (eexists; split; [reflexivity|]; exact Hr1)|]); [done|eauto].
Qed.

Lemma drain_step (fuel : nat) (a : Applogs) (cur : option logEntry) :
  consumer a = Running cur ->
  drain (S fuel) a = a' ← processLogs a; drain fuel a'.
Proof. intros Hcons. cbn [drain]. by rewrite Hcons. Qed.

Lemma processLogs_entry (a : Applogs) (x : logEntry) :
  consumer a = Running (Some x) ->
  processLogs a
    = w ← process_entry x (globals a); Done (MkApplogs (logQueue a) (Running None) w).
Proof. intros Hcons. unfold processLogs. by rewrite Hcons. Qed.

Lemma processLogs_receive (a : Applogs) :
  consumer a = Running None -> processLogs a = Done (receive a).
Proof. intros Hcons. unfold processLogs. by rewrite Hcons. Qed.

Lemma receive_next (a : Applogs) (z : logEntry) (rest : list logEntry) :
  buf (logQueue a) = z :: rest ->
  receive a = MkApplogs (MkChan rest (cap (logQueue a)) (closed (logQueue a)))
                (Running (Some z)) (globals a).
Proof. intros Hbuf. unfold receive. by rewrite Hbuf. Qed.

Lemma drain_to_fatal (es1 : list logEntry) :
  forall (a : Applogs) (x : logEntry) (e : logEntry) (es2 : list logEntry) (fuel : nat),
  is_Some (rdb (globals a)) ->
  consumer a = Running (Some x) ->
  x :: buf (logQueue a) = es1 ++ e :: es2 ->
  Forall (fun y => level y <> "fatal") es1 ->
  level e = "fatal" ->
  (2 * length es1 + 1 <= fuel)%nat ->
  drain fuel a = Exit 1.
Proof.
  induction es1 as [|y es1 IH]; intros a x e es2 fuel Hr Hcons Hpend Hes1 He Hfuel.
  - destruct fuel as [|fuel]; [cbn in Hfuel; lia|].
    cbn in Hpend. injection Hpend as -> _.
    rewrite (drain_step _ _ _ Hcons), (processLogs_entry _ _ Hcons).
    by rewrite process_entry_fatal.
  - destruct fuel as [|[|fuel]]; [cbn in Hfuel; lia..|].
    cbn in Hpend. injection Hpend as -> Hbuf.
    apply Forall_cons in Hes1 as [Hy Hes1].
    destruct (process_entry_returns y (globals a) Hr Hy) as (w' & Hw' & Hr').
    rewrite (drain_step _ _ _ Hcons), (processLogs_entry _ _ Hcons), Hw'.
    cbn [mbind result_bind].
    rewrite (drain_step _ _ None) by done. rewrite processLogs_receive by done.
    cbn [mbind result_bind].
    destruct (es1 ++ e :: es2) as [|z rest] eqn:Hnext; [by destruct es1|].
    rewrite (receive_next _ z rest) by done.
    eapply (IH _ z e es2); [exact Hr'|reflexivity|cbn; by rewrite Hnext|done|done|].
    cbn in Hfuel. lia.
Qed.

(** X11: once an entry of level [fatal] is pending and the client is set,
    the dispatcher, after the entries accepted before it, ends the process
    with exit code 1 when it reaches that entry: whatever was accepted
    behind it is never sent. *)
Theorem fatal_entry_ends_the_process (a : Applogs) (cur : option logEntry)
    (es1 es2 : list logEntry) (e : logEntry) (fuel : nat) :
  is_Some (rdb (globals a)) ->
  consumer a = Running cur ->
  pending a = es1 ++ e :: es2 ->
  Forall (fun y => level y <> "fatal") es1 ->
  level e = "fatal" ->
  (2 * length es1 + 2 <= fuel)%nat ->
  drain fuel a = Exit 1.
Proof.
  intros Hr Hcons Hpend Hes1 He Hfuel. unfold pending in Hpend. rewrite Hcons in Hpend.
  destruct cur as [x|].
  - eapply drain_to_fatal; eauto. lia.
  - destruct fuel as [|fuel]; [lia|].
    rewrite (drain_step _ _ _ Hcons), (processLogs_receive _ Hcons).
    cbn [mbind result_bind].
    destruct (es1 ++ e :: es2) as [|z rest] eqn:Hnext; [by destruct es1|].
    rewrite (receive_next _ z rest) by done.
    eapply (drain_to_fatal es1 _ z e es2); [exact Hr|reflexivity|cbn; by rewrite Hnext|done|done|].
    lia.
Qed.

End shutdown_extras.

(** ** A batch with a refused command *)

Lemma redis_LPush_fault (r : redis) (key data : string) :
  fault (redis_LPush r key data).1 = fault r.
Proof.
  unfold redis_LPush. destruct (fault r) eqn:Hf; [done|].
  by destruct (db r !! key) as [[items|s]|].
Qed.

Lemma redis_LPush_keeps_string (r : redis) (key data k s : string) :
  db r !! k = Some (RString s) -> db (redis_LPush r key data).1 !! k = Some (RString s).
Proof.
  intros Hk. unfold redis_LPush. destruct (fault r); [done|].
  destruct (decide (key = k)) as [->|Hne].
  - by rewrite Hk.
  - destruct (db r !! key) as [[items|s']|]; cbn; by rewrite ?lookup_insert_ne.
Qed.

Lemma redis_LPush_refused (r : redis) (key data s : string) :
  fault r = None -> db r !! key = Some (RString s) ->
  (redis_LPush r key data).2 = Some WRONGTYPE.
Proof. intros Hf Hk. unfold redis_LPush. by rewrite Hf, Hk. Qed.

Lemma redis_LPush_items (r : redis) (key data k : string) :
  fault r = None ->
  (forall s, db r !! k <> Some (RString s)) ->
  items_at (redis_LPush r key data).1 k
    = (if String.eqb key k then [data] else []) ++ items_at r k
  /\ forall s, db (redis_LPush r key data).1 !! k <> Some (RString s).
Proof.
  intros Hf Hk. unfold redis_LPush, items_at. rewrite Hf.
  destruct (String.eqb_spec key k) as [->|Hne].
  - destruct (db r !! k) as [[items|s]|] eqn:Hkey; cbn; rewrite ?lookup_insert_eq;
      try done. by destruct (Hk s).
  - destruct (db r !! key) as [[items|s]|] eqn:Hkey; cbn;
      rewrite ?lookup_insert_ne by done; done.
Qed.

Lemma run_cmds_fault (cmds : Pipeline) :
  forall r, fault (run_cmds r cmds).1 = fault r.
Proof.
  induction cmds as [|[key data] cmds IH]; intros r; cbn; [done|].
  pose proof (redis_LPush_fault r key data) as Hf.
  destruct (redis_LPush r key data) as [r1 e]. specialize (IH r1).
  destruct (run_cmds r1 cmds) as [r2 es]. cbn in *. congruence.
Qed.

Lemma run_cmds_keeps_string (cmds : Pipeline) (k s : string) :
  forall r, db r !! k = Some (RString s) -> db (run_cmds r cmds).1 !! k = Some (RString s).
Proof.
  induction cmds as [|[key data] cmds IH]; intros r Hk; cbn; [done|].
  pose proof (redis_LPush_keeps_string r key data k s Hk) as Hk1.
  destruct (redis_LPush r key data) as [r1 e]. specialize (IH r1 Hk1).
  by destruct (run_cmds r1 cmds) as [r2 es].
Qed.

(** A command on a key that holds a value of another kind makes the
    grouped write report an error. *)
Lemma run_cmds_refused (cmds : Pipeline) (bad data s : string) :
  forall r,
  fault r = None ->
  (bad, data) ∈ cmds ->
  db r !! bad = Some (RString s) ->
  is_Some (first_error (run_cmds r cmds).2).
Proof.
  induction cmds as [|[key d] cmds IH]; intros r Hf Hin Hbad; [by apply elem_of_nil in Hin|].
  cbn [run_cmds].
  pose proof (redis_LPush_fault r key d) as Hf1.
  pose proof (redis_LPush_keeps_string r key d bad s Hbad) as Hbad1.
  apply elem_of_cons in Hin as [[= <- <-]|Hin].
  - pose proof (redis_LPush_refused r bad data s Hf Hbad) as He.
    destruct (redis_LPush r bad data) as [r1 e]. cbn in He. subst e.
    destruct (run_cmds r1 cmds) as [r2 es]. cbn. eauto.
  - destruct (redis_LPush r key d) as [r1 e]. cbn in Hf1, Hbad1.
    specialize (IH r1). rewrite Hf1 in IH. specialize (IH Hf Hin Hbad1).
    destruct (run_cmds r1 cmds) as [r2 es]. cbn in *. destruct e; eauto.
Qed.

(** What a pipeline leaves at a key that holds a list, or nothing. *)
Lemma run_cmds_items (cmds : Pipeline) (k : string) :
  forall r,
  fault r = None ->
  (forall s, db r !! k <> Some (RString s)) ->
  items_at (run_cmds r cmds).1 k = rev (sent_to k cmds) ++ items_at r k
  /\ forall s, db (run_cmds r cmds).1 !! k <> Some (RString s).
Proof.
  induction cmds as [|[key data] cmds IH]; intros r Hf Hk; [done|].
  cbn [run_cmds].
  pose proof (redis_LPush_fault r key data) as Hf1.
  destruct (redis_LPush_items r key data k Hf Hk) as [Hitems Hk1].
  destruct (redis_LPush r key data) as [r1 e]. cbn in Hf1, Hitems, Hk1.
  specialize (IH r1). rewrite Hf1 in IH. destruct (IH Hf Hk1) as [IHitems IHk].
  destruct (run_cmds r1 cmds) as [r2 es]. cbn [fst] in *. split; [|done].
  rewrite IHitems, Hitems. unfold sent_to. cbn [List.filter fst].
  destruct (String.eqb key k); cbn [fmap list_fmap snd rev app]; [|done].
  by rewrite <- app_assoc.
Qed.

Lemma bind_Done {A : Type} (x : result A) : (a ← x; Done a) = x.
Proof. by destruct x. Qed.

Section resend_extras.
Context `{Json}.

Lemma recover_entries_only (name : string) (names : list string) :
  forall w,
  is_fallback_name name = true ->
  NoDup names ->
  (forall q, q ∈ names -> is_fallback_name q = true -> q = name) ->
  recover_entries names w
  = if bool_decide (name ∈ names) then recover_file name w else Done w.
Proof.
  induction names as [|q names IH]; intros w Hname Hdup Honly; cbn [recover_entries].
  - rewrite bool_decide_eq_false_2; [done|]. apply not_elem_of_nil.
  - apply NoDup_cons in Hdup as [Hq Hdup]. destruct (decide (q = name)) as [->|Hne].
    + rewrite bool_decide_eq_true_2 by set_solver.
      unfold recover_entry at 1. rewrite Hname.
      destruct (recover_file name w) as [w'| |]; cbn [mbind result_bind]; try done.
      apply recover_entries_nothing_to_do. intros n Hn.
      destruct (is_fallback_name n) eqn:Hmatch; [|done].
      assert (n = name) as -> by (apply Honly; [set_solver|done]). done.
    + assert (Hskip : is_fallback_name q = false).
      { destruct (is_fallback_name q) eqn:Hmatch; [|done].
        destruct Hne. apply Honly; [set_solver|done]. }
      unfold recover_entry at 1. rewrite Hskip. cbn [mbind result_bind].
      rewrite (IH w Hname Hdup) by (intros n Hn Hm; apply Honly; [set_solver|exact Hm]).
      destruct (decide (name ∈ names)) as [Hin|Hout].
      * rewrite !bool_decide_eq_true_2; [done| |done]. by apply elem_of_cons; right.
      * rewrite !bool_decide_eq_false_2; [done| |done].
        intros [?|?]%elem_of_cons; congruence.
Qed.

Lemma os_ReadDir_NoDup (d : disk) (names : list string) :
  os_ReadDir d = inr names -> NoDup names.
Proof.
  unfold os_ReadDir. destruct (ReadDir_err d); [discriminate|]. intros [= <-].
  rewrite merge_sort_Permutation. apply NoDup_fst_map_to_list.
Qed.

(** One cycle on a directory whose only spool file holds a batch with a
    refused command. *)
Lemma refused_batch_cycle (w : world) (r : redis) (name content bad data s : string) :
  rdb w = Some r ->
  fault r = None ->
  ReadDir_err (spool w) = None ->
  Open_err (spool w) = None ->
  files (spool w) !! name = Some content ->
  is_fallback_name name = true ->
  (forall q, is_Some (files (spool w) !! q) -> is_fallback_name q = true -> q = name) ->
  replayable content ->
  (bad, data) ∈ cmds_of (decoded (bufio.ScanLines content).1) ->
  db r !! bad = Some (RString s) ->
  exists w',
    recoverFallbackLogs w = Done w'
    /\ rdb w' = Some (run_cmds r (cmds_of (decoded (bufio.ScanLines content).1))).1
    /\ files (spool w') = files (spool w)
    /\ ReadDir_err (spool w') = None
    /\ Open_err (spool w') = None.
Proof.
  intros Hr Hf Hrd Ho Hfile Hname Honly [Hgood Hkeyed] Hin Hbad.
  set (cmds := cmds_of (decoded (bufio.ScanLines content).1)) in *.
  assert (Hopen : os_Open (spool w) name = inr content)
    by (unfold os_Open; by rewrite Ho, Hfile).
  destruct (recover_file_total w r name content Hr Hopen Hkeyed) as [w' Hw'].
  destruct (recover_file_Done w w' r name content Hr Hopen Hw') as [Hfiles Hrdb].
  fold cmds in Hrdb.
  assert (Hexec : pipe_Exec r cmds
                  = ((run_cmds r cmds).1, (run_cmds r cmds).2,
                     first_error (run_cmds r cmds).2)).
  { unfold pipe_Exec. destruct cmds as [|c cmds']; [by apply elem_of_nil in Hin|].
    by destruct (run_cmds r (c :: cmds')). }
  destruct (run_cmds_refused cmds bad data s r Hf Hin Hbad) as [e He].
  unfold batch_error in Hfiles. fold cmds in Hfiles.
  rewrite Hgood, Hexec in Hfiles. cbn [snd] in Hfiles. rewrite He in Hfiles.
  rewrite Hexec in Hrdb. cbn [fst] in Hrdb.
  assert (Hentry : recover_entry name w = Done w')
    by (unfold recover_entry; by rewrite Hname).
  destruct (recover_entry_faults name w w' Hentry) as [Ho' Hrd'].
  exists w'. split_and!; try done; try congruence.
  unfold recoverFallbackLogs. rewrite Hr.
  destruct (os_ReadDir (spool w)) as [err|names] eqn:Hlist.
  { unfold os_ReadDir in Hlist. by rewrite Hrd in Hlist. }
  rewrite (recover_entries_only name names w Hname).
  - rewrite bool_decide_eq_true_2; [done|].
    apply (os_ReadDir_names (spool w) names name Hlist). eauto.
  - eauto using os_ReadDir_NoDup.
  - intros q Hq. apply Honly. by apply (os_ReadDir_names (spool w) names q Hlist).
Qed.

(** X17: a batch in which one command is refused (its key holds a value
    that is not a list) is sent again whole in every recovery cycle: the
    grouped write reports the error, the spool file stays, and the
    records of the batch that did go through are pushed once more each
    time.  After [n] cycles over a directory whose only spool file is this
    one, the file is as it was, and the list at any key that takes
    appends holds [n] copies of what the batch sends there, in front of
    what it held. *)
Theorem refused_batch_is_sent_again (n : nat) (w : world) (r : redis)
    (name content bad data s key : string) :
  rdb w = Some r ->
  fault r = None ->
  ReadDir_err (spool w) = None ->
  Open_err (spool w) = None ->
  files (spool w) !! name = Some content ->
  is_fallback_name name = true ->
  (forall q, is_Some (files (spool w) !! q) -> is_fallback_name q = true -> q = name) ->
  replayable content ->
  (bad, data) ∈ cmds_of (decoded (bufio.ScanLines content).1) ->
  db r !! bad = Some (RString s) ->
  (forall v, db r !! key <> Some (RString v)) ->
  exists w' r',
    cycles n w = Done w'
    /\ files (spool w') = files (spool w)
    /\ rdb w' = Some r'
    /\ items_at r' key
       = concat (replicate n (rev (sent_to key (cmds_of (decoded (bufio.ScanLines content).1)))))
         ++ items_at r key.
Proof.
  revert w r. induction n as [|n IH];
    intros w r Hr Hf Hrd Ho Hfile Hname Honly Hclean Hin Hbad Hkey.
  - exists w, r. done.
  - destruct (refused_batch_cycle w r name content bad data s)
      as (w1 & Hcycle & Hr1 & Hfiles1 & Hrd1 & Ho1); try done.
    set (cmds := cmds_of (decoded (bufio.ScanLines content).1)) in *.
    destruct (run_cmds_items cmds key r Hf Hkey) as [Hitems Hkey1].
    destruct (IH w1 (run_cmds r cmds).1) as (w' & r' & Hrest & Hfiles' & Hr' & Hitems');
      try done.
    + by rewrite run_cmds_fault.
    + by rewrite Hfiles1.
    + intros q. rewrite Hfiles1. apply Honly.
    + by apply run_cmds_keeps_string.
    + exists w', r'. split_and!; try done.
      * cbn [cycles]. rewrite Hcycle. exact Hrest.
      * congruence.
      * rewrite Hitems', Hitems. rewrite app_assoc. f_equal.
        rewrite replicate_S_end, concat_app. cbn. by rewrite app_nil_r.
Qed.

End resend_extras.

(** ** The disposition of a spool file, over a whole cycle *)

Lemma scan_too_long (long rest : string) :
  forall (cur : list ascii) (n : N),
  no_newline long = true ->
  (bufio.MaxScanTokenSize <= n + N.of_nat (String.length long))%N ->
  (n < bufio.MaxScanTokenSize)%N ->
  bufio.scan (long +:+ rest) cur n = ([], true).
Proof.
  induction long as [|c long IH]; intros cur n Hnl Hlen Hn.
  - cbn in Hlen. lia.
  - change (String c long +:+ rest) with (String c (long +:+ rest)).
    cbn [no_newline] in Hnl. apply andb_true_iff in Hnl as [Hc Hnl].
    apply negb_true_iff in Hc. cbn [bufio.scan]. rewrite Hc.
    destruct (N.leb_spec bufio.MaxScanTokenSize (N.succ n)) as [Hfull|Hroom]; [done|].
    apply IH; [done| |done]. cbn [String.length] in Hlen. lia.
Qed.

Section cycle_theorems.
Context `{Json}.

(** C6, on the code: a spool file whose first line is 65536 bytes long or
    more, whatever follows it.  The scanner stops at that line with
    [ErrTooLong] before it delivers any line; the cycle records the error
    and goes on to the disposition with an empty batch and [corrupt] still
    false, so the file is removed: no line of it was parsed, nothing was
    sent, and lines that do not parse were never looked at. *)
Theorem C6_unread_file_is_removed (w : world) (r : redis) (name long rest : string) :
  rdb w = Some r ->
  ReadDir_err (spool w) = None ->
  Open_err (spool w) = None ->
  is_fallback_name name = true ->
  files (spool w) !! name = Some (long +:+ rest) ->
  (forall q, is_Some (files (spool w) !! q) -> is_fallback_name q = true -> q = name) ->
  no_newline long = true ->
  (bufio.MaxScanTokenSize <= N.of_nat (String.length long))%N ->
  recoverFallbackLogs w
  = Done (set_spool (os_Remove name (spool w))
            (zap_log ErrorLevel "Error reading fallback log line by line"
                     [zap_Error ErrTooLong] w)).
Proof.
  intros Hr Hrd Ho Hname Hfile Honly Hnl Hlen.
  unfold recoverFallbackLogs. rewrite Hr.
  destruct (os_ReadDir (spool w)) as [err|names] eqn:Hlist.
  { unfold os_ReadDir in Hlist. by rewrite Hrd in Hlist. }
  rewrite (recover_entries_only name names w Hname).
  - rewrite bool_decide_eq_true_2
      by (apply (os_ReadDir_names (spool w) names name Hlist); eauto).
    unfold recover_file, os_Open. rewrite Ho, Hfile. unfold bufio.ScanLines.
    rewrite scan_too_long; [done|done|lia|done].
  - eauto using os_ReadDir_NoDup.
  - intros q Hq. apply Honly. by apply (os_ReadDir_names (spool w) names q Hlist).
Qed.

Lemma recover_entry_other (q name : string) (w w1 : world) :
  recover_entry q w = Done w1 ->
  q <> name ->
  is_fallback_name name = true ->
  files (spool w1) !! name = files (spool w) !! name.
Proof.
  intros Hdone Hne Hname.
  destruct (recover_entry_spool q w w1 Hdone) as [->|[Hq [->| ->]]]; [done| |].
  - cbn. by rewrite lookup_delete_ne.
  - unfold os_Rename. destruct (files (spool w) !! q) as [content|]; [|done]. cbn.
    rewrite lookup_insert_ne, lookup_delete_ne; [done|done|].
    intros <-. by rewrite is_fallback_name_corrupt in Hname.
Qed.

Lemma recover_entry_absent (name : string) (w w1 : world) :
  Open_err (spool w) = None ->
  files (spool w) !! name = None ->
  recover_entry name w = Done w1 ->
  rdb w1 = rdb w /\ spool w1 = spool w.
Proof.
  intros Ho Hfile. unfold recover_entry. destruct (is_fallback_name name).
  - unfold recover_file, os_Open. rewrite Ho, Hfile. by intros [= <-].
  - by intros [= <-].
Qed.

Lemma recover_entries_blank_gone (name content : string) (lines names : list string) :
  forall w w',
  Open_err (spool w) = None ->
  is_fallback_name name = true ->
  bufio.ScanLines content = (lines, false) ->
  Forall (fun line => line = EmptyString) lines ->
  files (spool w) !! name = None \/ files (spool w) !! name = Some content ->
  recover_entries names w = Done w' ->
  files (spool w') !! name = None
  \/ ((name ∉ names) /\ files (spool w') !! name = files (spool w) !! name).
Proof.
  induction names as [|q names IH]; intros w w' Ho Hname Hscan Hblank Hfile;
    cbn [recover_entries].
  - intros [= <-]. right. split; [apply not_elem_of_nil|done].
  - destruct (recover_entry q w) as [w1| |] eqn:Hstep; cbn; try discriminate.
    intros Hrest.
    destruct (recover_entry_faults q w w1 Hstep) as [Ho1 _]. rewrite Ho in Ho1.
    destruct (decide (q = name)) as [->|Hne].
    + assert (Hgone : files (spool w1) !! name = None).
      { destruct Hfile as [Hnone|Hsome].
        - destruct (recover_entry_absent name w w1 Ho Hnone Hstep) as [_ ->]. done.
        - assert (Hopen : os_Open (spool w) name = inr content)
            by (unfold os_Open; by rewrite Ho, Hsome).
          destruct (recover_entry_blank w name content lines Hname Hopen Hscan Hblank)
            as (v & Hv & Hfiles & _).
          rewrite Hstep in Hv. injection Hv as <-. rewrite Hfiles.
          apply lookup_delete_eq. }
      left. destruct (IH w1 w' Ho1 Hname Hscan Hblank (or_introl Hgone) Hrest)
        as [?|[_ Hsame]]; [done|congruence].
    + pose proof (recover_entry_other q name w w1 Hstep Hne Hname) as Hsame.
      destruct (IH w1 w' Ho1 Hname Hscan Hblank) as [?|[Hout Hsame']];
        [by rewrite Hsame|done|by left|].
      right. split; [|congruence]. intros [?|?]%elem_of_cons; congruence.
Qed.

Lemma recover_entries_all_blank (names : list string) :
  forall w,
  Open_err (spool w) = None ->
  (forall q c, files (spool w) !! q = Some c -> is_fallback_name q = true ->
     exists ls, bufio.ScanLines c = (ls, false)
                /\ Forall (fun line => line = EmptyString) ls) ->
  exists w',
    recover_entries names w = Done w'
    /\ rdb w' = rdb w
    /\ (forall q, files (spool w') !! q = None
                  \/ files (spool w') !! q = files (spool w) !! q)
    /\ (forall q, q ∈ names -> is_fallback_name q = true -> files (spool w') !! q = None).
Proof.
  induction names as [|q0 names IH]; intros w Ho Hblank; cbn [recover_entries].
  { exists w. split_and!; try done; [by right|]. intros q Hq. by apply elem_of_nil in Hq. }
  assert (Hstep : exists w1,
            recover_entry q0 w = Done w1
            /\ rdb w1 = rdb w
            /\ (forall q, files (spool w1) !! q = None
                          \/ files (spool w1) !! q = files (spool w) !! q)
            /\ (is_fallback_name q0 = true -> files (spool w1) !! q0 = None)).
  { destruct (is_fallback_name q0) eqn:Hq0.
    - destruct (files (spool w) !! q0) as [c|] eqn:Hfile.
      + destruct (Hblank q0 c Hfile Hq0) as (ls & Hscan & Hls).
        assert (Hopen : os_Open (spool w) q0 = inr c)
          by (unfold os_Open; by rewrite Ho, Hfile).
        destruct (recover_entry_blank w q0 c ls Hq0 Hopen Hscan Hls)
          as (w1 & Hw1 & Hfiles & Hrdb).
        exists w1. rewrite Hfiles. split_and!; try done.
        * intros q. destruct (decide (q = q0)) as [->|Hne];
            [left; apply lookup_delete_eq|right; by rewrite lookup_delete_ne].
        * intros _. apply lookup_delete_eq.
      + unfold recover_entry. rewrite Hq0. unfold recover_file, os_Open.
        rewrite Ho, Hfile. eexists. split; [reflexivity|]. cbn.
        split_and!; try done. intros q. by right.
    - unfold recover_entry. rewrite Hq0. exists w. split_and!; try done.
      intros q. by right. }
  destruct Hstep as (w1 & Hw1 & Hrdb1 & Hsub1 & Hgone1).
  destruct (recover_entry_faults q0 w w1 Hw1) as [Ho1 _]. rewrite Ho in Ho1.
  destruct (IH w1 Ho1) as (w' & Hw' & Hrdb' & Hsub' & Hgone').
  { intros q c Hq. destruct (Hsub1 q) as [Hn|Hs]; [congruence|].
    rewrite Hs in Hq. eauto. }
  exists w'. rewrite Hw1. cbn [mbind result_bind]. split_and!; try done.
  - congruence.
  - intros q. destruct (Hsub' q) as [?|Hs']; [by left|].
    destruct (Hsub1 q) as [Hn|Hs]; [left|right]; congruence.
  - intros q Hq Hmatch. apply elem_of_cons in Hq as [->|Hq]; [|by apply Hgone'].
    destruct (Hsub' q0) as [?|Hs']; [done|]. rewrite Hs'. by apply Hgone1.
Qed.

(** C10, as the code has it: a spool file whose name matches the
    convention and whose lines are all empty (an empty file too), in a
    cycle that has a client, lists the directory and can open the file.
    A cycle that runs to its end deletes the file; the pass over the file
    submits nothing to the sink (the batch stays empty and no grouped
    write is issued); and when every spool file of the directory is of
    that kind, the cycle does run to its end, removes them all and leaves
    the sink as it was. *)
Theorem C10_blank_file_deleted (w : world) (r : redis) (name content : string)
    (lines : list string) :
  rdb w = Some r ->
  ReadDir_err (spool w) = None ->
  Open_err (spool w) = None ->
  is_fallback_name name = true ->
  files (spool w) !! name = Some content ->
  bufio.ScanLines content = (lines, false) ->
  Forall (fun line => line = EmptyString) lines ->
  (forall w', recoverFallbackLogs w = Done w' -> files (spool w') !! name = None)
  /\ (exists v,
        recover_entry name w = Done v
        /\ files (spool v) = delete name (files (spool w))
        /\ rdb v = rdb w)
  /\ ((forall q c, files (spool w) !! q = Some c -> is_fallback_name q = true ->
         exists ls, bufio.ScanLines c = (ls, false)
                    /\ Forall (fun line => line = EmptyString) ls) ->
      exists w',
        recoverFallbackLogs w = Done w'
        /\ rdb w' = rdb w
        /\ forall q, is_fallback_name q = true -> files (spool w') !! q = None).
Proof.
  intros Hr Hrd Ho Hname Hfile Hscan Hblank.
  assert (Hlist : exists names, os_ReadDir (spool w) = inr names).
  { unfold os_ReadDir. rewrite Hrd. eauto. }
  destruct Hlist as [names Hlist]. split_and!.
  - intros w'. unfold recoverFallbackLogs. rewrite Hr, Hlist. intros Hrun.
    destruct (recover_entries_blank_gone name content lines names w w' Ho Hname Hscan Hblank
                (or_intror Hfile) Hrun) as [?|[Hout _]]; [done|].
    destruct Hout. apply (os_ReadDir_names (spool w) names name Hlist). eauto.
  - apply (recover_entry_blank w name content lines Hname); [|done|done].
    unfold os_Open. by rewrite Ho, Hfile.
  - intros Hall.
    destruct (recover_entries_all_blank names w Ho Hall) as (w' & Hrun & Hrdb & Hsub & Hgone).
    exists w'. unfold recoverFallbackLogs. rewrite Hr, Hlist.
    split; [exact Hrun|]. split; [congruence|].
    intros q Hq. destruct (files (spool w) !! q) as [c|] eqn:Hc.
    + apply Hgone; [|done]. apply (os_ReadDir_names (spool w) names q Hlist). eauto.
    + destruct (Hsub q) as [?|Hs]; [done|congruence].
Qed.

End cycle_theorems.

(** ** Entries spooled during an outage *)

Lemma scan_line_then (data rest : string) :
  forall (cur : list ascii) (n : N),
  no_newline data = true ->
  (n + N.of_nat (String.length data) < bufio.MaxScanTokenSize)%N ->
  bufio.scan (data +:+ newline +:+ rest) cur n
    = (bufio.token (rev (list_ascii_of_string data) ++ cur) :: (bufio.scan rest [] 0%N).1,
       (bufio.scan rest [] 0%N).2).
Proof.
  induction data as [|c data IH]; intros cur n Hnl Hlen.
  - change (EmptyString +:+ newline +:+ rest) with (String "010"%char rest).
    cbn [bufio.scan]. cbn. by destruct (bufio.scan rest [] 0%N).
  - change (String c data +:+ newline +:+ rest) with (String c (data +:+ newline +:+ rest)).
    cbn [no_newline] in Hnl. apply andb_true_iff in Hnl as [Hc Hnl].
    apply negb_true_iff in Hc. cbn [bufio.scan]. rewrite Hc.
    cbn [String.length] in Hlen.
    assert (Hfit : (bufio.MaxScanTokenSize <=? N.succ n)%N = false).
    { apply N.leb_gt. lia. }
    rewrite Hfit, IH by (done || lia).
    cbn [list_ascii_of_string rev]. by rewrite <- app_assoc.
Qed.

Lemma token_safe_line (data : string) :
  last_is_CR data = false -> bufio.token (rev (list_ascii_of_string data)) = data.
Proof.
  intros Hcr. unfold bufio.token, bufio.dropCR. unfold last_is_CR in Hcr.
  destruct (rev (list_ascii_of_string data)) as [|c l] eqn:Hrev.
  - apply (f_equal (@rev ascii)) in Hrev. rewrite rev_involutive in Hrev. cbn in Hrev.
    rewrite <- (string_of_list_ascii_of_string data), Hrev. reflexivity.
  - rewrite Hcr, <- Hrev, rev_involutive, string_of_list_ascii_of_string. reflexivity.
Qed.

Lemma ScanLines_spool_text (lines : list string) :
  Forall (fun line => line_safe line = true) lines ->
  bufio.ScanLines (spool_text lines) = (lines, false).
Proof.
  unfold bufio.ScanLines. induction 1 as [|line lines Hsafe _ IH]; [done|].
  cbn [spool_text]. revert Hsafe. unfold line_safe.
  rewrite !andb_true_iff, !negb_true_iff, N.ltb_lt. intros [[[Hnl Hcr] _] Hlen].
  rewrite scan_line_then by (done || lia). rewrite IH, app_nil_r. cbn [fst snd].
  by rewrite token_safe_line.
Qed.

Lemma spool_text_snoc (lines : list string) (line : string) :
  spool_text (lines ++ [line]) = spool_text lines +:+ line +:+ newline.
Proof.
  induction lines as [|l lines IH]; cbn [spool_text app].
  - by rewrite append_nil_r.
  - by rewrite IH, !append_assoc.
Qed.

(** Commands on keys that take appends all go through. *)
Lemma run_cmds_accepted (cmds : Pipeline) :
  forall r,
  fault r = None ->
  (forall key data s, (key, data) ∈ cmds -> db r !! key <> Some (RString s)) ->
  first_error (run_cmds r cmds).2 = None.
Proof.
  induction cmds as [|[key data] cmds IH]; intros r Hf Hkeys; [done|].
  cbn [run_cmds].
  pose proof (redis_LPush_fault r key data) as Hf1.
  assert (He : (redis_LPush r key data).2 = None).
  { unfold redis_LPush. rewrite Hf.
    destruct (db r !! key) as [[items|s]|] eqn:Hkey; try done.
    destruct (Hkeys key data s); [by left|done]. }
  assert (Hkeys1 : forall k d s, (k, d) ∈ cmds ->
                     db (redis_LPush r key data).1 !! k <> Some (RString s)).
  { intros k d s Hin.
    apply (redis_LPush_items r key data k Hf). intros s'. apply (Hkeys k d). by right. }
  destruct (redis_LPush r key data) as [r1 e]. cbn [fst snd] in *. subst e.
  specialize (IH r1). rewrite Hf1 in IH. specialize (IH Hf Hkeys1).
  by destruct (run_cmds r1 cmds) as [r2 es].
Qed.

Section outage_extras.
Context `{Json}.

(** An entry the dispatcher processes while the sink refuses connections
    becomes one more line of the spool file of the second. *)
Lemma process_entry_spools (e : logEntry) (w : world) (r : redis) (err : error)
    (data : string) :
  rdb w = Some r ->
  fault r = Some err ->
  isRedisUnavailable err = true ->
  Open_err (spool w) = None ->
  Write_err (spool w) = None ->
  level e <> "fatal" ->
  json_Marshal (logData_of (level e) (message e) (fields e) w) = inr data ->
  exists w',
    process_entry e w = Done w'
    /\ rdb w' = Some r
    /\ same_process w w'
    /\ Open_err (spool w') = None
    /\ Write_err (spool w') = None
    /\ files (spool w')
       = <["fallback_" +:+ Format_20060102150405 (clock w) +:+ ".log" :=
             default EmptyString
               (files (spool w) !! ("fallback_" +:+ Format_20060102150405 (clock w) +:+ ".log"))
             +:+ data +:+ newline]> (files (spool w)).
Proof.
  intros Hr Hf Hclass Ho Hwr Hlevel Hm.
  assert (Hsend : LogToRedis (level e) (message e) (fields e) w
                  = Done (logToFallback (logData_of (level e) (message e) (fields e) w)
                            (zap_log WarnLevel "Redis unavailable, saving to fallback"
                               [zap_Error err] w))).
  { unfold LogToRedis. rewrite Hm, Hr. unfold redis_LPush. rewrite Hf, Hclass.
    by replace (set_rdb (Some r) w) with w
      by (destruct w; unfold set_rdb; cbn in *; by subst). }
  set (w1 := logToFallback _ _) in Hsend.
  assert (Hw1 : rdb w1 = Some r /\ same_process w w1 /\ Open_err (spool w1) = None
                /\ Write_err (spool w1) = None
                /\ files (spool w1)
                   = <["fallback_" +:+ Format_20060102150405 (clock w) +:+ ".log" :=
                         default EmptyString
                           (files (spool w)
                              !! ("fallback_" +:+ Format_20060102150405 (clock w) +:+ ".log"))
                         +:+ data +:+ newline]> (files (spool w))).
  { unfold w1, logToFallback. cbn [spool zap_log set_logger clock].
    rewrite Ho, Hwr, Hm. cbn. by rewrite Hr, Ho, Hwr. }
  unfold process_entry. rewrite Hsend. cbn [mbind result_bind].
  repeat (match goal with
          | |- context [String.eqb ?a ?b] => destruct (String.eqb_spec a b)
          end; [try (eexists; split; [reflexivity|]; exact Hw1)|]).
  - done.
  - eexists. split; [reflexivity|]. exact Hw1.
Qed.

Lemma process_all_spools (es : list logEntry) :
  forall (w : world) (r : redis) (err : error) (key : string) (payloads : list string)
         (before : list string),
  rdb w = Some r ->
  fault r = Some err ->
  isRedisUnavailable err = true ->
  Open_err (spool w) = None ->
  Write_err (spool w) = None ->
  Forall (fun e => level e <> "fatal") es ->
  Forall2 (replays_as w key) es payloads ->
  default EmptyString
    (files (spool w) !! ("fallback_" +:+ Format_20060102150405 (clock w) +:+ ".log"))
  = spool_text before ->
  exists w' lines,
    process_all es w = Done w'
    /\ rdb w' = Some r
    /\ same_process w w'
    /\ Open_err (spool w') = None
    /\ default EmptyString
         (files (spool w') !! ("fallback_" +:+ Format_20060102150405 (clock w) +:+ ".log"))
       = spool_text (before ++ lines)
    /\ (es <> []
        \/ is_Some (files (spool w)
                      !! ("fallback_" +:+ Format_20060102150405 (clock w) +:+ ".log")) ->
        is_Some (files (spool w')
                   !! ("fallback_" +:+ Format_20060102150405 (clock w) +:+ ".log")))
    /\ Forall (fun line => line_safe line = true) lines
    /\ existsb malformed lines = false
    /\ Forall (fun logData => batch_key logData = Some key) (decoded lines)
    /\ cmds_of (decoded lines) = (fun d => (key, d)) <$> payloads.
Proof.
  induction es as [|e es IH];
    intros w r err key payloads before Hr Hf Hclass Ho Hwr Hlevels Hre Hold.
  - apply Forall2_nil_inv_l in Hre as ->. exists w, [].
    split_and!; try done; try apply same_process_refl; rewrite ?app_nil_r; try done.
    by intros [?|?].
  - apply Forall2_cons_inv_l in Hre as (d' & payloads' & Hd' & Hre & ->).
    apply Forall_cons in Hlevels as [Hlevel Hlevels].
    destruct Hd' as (data & logData' & Hm & Hsafe & Hun & Hkey & Hm').
    destruct (process_entry_spools e w r err data Hr Hf Hclass Ho Hwr Hlevel Hm)
      as (w1 & Hstep & Hr1 & Hsame & Ho1 & Hwr1 & Hfiles1).
    assert (Hclock : clock w1 = clock w) by apply Hsame.
    destruct (IH w1 r err key payloads' (before ++ [data])) as
      (w' & lines & Hrest & Hr' & Hsame' & Ho' & Hfile' & Hsome & Hsafe' & Hgood & Hkeys
       & Hcmds); try done.
    + eapply Forall2_impl; [exact Hre|]. intros x y (dx & lx & Hx & ?).
      exists dx, lx. split; [|done]. by rewrite (logData_of_same w w1).
    + rewrite Hclock, Hfiles1, lookup_insert_eq. cbn [default from_option id].
      by rewrite Hold, spool_text_snoc.
    + assert (Hnonempty : (String.length data =? 0)%nat = false).
      { revert Hsafe. unfold line_safe. rewrite !andb_true_iff, !negb_true_iff. tauto. }
      rewrite Hclock in Hfile', Hsome.
      exists w', (data :: lines). split_and!; try done.
      * cbn [process_all]. by rewrite Hstep.
      * eauto using same_process_trans.
      * by rewrite Hfile', <- app_assoc.
      * intros _. apply Hsome. right. rewrite Hfiles1, lookup_insert_eq. eauto.
      * by constructor.
      * cbn. unfold malformed at 1. by rewrite Hun, andb_false_r.
      * cbn. rewrite Hnonempty, Hun. by constructor.
      * cbn. rewrite Hnonempty, Hun. unfold cmds_of. cbn. unfold cmd_of at 1.
        rewrite Hkey, Hm'. cbn. f_equal. exact Hcmds.
Qed.

Lemma sent_to_same_key (key : string) (payloads : list string) :
  sent_to key ((fun d => (key, d)) <$> payloads) = payloads.
Proof.
  unfold sent_to. induction payloads as [|d payloads IH]; [done|].
  cbn. rewrite String.eqb_refl. cbn. by rewrite IH.
Qed.

(** X18: entries the dispatcher processes while the sink refuses
    connections (within one second of the clock, so that they share a
    spool file) come back in order: each becomes a line of the file, and
    once the sink takes commands again one recovery pass over the file
    pushes the replayed payloads so that the list at their key holds them
    last entry first, in front of what it held (the order a direct send
    gives), and removes the file. *)
Theorem outage_is_replayed_in_order (w : world) (r r2 : redis) (err : error)
    (es : list logEntry) (payloads : list string) (key : string) :
  rdb w = Some r ->
  fault r = Some err ->
  isRedisUnavailable err = true ->
  Open_err (spool w) = None ->
  Write_err (spool w) = None ->
  files (spool w) !! ("fallback_" +:+ Format_20060102150405 (clock w) +:+ ".log") = None ->
  es <> [] ->
  Forall (fun e => level e <> "fatal") es ->
  Forall2 (replays_as w key) es payloads ->
  fault r2 = None ->
  (forall s, db r2 !! key <> Some (RString s)) ->
  exists w1 w2 r2',
    process_all es w = Done w1
    /\ is_Some (files (spool w1)
                  !! ("fallback_" +:+ Format_20060102150405 (clock w) +:+ ".log"))
    /\ recover_entry ("fallback_" +:+ Format_20060102150405 (clock w) +:+ ".log")
         (set_rdb (Some r2) w1) = Done w2
    /\ rdb w2 = Some r2'
    /\ items_at r2' key = rev payloads ++ items_at r2 key
    /\ files (spool w2) !! ("fallback_" +:+ Format_20060102150405 (clock w) +:+ ".log") = None.
Proof.
  intros Hr Hf Hclass Ho Hwr Hfresh Hes Hlevels Hre Hf2 Hk2.
  set (name := "fallback_" +:+ Format_20060102150405 (clock w) +:+ ".log") in *.
  destruct (process_all_spools es w r err key payloads [] Hr Hf Hclass Ho Hwr Hlevels Hre)
    as (w1 & lines & Hrun & Hr1 & Hsame & Ho1 & Hfile & Hsome & Hsafe & Hgood & Hkeys & Hcmds).
  { fold name. by rewrite Hfresh. }
  fold name in Hfile, Hsome. cbn [app] in Hfile.
  destruct (Hsome (or_introl Hes)) as [content Hcontent].
  rewrite Hcontent in Hfile. cbn in Hfile. subst content.
  assert (Hopen : os_Open (spool (set_rdb (Some r2) w1)) name = inr (spool_text lines)).
  { unfold os_Open. cbn [spool set_rdb]. by rewrite Ho1, Hcontent. }
  pose proof (ScanLines_spool_text lines Hsafe) as Hscan.
  destruct (recover_file_total (set_rdb (Some r2) w1) r2 name (spool_text lines) eq_refl Hopen)
    as [w2 Hw2].
  { rewrite Hscan. cbn [fst]. eapply Forall_impl; [exact Hkeys|]. intros x ->. eauto. }
  destruct (recover_file_Done (set_rdb (Some r2) w1) w2 r2 name _ eq_refl Hopen Hw2)
    as [Hfiles Hrdb].
  rewrite Hscan in Hfiles, Hrdb. cbn [fst] in Hfiles, Hrdb.
  rewrite Hgood in Hfiles. unfold batch_error in Hfiles. rewrite Hcmds in Hfiles, Hrdb.
  set (cmds := (fun d => (key, d)) <$> payloads) in *.
  assert (Hexec : pipe_Exec r2 cmds
                  = ((run_cmds r2 cmds).1, (run_cmds r2 cmds).2,
                     first_error (run_cmds r2 cmds).2)).
  { unfold pipe_Exec. destruct cmds as [|c cmds'] eqn:Hc; [|by destruct (run_cmds r2 (c :: cmds'))].
    exfalso. unfold cmds in Hc. apply fmap_nil_inv in Hc. subst payloads.
    apply Forall2_nil_inv_r in Hre. done. }
  assert (Hok : first_error (run_cmds r2 cmds).2 = None).
  { apply run_cmds_accepted; [done|]. intros k d s Hin.
    apply list_elem_of_fmap in Hin as (d0 & [= -> ->] & _). apply Hk2. }
  rewrite Hexec in Hfiles, Hrdb. cbn [fst snd] in Hfiles, Hrdb. rewrite Hok in Hfiles.
  destruct (run_cmds_items cmds key r2 Hf2 Hk2) as [Hitems _].
  exists w1, w2, (run_cmds r2 cmds).1. split_and!; try done.
  - unfold recover_entry. unfold name at 1. by rewrite is_fallback_name_spool.
  - rewrite Hitems. unfold cmds. by rewrite sent_to_same_key.
  - rewrite Hfiles. cbn [spool set_rdb]. apply lookup_delete_eq.
Qed.

End outage_extras.

(** ** After the close, and entries that do not marshal *)

Section edge_extras.
Context `{Json}.

Lemma closed_processLogs (a a' : Applogs) :
  processLogs a = Done a' -> closed (logQueue a') = closed (logQueue a).
Proof.
  unfold processLogs. destruct (consumer a) as [|[e|]|]; try (by intros [= <-]).
  - destruct (process_entry e (globals a)); cbn; try discriminate. by intros [= <-].
  - intros [= <-]. unfold receive. by destruct (buf (logQueue a)).
Qed.

Lemma perform_closed (acts : list action) :
  forall a a',
  closed (logQueue a) = true ->
  perform acts a = Done a' ->
  Forall (fun act => act = Dispatch) acts /\ closed (logQueue a') = true.
Proof.
  induction acts as [|act acts IH]; intros a a' Hclosed; cbn [perform].
  - by intros [= <-].
  - destruct act as [e| |].
    + unfold logAsync. by rewrite Hclosed.
    + destruct (processLogs a) as [a1| |] eqn:Hmove; cbn; try discriminate.
      intros Hrest. pose proof (closed_processLogs a a1 Hmove) as Hc.
      destruct (IH a1 a') as [Hall Hc']; [congruence|done|]. split; [by constructor|done].
    + unfold StopLogger. by rewrite Hclosed.
Qed.

(** X19: [StopLogger] is final.  Once it has returned, whatever the
    dispatcher does afterwards, the queue stays closed: every later
    producer call panics with [send on closed channel] and a second
    [StopLogger] panics with [close of closed channel]; a sequence of
    actions that returns after the close holds dispatcher moves only. *)
Theorem StopLogger_is_final (a a1 a2 : Applogs) (acts : list action) :
  StopLogger a = Done a1 ->
  perform acts a1 = Done a2 ->
  Forall (fun act => act = Dispatch) acts
  /\ (forall level message fields,
        logAsync level message fields a2 = Panic "send on closed channel")
  /\ StopLogger a2 = Panic "close of closed channel".
Proof.
  intros Hstop Hacts.
  assert (Hclosed : closed (logQueue a1) = true).
  { revert Hstop. unfold StopLogger. destruct (closed (logQueue a)); [discriminate|].
    by intros [= <-]. }
  destruct (perform_closed acts a1 a2 Hclosed Hacts) as [Hall Hclosed2].
  split; [done|]. split.
  - intros l m f. unfold logAsync. by rewrite Hclosed2.
  - unfold StopLogger. by rewrite Hclosed2.
Qed.

(** X20: a panic value that [json.Marshal] refuses makes the entry of
    [LogPanic] vanish.  On an open queue with room the call returns as
    for any entry, the entry joining the pending ones; when the
    dispatcher comes to it, the record does not marshal: nothing is sent
    to the sink and nothing is written to the fallback store, whether or
    not a client is set; what is left is two lines of the structured log,
    the marshalling error and the entry itself. *)
Theorem LogPanic_entry_that_does_not_marshal (a : Applogs) (panicData : any)
    (method url clientIP : string) (err : error) :
  chan_ok a ->
  closed (logQueue a) = false ->
  (length (buf (logQueue a)) < cap (logQueue a))%nat ->
  json_Marshal
    (logData_of "error" "Recovered from panic"
       (Some (panic_fields panicData method url clientIP (clock (globals a)))) (globals a))
  = inl err ->
  exists a',
    LogPanic panicData method url clientIP a = Done a'
    /\ globals a' = globals a
    /\ pending a'
       = pending a
         ++ [MkLogEntry "error" "Recovered from panic"
               (Some (panic_fields panicData method url clientIP (clock (globals a))))]
    /\ forall w,
         same_process (globals a) w ->
         exists w',
           process_entry
             (MkLogEntry "error" "Recovered from panic"
                (Some (panic_fields panicData method url clientIP (clock (globals a))))) w
           = Done w'
           /\ rdb w' = rdb w
           /\ spool w' = spool w
           /\ logger w'
              = logger w
                ++ [MkEntry ErrorLevel "Failed to marshal log data to JSON" [zap_Error err];
                    MkEntry ErrorLevel "Recovered from panic"
                      [zap_Any "metadata"
                         (VMap (panic_fields panicData method url clientIP
                                  (clock (globals a))))]].
Proof.
  intros Hok Hopen Hroom Hm.
  destruct (logAsync_accepts a "error" "Recovered from panic"
              (Some (panic_fields panicData method url clientIP (clock (globals a))))
              Hok Hopen Hroom) as (a' & Hcall & Hpend & Hglob & _).
  exists a'. split; [exact Hcall|]. split; [done|]. split; [done|].
  intros w Hsame. unfold process_entry, LogToRedis. cbn [level message fields].
  rewrite (logData_of_same _ _ _ _ _ Hsame), Hm. cbn [mbind result_bind].
  eexists. split; [reflexivity|]. unfold zap_log. cbn. by rewrite <- app_assoc.
Qed.

End edge_extras.

(** ** Every call is sent on or reported dropped *)

Section accounting_extras.
Context `{Json}.

Lemma drops_zap_log (lvl : Level) (msg : string) (fs : list Field) (w : world) :
  drops (zap_log lvl msg fs w)
  = drops w ++ (if is_drop_warning (MkEntry lvl msg fs) then [MkEntry lvl msg fs] else []).
Proof. unfold drops, zap_log. cbn [logger set_logger]. by rewrite List.filter_app. Qed.

Lemma process_entry_drops (e : logEntry) (w w' : world) :
  sink_ready w -> sendable w e -> process_entry e w = Done w' -> drops w' = drops w.
Proof.
  intros (r & Hr & Hf & Hk) [Hm Hlevel]. unfold process_entry.
  destruct (json_Marshal (logData_of (level e) (message e) (fields e) w)) as [err|data] eqn:Hdata;
    [by destruct Hm|].
  rewrite (LogToRedis_ready w _ _ _ data r Hdata Hr Hf Hk). cbn [mbind result_bind].
  repeat (match goal with
          | |- context [String.eqb ?a ?b] => destruct (String.eqb_spec a b)
          end;
          [try (intros [= <-]; rewrite drops_zap_log; cbn; by rewrite app_nil_r)|]).
  by intros [= <-].
Qed.

Lemma move_drops (a a' : Applogs) :
  steady a -> processLogs a = Done a' -> drops (globals a') = drops (globals a).
Proof.
  intros (_ & _ & Hsink & Hsend). unfold processLogs.
  destruct (consumer a) as [|[e|]|] eqn:Hcons; try (by intros [= <-]).
  - unfold pending in Hsend. rewrite Hcons in Hsend. apply Forall_cons in Hsend as [He _].
    destruct (process_entry e (globals a)) as [w'| |] eqn:Hp; try discriminate.
    intros [= <-]. cbn. eauto using process_entry_drops.
  - intros [= <-]. unfold receive. by destruct (buf (logQueue a)).
Qed.

Lemma drain_drops (fuel : nat) :
  forall a a', steady a -> drain fuel a = Done a' -> drops (globals a') = drops (globals a).
Proof.
  induction fuel as [|fuel IH]; intros a a' Hst; cbn [drain]; [by intros [= <-]|].
  destruct (consumer a) as [|cur|] eqn:Hcons; try (by intros [= <-]).
  destruct (move_steady a Hst) as (a1 & Hmove & Hst1 & _).
  rewrite Hmove. cbn [mbind result_bind]. intros Hd.
  rewrite (IH a1 a' Hst1 Hd). eauto using move_drops.
Qed.

Lemma sink_ready_zap_log (lvl : Level) (msg : string) (fs : list Field) (w : world) :
  sink_ready w -> sink_ready (zap_log lvl msg fs w).
Proof. intros (r & Hr & Hf & Hk). by exists r. Qed.

(** A call on a steady client: the entry joins the pending ones, or the
    buffer is full and the call records the warning. *)
Lemma call_accounted (a : Applogs) (e : logEntry) :
  steady a ->
  sendable (globals a) e ->
  exists a',
    logAsync (level e) (message e) (fields e) a = Done a'
    /\ steady a'
    /\ same_process (globals a) (globals a')
    /\ ((eventual a' = payload (globals a) e :: eventual a
         /\ drops (globals a') = drops (globals a))
        \/ (eventual a' = eventual a
            /\ drops (globals a') = drops (globals a) ++ [drop_warning e])).
Proof.
  intros Hst He. pose proof Hst as (Hok & Hopen & Hsink & Hsend).
  destruct (Nat.ltb_spec (length (buf (logQueue a))) (cap (logQueue a))) as [Hroom|Hfull].
  { destruct (call_steady a e Hst He Hroom) as (a' & Hcall & Hst' & Hglob & Hev & _).
    exists a'. split; [done|]. split; [done|]. rewrite Hglob.
    split; [apply same_process_refl|]. by left. }
  pose proof Hok as (Hlen & Hpark & Hret).
  unfold logAsync. rewrite Hopen.
  destruct (consumer a) as [|cur|] eqn:Hcons.
  - destruct (Hpark eq_refl) as [Hbuf _].
    eexists. split; [reflexivity|]. split; [|split; [apply same_process_refl|left]].
    + split; [|split; [done|split; [done|]]].
      * unfold chan_ok. cbn. repeat split; (done || discriminate).
      * unfold pending. cbn. rewrite Hbuf. constructor; [by destruct e|constructor].
    + split; [|done]. unfold eventual, pending. cbn. rewrite ?Hcons, Hbuf. cbn.
      by destruct e.
  - apply Nat.ltb_ge in Hfull. rewrite Hfull.
    eexists. split; [reflexivity|]. split; [|split; [done|right]].
    + split; [|split; [done|split]].
      * unfold chan_ok. cbn. rewrite ?Hcons. repeat split; (done || discriminate).
      * by apply sink_ready_zap_log.
      * unfold pending in *. cbn. by rewrite ?Hcons in *.
    + split; [|cbn [globals]; rewrite drops_zap_log; reflexivity].
      unfold eventual, pending. cbn. by rewrite ?Hcons.
  - destruct (Hret eq_refl) as [_ Hc]. congruence.
Qed.

Lemma run_accounted (evs : list event) :
  forall a,
  steady a ->
  Forall (sendable (globals a)) (calls evs) ->
  exists a' sent dropped,
    run evs a = Done a'
    /\ steady a'
    /\ same_process (globals a) (globals a')
    /\ interleave sent dropped (calls evs)
    /\ eventual a' = rev (payload (globals a) <$> sent) ++ eventual a
    /\ drops (globals a') = drops (globals a) ++ (drop_warning <$> dropped).
Proof.
  induction evs as [|[e|] evs IH]; intros a Hst Hsend; cbn [run calls] in *.
  - exists a, [], []. split_and!; try done; try apply same_process_refl; try constructor.
    cbn. by rewrite app_nil_r.
  - apply Forall_cons in Hsend as [He Hsend].
    destruct (call_accounted a e Hst He) as (a1 & -> & Hst1 & Hsame1 & Hcase).
    cbn [mbind result_bind].
    destruct (IH a1 Hst1) as (a' & sent & dropped & -> & Hst' & Hsame & Hmix & Hev & Hdrops).
    { eapply Forall_impl; [exact Hsend|]. intros x. by apply sendable_same. }
    rewrite (list_fmap_ext (payload (globals a1)) (payload (globals a)) sent) in Hev
      by (intros; by apply payload_same).
    destruct Hcase as [[Hev1 Hdrops1]|[Hev1 Hdrops1]].
    + exists a', (e :: sent), dropped. split_and!; try done.
      * eauto using same_process_trans.
      * by constructor.
      * rewrite Hev, Hev1. cbn [fmap list_fmap rev]. by rewrite <- app_assoc.
      * by rewrite Hdrops, Hdrops1.
    + exists a', sent, (e :: dropped). split_and!; try done.
      * eauto using same_process_trans.
      * by constructor.
      * by rewrite Hev, Hev1.
      * rewrite Hdrops, Hdrops1. cbn [fmap list_fmap]. by rewrite <- app_assoc.
  - destruct (move_steady a Hst) as (a1 & Hmove & Hst1 & Hsame1 & Hev1 & _).
    rewrite Hmove. cbn [mbind result_bind].
    destruct (IH a1 Hst1) as (a' & sent & dropped & -> & Hst' & Hsame & Hmix & Hev & Hdrops).
    { eapply Forall_impl; [exact Hsend|]. intros x. by apply sendable_same. }
    rewrite (list_fmap_ext (payload (globals a1)) (payload (globals a)) sent) in Hev
      by (intros; by apply payload_same).
    exists a', sent, dropped. split_and!; try done.
    + eauto using same_process_trans.
    + by rewrite Hev, Hev1.
    + rewrite Hdrops. by rewrite (move_drops a a1).
Qed.

(** X16: from a fresh logger of any queue size, under any interleaving of
    producer calls and dispatcher moves, with a sink that takes commands:
    every call returns, and each entry is either sent on or reported
    dropped, never both and never neither.  The calls split, in order,
    into the entries sent and the entries dropped; the structured log
    gains one drop warning for each dropped entry, in order; and once the
    dispatcher has emptied the queue the list at the key of the process
    holds the payloads of the entries sent, last one first, in front of
    what it held. *)
Theorem every_call_is_sent_or_reported_dropped (queueSize : Z) (w : world)
    (evs : list event) :
  sink_ready w ->
  Forall (sendable w) (calls evs) ->
  (0 <= queueSize)%Z ->
  exists a a1 sent dropped,
    NewLogger queueSize w = Done a
    /\ run evs a = Done a1
    /\ interleave sent dropped (calls evs)
    /\ drops (globals a1) = drops w ++ (drop_warning <$> dropped)
    /\ forall fuel, (moves_left a1 <= fuel)%nat ->
       exists a2,
         drain fuel a1 = Done a2
         /\ consumer a2 = Parked
         /\ buf (logQueue a2) = []
         /\ drops (globals a2) = drops (globals a1)
         /\ sink_items (process_key w) (globals a2)
            = rev (payload w <$> sent) ++ sink_items (process_key w) w.
Proof.
  intros Hsink Hsend Hsize.
  assert (Hnew : NewLogger queueSize w
                 = Done (MkApplogs (MkChan [] (Z.to_nat queueSize) false) (Running None) w)).
  { unfold NewLogger. destruct (Z.ltb_spec queueSize 0); [lia|done]. }
  pose proof (steady_NewLogger _ _ _ Hsink Hnew) as Hst.
  destruct (run_accounted evs _ Hst) as (a1 & sent & dropped & Hrun & Hst1 & Hsame1 & Hmix & Hev1 & Hdrops);
    [done|].
  eexists _, a1, sent, dropped. split; [exact Hnew|]. split; [exact Hrun|].
  split; [exact Hmix|]. split; [exact Hdrops|].
  intros fuel Hfuel.
  destruct (drain_steady fuel a1 Hst1 Hfuel) as (a2 & Hdrain & Hpark & Hpend & Hsame2 & Hev2).
  exists a2. split; [done|]. split; [done|].
  assert (Hbuf : buf (logQueue a2) = []).
  { revert Hpend. unfold pending. by rewrite Hpark. }
  split; [done|]. split; [eauto using drain_drops|].
  cbn in Hsame1, Hev1.
  assert (Hsame : same_process w (globals a2)) by eauto using same_process_trans.
  unfold eventual in Hev2 at 1. rewrite Hpend in Hev2. cbn in Hev2.
  rewrite (process_key_same _ _ Hsame) in Hev2. rewrite Hev2, Hev1.
  unfold eventual, pending. cbn. done.
Qed.

End accounting_extras.

(** ** Instances on the reference codec *)

Section more_witnesses.
Import JsonRef Scenario Cases.

Lemma sink_ready_w0 : sink_ready w0.
Proof.
  exists healthy. split; [reflexivity|]. split; [reflexivity|].
  intros s. vm_compute. discriminate.
Defined.

Lemma chan_ok_busy : chan_ok busy /\ chan_ok doomed.
Proof.
  unfold chan_ok. cbn. split; (split; [lia|]); split; discriminate.
Defined.

Lemma sink_list_newest_first_witness :
  exists a a1,
    NewLogger 10 w0 = Done a
    /\ run [Call (MkLogEntry "info" "a" None); Move; Move; Move;
            Call (MkLogEntry "warn" "b" None); Call (MkLogEntry "error" "c" None); Move] a
       = Done a1
    /\ forall fuel, (moves_left a1 <= fuel)%nat ->
       exists a2,
         drain fuel a1 = Done a2
         /\ consumer a2 = Parked
         /\ buf (logQueue a2) = []
         /\ sink_items (process_key w0) (globals a2)
            = rev (payload w0 <$> [MkLogEntry "info" "a" None; MkLogEntry "warn" "b" None;
                                   MkLogEntry "error" "c" None])
              ++ sink_items (process_key w0) w0.
Proof.
  apply (sink_list_newest_first 10 w0
           [Call (MkLogEntry "info" "a" None); Move; Move; Move;
            Call (MkLogEntry "warn" "b" None); Call (MkLogEntry "error" "c" None); Move]).
  - exact sink_ready_w0.
  - repeat constructor; try discriminate; vm_compute; eauto.
  - cbn. lia.
Defined.

Lemma queue_never_exceeds_capacity_witness :
  exists a a',
    NewLogger 2 w0 = Done a
    /\ perform [Produce (MkLogEntry "info" "a" None); Produce (MkLogEntry "warn" "b" None);
                Produce (MkLogEntry "error" "c" None); Dispatch; Stop; Dispatch] a = Done a'
    /\ (length (buf (logQueue a')) <= Z.to_nat 2)%nat
    /\ cap (logQueue a') = Z.to_nat 2
    /\ chan_ok a'.
Proof.
  assert (Hp : { a' | perform [Produce (MkLogEntry "info" "a" None);
                               Produce (MkLogEntry "warn" "b" None);
                               Produce (MkLogEntry "error" "c" None); Dispatch; Stop; Dispatch]
                              (MkApplogs (MkChan [] 2 false) (Running None) w0) = Done a' })
    by (eexists; vm_compute; reflexivity).
  destruct Hp as [a' Hp].
  exists (MkApplogs (MkChan [] 2 false) (Running None) w0), a'.
  split; [reflexivity|]. split; [exact Hp|].
  exact (queue_never_exceeds_capacity 2 w0 _ _ a' eq_refl Hp).
Defined.

Lemma batch_key_separates_identities_witness :
  batch_key (record_of (line_of "info" "a" None))
    = batch_key (record_of (line_of "warn" "b" None))
  /\ ("fac", "worker", "svc", "i-1") = ("fac", "worker", "svc", "i-1").
Proof.
  assert (Hk : batch_key (record_of (line_of "info" "a" None))
               = batch_key (record_of (line_of "warn" "b" None)))
    by (vm_compute; reflexivity).
  split; [exact Hk|].
  refine (proj1 batch_key_separates_identities
            (record_of (line_of "info" "a" None)) (record_of (line_of "warn" "b" None))
            "fac" "worker" "svc" "i-1" "fac" "worker" "svc" "i-1"
            _ _ eq_refl eq_refl eq_refl eq_refl eq_refl eq_refl Hk);
    vm_compute; reflexivity.
Defined.

Lemma logToFallback_writes_a_spool_name_witness :
  Open_err (spool w_down) = None
  /\ exists name,
       is_fallback_name name = true
       /\ is_Some (files (spool (logToFallback (logData_of "info" "a" None w_down) w_down))
                   !! name)
       /\ forall q, q <> name ->
            files (spool (logToFallback (logData_of "info" "a" None w_down) w_down)) !! q
            = files (spool w_down) !! q.
Proof.
  split; [reflexivity|].
  exact (logToFallback_writes_a_spool_name (logData_of "info" "a" None w_down) w_down eq_refl).
Defined.

Lemma pushBatchToRedis_returns_or_panics_witness :
  rdb w0 = Some healthy
  /\ ((Forall (fun logData => is_Some (batch_key logData))
              [record_of (line_of "warn" "b" None); ∅]
       /\ exists w', pushBatchToRedis [record_of (line_of "warn" "b" None); ∅] w0
                     = Done (w', batch_error healthy [record_of (line_of "warn" "b" None); ∅]))
      \/ (Exists (fun logData => batch_key logData = None)
                 [record_of (line_of "warn" "b" None); ∅]
          /\ pushBatchToRedis [record_of (line_of "warn" "b" None); ∅] w0
             = Panic "interface conversion: interface {} is not string")).
Proof.
  split; [reflexivity|].
  exact (pushBatchToRedis_returns_or_panics
           [record_of (line_of "warn" "b" None); ∅] w0 healthy eq_refl).
Defined.

Lemma process_entry_only_adds_witness :
  exists w',
    process_entry (MkLogEntry "info" "a" None) w_down = Done w'
    /\ same_process w_down w'
    /\ fallbackPath w' = fallbackPath w_down
    /\ (exists more, logger w' = logger w_down ++ more)
    /\ (forall r, rdb w_down = Some r ->
          exists r', rdb w' = Some r' /\ fault r' = fault r
                     /\ forall k, exists more, items_at r' k = more ++ items_at r k)
    /\ (forall q content, files (spool w_down) !! q = Some content ->
          exists more, files (spool w') !! q = Some (content +:+ more)).
Proof.
  assert (Hp : { w' | process_entry (MkLogEntry "info" "a" None) w_down = Done w' })
    by (eexists; vm_compute; reflexivity).
  destruct Hp as [w' Hp]. exists w'. split; [exact Hp|].
  exact (process_entry_only_adds (MkLogEntry "info" "a" None) w_down w' Hp).
Defined.

Lemma recovery_leaves_other_files_witness :
  exists w',
    cycles 2 w_spooled = Done w'
    /\ files (spool w') !! "notes.txt" = files (spool w_spooled) !! "notes.txt".
Proof.
  assert (Hp : { w' | cycles 2 w_spooled = Done w' })
    by (eexists; vm_compute; reflexivity).
  destruct Hp as [w' Hp]. exists w'. split; [exact Hp|].
  refine (recovery_leaves_other_files 2 "notes.txt" w_spooled w' eq_refl _ Hp).
  intros p Hq. pose proof (Ext_corrupt p) as Hext. rewrite <- Hq in Hext.
  vm_compute in Hext. discriminate.
Defined.

Lemma spooled_entry_is_replayed_witness :
  exists w1 w2 r2',
    LogToRedis "info" "a" None w_down = Done w1
    /\ files (spool w1) !! "fallback_20250101120000.log"
       = Some (line_of "info" "a" None +:+ newline)
    /\ recover_entry "fallback_20250101120000.log" (set_rdb (Some healthy) w1) = Done w2
    /\ rdb w2 = Some r2'
    /\ items_at r2' "applogs:fac:worker:svc:i-1"
       = line_of "info" "a" None :: items_at healthy "applogs:fac:worker:svc:i-1"
    /\ files (spool w2) !! "fallback_20250101120000.log" = None.
Proof.
  refine (spooled_entry_is_replayed w_down "info" "a" None down healthy refused
            (line_of "info" "a" None) (line_of "info" "a" None)
            "applogs:fac:worker:svc:i-1" (record_of (line_of "info" "a" None))
            eq_refl eq_refl _ eq_refl eq_refl _ _ _ _ _ _ eq_refl _);
    try (vm_compute; reflexivity).
  intros s. vm_compute. discriminate.
Defined.

Lemma clean_cycle_empties_the_spool_witness :
  exists w',
    recoverFallbackLogs w_spooled = Done w'
    /\ (forall q, is_fallback_name q = true -> files (spool w') !! q = None)
    /\ (forall q, is_fallback_name q = false ->
          files (spool w') !! q = files (spool w_spooled) !! q)
    /\ recoverFallbackLogs w' = Done w'.
Proof.
  refine (clean_cycle_empties_the_spool w_spooled healthy eq_refl _ eq_refl eq_refl _).
  - split; [reflexivity|]. intros k s. vm_compute. discriminate.
  - intros name content Hfile Hname.
    change (files (spool w_spooled))
      with (<[spool_name := two_entries]> (<["notes.txt" := "kept"]> (∅ : gmap string string)))
      in Hfile.
    apply lookup_insert_Some in Hfile as [[<- <-]|[_ Hfile]].
    + split; [vm_compute; reflexivity|].
      apply (bool_decide_unpack _). vm_compute. exact I.
    + apply lookup_insert_Some in Hfile as [[<- <-]|[_ Hfile]].
      * vm_compute in Hname. discriminate.
      * rewrite lookup_empty in Hfile. discriminate.
Defined.

Lemma StopLogger_lets_the_queue_drain_witness :
  exists a1,
    StopLogger busy = Done a1
    /\ forall fuel, (moves_left a1 <= fuel)%nat ->
       exists a2,
         drain fuel a1 = Done a2
         /\ consumer a2 = Returned
         /\ buf (logQueue a2) = []
         /\ sink_items (process_key (globals busy)) (globals a2)
            = rev (payload (globals busy) <$> pending busy)
              ++ sink_items (process_key (globals busy)) (globals busy).
Proof.
  refine (StopLogger_lets_the_queue_drain busy _ eq_refl).
  split; [exact (proj1 chan_ok_busy)|]. split; [exact sink_ready_w0|].
  repeat constructor; try discriminate; vm_compute; eauto.
Defined.

Lemma fatal_entry_ends_the_process_witness : drain 6 doomed = Exit 1.
Proof.
  refine (fatal_entry_ends_the_process doomed (Some (MkLogEntry "info" "a" None))
            [MkLogEntry "info" "a" None; MkLogEntry "warn" "b" None]
            [MkLogEntry "error" "c" None] (MkLogEntry "fatal" "x" None) 6
            _ eq_refl eq_refl _ eq_refl _).
  - by eexists.
  - repeat constructor; discriminate.
  - cbn. lia.
Defined.

End more_witnesses.

(** ** Initialisation *)

Section init_extras.
Context `{Quoting}.

Lemma digit_string_head (d : Decimal.uint) :
  d <> Decimal.Nil ->
  exists c rest,
    NilEmpty.string_of_uint d = String c rest
    /\ Ascii.eqb c "-"%char = false /\ Ascii.eqb c "+"%char = false.
Proof.
  intros Hd. destruct d; [done|..]; cbn; eauto.
Qed.

Lemma Atoi_digits (d : Decimal.uint) :
  d <> Decimal.Nil ->
  (Z.of_uint d <= strconv.MaxInt)%Z ->
  strconv.Atoi (NilEmpty.string_of_uint d) = inr (Z.of_uint d).
Proof.
  intros Hd Hmax. destruct (digit_string_head d Hd) as (c & rest & Hs & Hm & Hp).
  unfold strconv.Atoi. rewrite Hs, Hm, Hp. cbn [orb]. rewrite <- Hs, NilEmpty.usu.
  assert (0 <= Z.of_uint d)%Z by (unfold Z.of_uint; lia).
  destruct (Z.leb_spec strconv.MinInt (Z.of_uint d)); [|unfold strconv.MinInt in *; lia].
  destruct (Z.leb_spec (Z.of_uint d) strconv.MaxInt); [done|lia].
Qed.

(** [Atoi] reads back what [Itoa] writes, for every [int]. *)
Lemma Atoi_Itoa (n : Z) :
  (strconv.MinInt <= n <= strconv.MaxInt)%Z ->
  strconv.Atoi (strconv.Itoa n) = inr n.
Proof.
  intros Hn. unfold strconv.Itoa. destruct n as [|p|p]; [done|..].
  - cbn [Z.to_int NilZero.string_of_int].
    pose proof (DecimalPos.Unsigned.to_uint_nonnil p) as Hnil.
    assert (Hv : Z.of_uint (Pos.to_uint p) = Z.pos p).
    { unfold Z.of_uint. by rewrite DecimalPos.Unsigned.of_to. }
    unfold NilZero.string_of_uint.
    destruct (Pos.to_uint p) eqn:Hd; [done|..];
      rewrite <- Hd in *; rewrite Atoi_digits, Hv; try done; lia.
  - cbn [Z.to_int NilZero.string_of_int].
    pose proof (DecimalPos.Unsigned.to_uint_nonnil p) as Hnil.
    assert (Hv : Z.of_uint (Pos.to_uint p) = Z.pos p).
    { unfold Z.of_uint. by rewrite DecimalPos.Unsigned.of_to. }
    assert (Hs : NilZero.string_of_uint (Pos.to_uint p)
                 = NilEmpty.string_of_uint (Pos.to_uint p)).
    { unfold NilZero.string_of_uint. by destruct (Pos.to_uint p). }
    rewrite Hs. destruct (digit_string_head _ Hnil) as (c & rest & Hc & _ & _).
    unfold strconv.Atoi. cbn [Ascii.eqb Bool.eqb orb]. rewrite Hc, <- Hc, NilEmpty.usu, Hv.
    destruct (Z.leb_spec strconv.MinInt (- Z.pos p)); [|lia].
    destruct (Z.leb_spec (- Z.pos p) strconv.MaxInt); [done|unfold strconv.MaxInt in *; lia].
Qed.

Lemma Itoa_not_empty (n : Z) :
  (strconv.MinInt <= n <= strconv.MaxInt)%Z -> String.eqb (strconv.Itoa n) EmptyString = false.
Proof.
  intros Hn. pose proof (Atoi_Itoa n Hn) as Ha.
  destruct (strconv.Itoa n); [discriminate|done].
Qed.

Lemma getEnvAsInt_Itoa (env : gmap string string) (key : string) (defaultValue n : Z)
    (p : package) :
  (strconv.MinInt <= n <= strconv.MaxInt)%Z ->
  env !! key = Some (strconv.Itoa n) ->
  getEnvAsInt env key defaultValue p = Done (n, p).
Proof.
  intros Hn Hkey. unfold getEnvAsInt, os_Getenv. rewrite Hkey.
  change (default EmptyString (Some (strconv.Itoa n))) with (strconv.Itoa n).
  by rewrite Itoa_not_empty, Atoi_Itoa.
Qed.

Lemma wrap64_small (z : Z) : (- 2 ^ 63 <= z < 2 ^ 63)%Z -> wrap64 z = z.
Proof. intros Hz. unfold wrap64. rewrite Z.mod_small; lia. Qed.

(** X12: [InitApplogs] takes the two intervals as the environment writes
    them, for every [int], zero and negative ones included: the decimal
    text of [n] and [k] sets the resync time to [n] and the keep time to
    [k], whether or not a logger exists yet, and the recovery loop it
    starts sleeps [n] seconds between two cycles ([n] times [time.Second]
    as an [int64], which is [n] seconds up to 9223372036). *)
Theorem InitApplogs_takes_the_intervals_as_written (network : string -> redis)
    (env : gmap string string) (p : package) (n k : Z) :
  (strconv.MinInt <= n <= strconv.MaxInt)%Z ->
  (strconv.MinInt <= k <= strconv.MaxInt)%Z ->
  env !! "FALLBACK_RESYNC_TIME" = Some (strconv.Itoa n) ->
  env !! "SYSLOG_KEEP_TIME" = Some (strconv.Itoa k) ->
  exists p',
    InitApplogs network env p = Done p'
    /\ fallbackResyncTime p' = n
    /\ syslogKeepTime p' = k
    /\ logger_nil p' = false
    /\ recovery_loops p' = recovery_loops p ++ [wrap64 (n * time_Second)]
    /\ cleanup_loops p' = S (cleanup_loops p)
    /\ ((-9223372036 <= n <= 9223372036)%Z -> wrap64 (n * time_Second) = (n * time_Second)%Z).
Proof.
  intros Hn Hk Hresync Hkeep. unfold InitApplogs.
  rewrite (getEnvAsInt_Itoa _ _ _ n) by done. cbn [mbind result_bind].
  rewrite (getEnvAsInt_Itoa _ _ _ k) by done. cbn [mbind result_bind].
  unfold pkg_log, checkRedisConnection, SetRedisClient, StartRecoveryProcess, set_vars.
  cbn -[wrap64 Z.mul]. destruct (redis_Ping _); cbn -[wrap64 Z.mul];
    (eexists; split; [reflexivity|]; cbn -[wrap64 Z.mul]; split_and!; try done;
     intros Hsmall; apply wrap64_small; unfold time_Second; lia).
Qed.

(** X13: a client injected with [SetRedisClient] before [InitApplogs]
    (which [NewLogger] calls) is never used: the initialisation runs as if
    the call had not been made, and leaves the package with a client for
    the address of [APPLG_CORE_REDIS], the four identity fields as the
    environment has them (empty when unset), and a fallback path that is
    the one set before, or [logs/fallback] when that was empty. *)
Theorem InitApplogs_replaces_the_client (network : string -> redis)
    (env : gmap string string) (p : package) (client : option redis) :
  InitApplogs network env (SetRedisClient client p) = InitApplogs network env p
  /\ forall p',
       InitApplogs network env p = Done p' ->
       rdb (vars p') = Some (network (os_Getenv env "APPLG_CORE_REDIS"))
       /\ redisAddr p' = os_Getenv env "APPLG_CORE_REDIS"
       /\ serviceName (vars p') = os_Getenv env "SERVICE_NAME"
       /\ instanceID (vars p') = os_Getenv env "INSTANCE_ID"
       /\ facilityID (vars p') = os_Getenv env "FACILITY_ID"
       /\ instanceType (vars p') = os_Getenv env "INSTANCE_TYPE"
       /\ fallbackPath (vars p')
          = (if String.eqb (fallbackPath (vars p)) EmptyString
             then "logs/fallback" else fallbackPath (vars p)).
Proof.
  destruct p as [w nil addr sys resync keep loops cleanups].
  destruct w as [written r svc inst fac typ path d now].
  unfold InitApplogs, getEnvAsInt, checkRedisConnection, pkg_log, ensureLogDirectory,
    SetRedisClient, StartRecoveryProcess, set_vars, set_rdb, set_fallbackPath, zap_log,
    set_logger, redis_Ping.
  cbn -[wrap64 Z.mul strconv.Atoi String.eqb].
  generalize (strconv.Atoi (os_Getenv env "FALLBACK_RESYNC_TIME")).
  generalize (strconv.Atoi (os_Getenv env "SYSLOG_KEEP_TIME")).
  intros a1 a2.
  destruct (String.eqb (os_Getenv env "FALLBACK_RESYNC_TIME") EmptyString),
    (String.eqb (os_Getenv env "SYSLOG_KEEP_TIME") EmptyString), a1, a2, nil;
    cbn -[wrap64 Z.mul String.eqb]; (split; [reflexivity|]);
    intros p' Hp; try discriminate Hp;
    destruct (fault (network (os_Getenv env "APPLG_CORE_REDIS")));
    injection Hp as <-; cbn -[String.eqb]; split_and!; reflexivity.
Qed.

Lemma eqb_not_empty (s : string) : s <> EmptyString -> String.eqb s EmptyString = false.
Proof. by destruct s. Qed.

(** X14: when one of the two interval variables holds a text that is not
    an integer, the first [InitApplogs] of the process panics: the warning
    is sent to the logger before any logger is made.  An [InitApplogs]
    that finds a logger from an earlier call warns and takes the default,
    30 seconds or 72 hours. *)
Theorem InitApplogs_invalid_number (network : string -> redis) (env : gmap string string)
    (p : package) (key s : string) (err : error) :
  key = "FALLBACK_RESYNC_TIME" \/ key = "SYSLOG_KEEP_TIME" ->
  env !! key = Some s ->
  s <> EmptyString ->
  strconv.Atoi s = inl err ->
  (logger_nil p = true -> InitApplogs network env p = Panic nil_dereference)
  /\ (logger_nil p = false ->
      exists p',
        InitApplogs network env p = Done p'
        /\ (key = "FALLBACK_RESYNC_TIME" -> fallbackResyncTime p' = 30)
        /\ (key = "SYSLOG_KEEP_TIME" -> syslogKeepTime p' = 72)
        /\ MkEntry WarnLevel
             "Invalid integer value for environment variable. Using default value."
             [zap_String "key" key; zap_String "value" s; zap_Error err]
           ∈ logger (vars p')).
Proof.
  intros Hkey Henv Hs Herr.
  assert (Hget : os_Getenv env key = s) by (unfold os_Getenv; by rewrite Henv).
  apply eqb_not_empty in Hs.
  destruct p as [w nil addr sys resync keep loops cleanups].
  destruct w as [written r svc inst fac typ path d now].
  unfold InitApplogs, getEnvAsInt, checkRedisConnection, pkg_log, ensureLogDirectory,
    SetRedisClient, StartRecoveryProcess, set_vars, set_rdb, set_fallbackPath, zap_log,
    set_logger, redis_Ping.
  cbn -[wrap64 Z.mul strconv.Atoi String.eqb].
  destruct Hkey as [-> | ->]; rewrite Hget, Hs, Herr.
  - generalize (strconv.Atoi (os_Getenv env "SYSLOG_KEEP_TIME")). intros a2.
    split; intros ->; [done|].
    destruct (String.eqb (os_Getenv env "SYSLOG_KEEP_TIME") EmptyString), a2;
      cbn -[wrap64 Z.mul];
      destruct (fault (network (os_Getenv env "APPLG_CORE_REDIS")));
      (eexists; split; [reflexivity|]; cbn; split_and!; try done; set_solver).
  - generalize (strconv.Atoi (os_Getenv env "FALLBACK_RESYNC_TIME")). intros a1.
    split; intros ->.
    + by destruct (String.eqb (os_Getenv env "FALLBACK_RESYNC_TIME") EmptyString), a1.
    + destruct (String.eqb (os_Getenv env "FALLBACK_RESYNC_TIME") EmptyString), a1;
        cbn -[wrap64 Z.mul];
        destruct (fault (network (os_Getenv env "APPLG_CORE_REDIS")));
        (eexists; split; [reflexivity|]; cbn; split_and!; try done; set_solver).
Qed.

End init_extras.

(** ** Cleanup of the log directories *)

Lemma strip_prefix_Some (pre s r : string) :
  strip_prefix pre s = Some r <-> s = pre +:+ r.
Proof.
  revert s. induction pre as [|a pre IH]; intros s.
  - cbn. change (EmptyString +:+ r) with r. split; congruence.
  - change (String a pre +:+ r) with (String a (pre +:+ r)).
    destruct s as [|b s]; cbn; [split; discriminate|].
    destruct (Ascii.eqb_spec a b) as [->|Hne].
    + rewrite IH. split; congruence.
    + split; [discriminate|congruence].
Qed.

Lemma Join_entry (dir name : string) :
  filepath.Join dir EmptyString +:+ name = filepath.Join dir name.
Proof.
  unfold filepath.Join. induction dir as [|c dir IH]; [done|].
  change (String c dir +:+ ?x) with (String c (dir +:+ x)).
  change (String c ?a +:+ ?x) with (String c (a +:+ x)). by rewrite IH.
Qed.

Lemma entry_of_Some (dir path name : string) :
  entry_of dir path = Some name
  <-> path = filepath.Join dir name /\ name <> EmptyString
      /\ filepath.has_separator name = false.
Proof.
  unfold entry_of. split.
  - destruct (strip_prefix _ path) as [r|] eqn:Hs; [|discriminate].
    apply strip_prefix_Some in Hs. rewrite Join_entry in Hs.
    destruct (String.eqb_spec r EmptyString) as [->|Hr]; [discriminate|].
    cbn [orb]. destruct (filepath.has_separator r) eqn:Hsep; [discriminate|].
    by intros [= <-].
  - intros (-> & Hname & Hsep).
    assert (Hs : strip_prefix (filepath.Join dir EmptyString) (filepath.Join dir name)
                 = Some name) by (apply strip_prefix_Some; by rewrite Join_entry).
    rewrite Hs, Hsep. by destruct (String.eqb_spec name EmptyString).
Qed.

Lemma has_entries_false (t : gmap string FileInfo) (dir : string) :
  has_entries t dir = false <-> childless t dir.
Proof.
  unfold has_entries, childless. split.
  - intros Hex c [i Hc]. destruct (entry_of dir c) as [name|] eqn:He; [|done].
    exfalso. apply not_true_iff_false in Hex. apply Hex.
    apply existsb_exists. exists c. split.
    + apply list_elem_of_In, list_elem_of_fmap. exists (c, i). split; [done|].
      by apply elem_of_map_to_list.
    + apply bool_decide_eq_true_2. rewrite He. eauto.
  - intros Hch. apply not_true_iff_false. intros Hex.
    apply existsb_exists in Hex as (c & Hin & Hc).
    apply list_elem_of_In, list_elem_of_fmap in Hin as ([c' i] & -> & Hin).
    apply elem_of_map_to_list in Hin. apply bool_decide_eq_true_1 in Hc.
    cbn in Hc. rewrite Hch in Hc by eauto. by destruct Hc.
Qed.

Lemma fs_ReadDir_names (f : fsys) (dir : string) (names : list string) (name : string) :
  fs_ReadDir f dir = inr names ->
  name ∈ names <-> exists path, is_Some (nodes f !! path) /\ entry_of dir path = Some name.
Proof.
  unfold fs_ReadDir. destruct (denied f dir); [discriminate|].
  destruct (nodes f !! dir) as [info|]; [|discriminate].
  destruct (IsDir info); [|discriminate]. intros [= <-].
  rewrite merge_sort_Permutation, list_elem_of_omap. split.
  - intros (path & Hin & He). exists path. split; [|done].
    apply list_elem_of_fmap in Hin as ([k i] & -> & Hin).
    apply elem_of_map_to_list in Hin. eauto.
  - intros (path & [i Hi] & He). exists path. split; [|done].
    apply list_elem_of_fmap. exists (path, i). split; [done|].
    by apply elem_of_map_to_list.
Qed.

Lemma childless_fewer (t t' : gmap string FileInfo) (k : string) :
  (forall c, is_Some (t' !! c) -> is_Some (t !! c)) -> childless t k -> childless t' k.
Proof. intros Hkeys Hch c Hc. apply Hch. auto. Qed.

Lemma evolves_keys (sys : option string) (exp : Z) (t t' : gmap string FileInfo) (c : string) :
  evolves sys exp t t' -> is_Some (t' !! c) -> is_Some (t !! c).
Proof. intros [Ha _] [i' Hc]. destruct (Ha c i' Hc) as (i & -> & _). eauto. Qed.

Lemma evolves_refl (sys : option string) (exp : Z) (t : gmap string FileInfo) :
  evolves sys exp t t.
Proof.
  split.
  - intros k i' Hk. exists i'. done.
  - intros k i Hk Hk'. congruence.
Qed.

Lemma evolves_trans (sys : option string) (exp : Z) (t t1 t2 : gmap string FileInfo) :
  evolves sys exp t t1 -> evolves sys exp t1 t2 -> evolves sys exp t t2.
Proof.
  intros H1 H2.
  pose proof (fun c => evolves_keys _ _ _ _ c H1) as Hkeys1.
  pose proof (fun c => evolves_keys _ _ _ _ c H2) as Hkeys2.
  destruct H1 as [Ha1 Hb1], H2 as [Ha2 Hb2]. split.
  - intros k i2 Hk2. destruct (Ha2 k i2 Hk2) as (i1 & Hk1 & Hd2 & Hsame2).
    destruct (Ha1 k i1 Hk1) as (i & Hk & Hd1 & Hsame1).
    exists i. split; [done|]. split; [congruence|]. intros Hch Hsys.
    rewrite Hsame2, Hsame1; eauto using childless_fewer.
  - intros k i Hk Hk2. destruct (t1 !! k) as [i1|] eqn:Hk1.
    + destruct (Ha1 k i1 Hk1) as (i0 & Hk0 & Hd1 & Hsame1).
      assert (i0 = i) as -> by congruence.
      destruct (Hb2 k i1 Hk1 Hk2) as [Hold Hgone]. split.
      * intros Hch Hsys. rewrite <- (Hsame1 Hch Hsys). eauto using childless_fewer.
      * intros Hdir. apply Hgone. congruence.
    + destruct (Hb1 k i Hk Hk1) as [Hold Hgone]. split; [done|].
      intros Hdir. eauto using childless_fewer.
Qed.

(** A write to the syslog file. *)
Lemma evolves_write (sys : option string) (exp now : Z) (t : gmap string FileInfo) :
  evolves sys exp t
    (match sys with
     | Some path => alter (fun info => MkFileInfo now (IsDir info)) path t
     | None => t
     end).
Proof.
  destruct sys as [path|]; [|apply evolves_refl]. split.
  - intros k i' Hk. rewrite lookup_alter in Hk. case_decide as Hpath.
    + subst k. destruct (t !! path) as [i|] eqn:Hi; [|discriminate].
      cbn in Hk. injection Hk as <-. exists i. split; [done|]. split; [done|].
      intros _ Hsys. done.
    + rewrite Hk. exists i'. done.
  - intros k i Hk Hk'. rewrite lookup_alter in Hk'. case_decide; [|congruence].
    subst k. by rewrite Hk in Hk'.
Qed.

Lemma lookup_touch_parent (now : Z) (path k : string) (t : gmap string FileInfo) :
  touch_parent now path t !! k
  = (fun info => match entry_of k path with
                 | Some _ => MkFileInfo now (IsDir info)
                 | None => info
                 end) <$> t !! k.
Proof.
  unfold touch_parent. rewrite map_lookup_imap. by destruct (t !! k).
Qed.

(** A removal that went through. *)
Lemma evolves_remove (sys : option string) (exp now : Z) (path : string)
    (f f' : fsys) (info : FileInfo) :
  nodes f !! path = Some info ->
  ModTime info < exp ->
  fs_Remove now path f = (f', None) ->
  evolves sys exp (nodes f) (nodes f')
  /\ nodes f' !! path = None
  /\ denied f' = denied f.
Proof.
  intros Hpath Hold. unfold fs_Remove. destruct (denied f path); [discriminate|].
  rewrite Hpath. destruct (IsDir info && has_entries (nodes f) path) eqn:Hempty;
    [discriminate|].
  intros [= <-]. cbn [nodes denied]. split; [|split; [|done]].
  - split.
    + intros k i' Hk. rewrite lookup_touch_parent in Hk.
      destruct (decide (k = path)) as [->|Hne].
      { by rewrite lookup_delete_eq in Hk. }
      rewrite lookup_delete_ne in Hk by done.
      destruct (nodes f !! k) as [i|] eqn:Hi; [|discriminate]. cbn in Hk.
      exists i. split; [done|]. split.
      * injection Hk as <-. by destruct (entry_of k path).
      * intros Hch _. rewrite (Hch path) in Hk by eauto. congruence.
    + intros k i Hk Hk'. rewrite lookup_touch_parent in Hk'.
      destruct (decide (k = path)) as [->|Hne].
      * assert (i = info) as -> by congruence. split; [done|].
        intros Hdir. rewrite Hdir in Hempty. cbn in Hempty.
        apply has_entries_false in Hempty.
        eapply childless_fewer; [|exact Hempty].
        intros c [x Hc]. rewrite lookup_touch_parent in Hc.
        destruct (decide (c = path)) as [->|Hc'].
        { by rewrite lookup_delete_eq in Hc. }
        rewrite lookup_delete_ne in Hc by done. by destruct (nodes f !! c).
      * rewrite lookup_delete_ne, Hk in Hk' by done. discriminate.
  - rewrite lookup_touch_parent, lookup_delete_eq. done.
Qed.

Section cleanup_extras.
Context `{Quoting}.

Lemma settled_refl (h : host) : settled h h.
Proof. by unfold settled. Qed.

Lemma settled_trans (h h1 h2 : host) : settled h h1 -> settled h1 h2 -> settled h h2.
Proof. unfold settled. intros (?&?&?&?&?&?) (?&?&?&?&?&?). split_and!; congruence. Qed.

Lemma host_log_Done (now exp : Z) (lvl : Level) (msg : string) (fs : list Field) (h : host) :
  logger_nil (pkg h) = false ->
  exists h',
    host_log now lvl msg fs h = Done h'
    /\ settled h h'
    /\ evolves (syslog_file h) exp (nodes (tree h)) (nodes (tree h'))
    /\ forall k, nodes (tree h) !! k = None -> nodes (tree h') !! k = None.
Proof.
  intros Hnil. unfold host_log, pkg_log. rewrite Hnil. cbn [mbind result_bind].
  eexists. split; [reflexivity|]. cbn [pkg tree syslog_file nodes denied]. split_and!.
  - by unfold settled.
  - apply evolves_write.
  - intros k Hk. destruct (syslog_file h) as [path|]; [|done].
    rewrite lookup_alter. case_decide; [subst k|done]. by rewrite Hk.
Qed.

Lemma evolves_absent (sys : option string) (exp : Z) (t t' : gmap string FileInfo)
    (k : string) :
  evolves sys exp t t' -> t !! k = None -> t' !! k = None.
Proof.
  intros Hev Hk. destruct (t' !! k) eqn:Hk'; [|done].
  destruct (evolves_keys _ _ _ _ k Hev) as [i Hi]; [eauto|congruence].
Qed.

(** A childless entry other than the syslog file is, later on, as it was
    or gone. *)
Lemma evolves_childless (sys : option string) (exp : Z) (t t' : gmap string FileInfo)
    (k : string) (i : FileInfo) :
  evolves sys exp t t' -> t !! k = Some i -> childless t k -> sys <> Some k ->
  (t' !! k = None \/ t' !! k = Some i) /\ childless t' k.
Proof.
  intros Hev Hk Hch Hsys. split.
  - destruct (t' !! k) as [i'|] eqn:Hk'; [right|by left].
    destruct Hev as [Ha _]. destruct (Ha k i' Hk') as (i0 & Hk0 & _ & Hsame).
    rewrite (Hsame Hch Hsys). congruence.
  - eapply childless_fewer; [|exact Hch]. intros c. by apply evolves_keys with sys exp.
Qed.

Lemma cleanup_entry_spec (now exp : Z) (logDir : string) (h : host) (name : string) :
  logger_nil (pkg h) = false ->
  exists h',
    cleanup_entry now exp logDir h name = Done h'
    /\ settled h h'
    /\ evolves (syslog_file h) exp (nodes (tree h)) (nodes (tree h'))
    /\ forall i,
         nodes (tree h) !! filepath.Join logDir name = Some i ->
         childless (nodes (tree h)) (filepath.Join logDir name) ->
         denied (tree h) (filepath.Join logDir name) = None ->
         ModTime i < exp ->
         nodes (tree h') !! filepath.Join logDir name = None.
Proof.
  intros Hnil. unfold cleanup_entry. set (q := filepath.Join logDir name).
  destruct (fs_Stat (tree h) q) as [err|info] eqn:Hstat.
  - destruct (host_log_Done now exp WarnLevel "Failed to fetch log file info"
                [zap_String "file" q; zap_Error err] h Hnil) as (h' & -> & Hset & Hev & _).
    exists h'. split_and!; try done.
    intros i Hq _ Hden _. unfold fs_Stat in Hstat. by rewrite Hden, Hq in Hstat.
  - assert (Hq : nodes (tree h) !! q = Some info /\ denied (tree h) q = None).
    { unfold fs_Stat in Hstat. destruct (denied (tree h) q); [discriminate|].
      destruct (nodes (tree h) !! q); [|discriminate]. by injection Hstat as ->. }
    destruct Hq as [Hq Hden].
    destruct (Z.ltb_spec (ModTime info) exp) as [Hold|Hyoung].
    + destruct (fs_Remove now q (tree h)) as [t [err|]] eqn:Hrm.
      * destruct (host_log_Done now exp ErrorLevel "Failed to delete old log file"
                    [zap_String "file" q; zap_Error err] h Hnil)
          as (h' & -> & Hset & Hev & _).
        exists h'. split_and!; try done.
        intros i Hi Hch _ _. exfalso. revert Hrm. unfold fs_Remove.
        rewrite Hden, Hq. apply has_entries_false in Hch. rewrite Hch, andb_false_r.
        discriminate.
      * destruct (evolves_remove (syslog_file h) exp now q (tree h) t info Hq Hold Hrm)
          as (Hev & Hgone & Hden').
        destruct (host_log_Done now exp InfoLevel "Deleted old log file"
                    [zap_String "file" q] (MkHost (pkg h) t (syslog_file h)) Hnil)
          as (h' & -> & Hset & Hev' & Habs).
        cbn [pkg tree syslog_file] in *.
        exists h'. split_and!; try done.
        -- revert Hset. unfold settled. cbn [pkg tree syslog_file].
           intros (?&?&?&?&?&?). split_and!; congruence.
        -- by apply evolves_trans with (nodes t).
        -- intros i _ _ _ _. by apply Habs.
    + exists h. split_and!; [done|apply settled_refl|apply evolves_refl|].
      intros i Hi _ _ Hlt. assert (i = info) as -> by congruence. lia.
Qed.

Lemma cleanup_entries_spec (now exp : Z) (logDir : string) (names : list string) (h : host) :
  logger_nil (pkg h) = false ->
  exists h',
    foldlM (cleanup_entry now exp logDir) h names = Done h'
    /\ settled h h'
    /\ evolves (syslog_file h) exp (nodes (tree h)) (nodes (tree h'))
    /\ forall name i,
         name ∈ names ->
         nodes (tree h) !! filepath.Join logDir name = Some i ->
         childless (nodes (tree h)) (filepath.Join logDir name) ->
         syslog_file h <> Some (filepath.Join logDir name) ->
         denied (tree h) (filepath.Join logDir name) = None ->
         ModTime i < exp ->
         nodes (tree h') !! filepath.Join logDir name = None.
Proof.
  revert h. induction names as [|name0 names IH]; intros h Hnil.
  - exists h. split_and!; [done|apply settled_refl|apply evolves_refl|].
    intros name i Hin. by apply elem_of_nil in Hin.
  - destruct (cleanup_entry_spec now exp logDir h name0 Hnil)
      as (h1 & Hstep & Hset1 & Hev1 & Hrm1).
    assert (Hnil1 : logger_nil (pkg h1) = false) by (destruct Hset1 as [-> _]; done).
    destruct (IH h1 Hnil1) as (h' & Hrest & Hset' & Hev' & Hrm').
    assert (Hsys : syslog_file h1 = syslog_file h) by apply Hset1.
    assert (Hden : denied (tree h1) = denied (tree h)) by apply Hset1.
    rewrite Hsys in Hev'.
    exists h'. split_and!.
    + cbn [foldlM]. rewrite Hstep. exact Hrest.
    + by apply settled_trans with h1.
    + by apply evolves_trans with (nodes (tree h1)).
    + intros name i Hin Hq Hch Hnsys Hdenq Hold.
      destruct (evolves_childless _ _ _ _ _ i Hev1 Hq Hch Hnsys) as [[Hgone|Hstill] Hch1].
      { by apply evolves_absent with (syslog_file h) exp (nodes (tree h1)). }
      apply elem_of_cons in Hin as [->|Hin].
      * apply evolves_absent with (syslog_file h) exp (nodes (tree h1)); [done|].
        by apply Hrm1 with i.
      * apply Hrm' with i; try done; congruence.
Qed.

Lemma cleanup_dir_spec (now exp : Z) (h : host) (logDir : string) :
  logger_nil (pkg h) = false ->
  exists h',
    cleanup_dir now exp h logDir = Done h'
    /\ settled h h'
    /\ evolves (syslog_file h) exp (nodes (tree h)) (nodes (tree h'))
    /\ forall di q name i,
         nodes (tree h) !! logDir = Some di -> IsDir di = true ->
         denied (tree h) logDir = None ->
         entry_of logDir q = Some name ->
         nodes (tree h) !! q = Some i ->
         childless (nodes (tree h)) q ->
         syslog_file h <> Some q ->
         denied (tree h) q = None ->
         ModTime i < exp ->
         nodes (tree h') !! q = None.
Proof.
  intros Hnil. unfold cleanup_dir.
  destruct (fs_ReadDir (tree h) logDir) as [err|names] eqn:Hread.
  - destruct (host_log_Done now exp WarnLevel "Failed to read log directory for cleanup"
                [zap_String "directory" logDir; zap_Error err] h Hnil)
      as (h' & -> & Hset & Hev & _).
    exists h'. split_and!; try done.
    intros di q name i Hdir Hisdir Hden. exfalso. revert Hread. unfold fs_ReadDir.
    by rewrite Hden, Hdir, Hisdir.
  - destruct (cleanup_entries_spec now exp logDir names h Hnil)
      as (h' & -> & Hset & Hev & Hrm).
    exists h'. split_and!; try done.
    intros di q name i _ _ _ Hentry Hq Hch Hsys Hden Hold.
    assert (Hin : name ∈ names).
    { apply (fs_ReadDir_names (tree h) logDir names name Hread). eauto. }
    apply entry_of_Some in Hentry as (-> & _ & _). by apply Hrm with i.
Qed.

Lemma cleanup_dirs_spec (now exp : Z) (dirs : list string) (h : host) :
  logger_nil (pkg h) = false ->
  exists h',
    foldlM (cleanup_dir now exp) h dirs = Done h'
    /\ settled h h'
    /\ evolves (syslog_file h) exp (nodes (tree h)) (nodes (tree h'))
    /\ forall logDir di q name i,
         logDir ∈ dirs ->
         nodes (tree h) !! logDir = Some di -> IsDir di = true ->
         denied (tree h) logDir = None ->
         entry_of logDir q = Some name ->
         nodes (tree h) !! q = Some i ->
         childless (nodes (tree h)) q ->
         syslog_file h <> Some q ->
         denied (tree h) q = None ->
         ModTime i < exp ->
         nodes (tree h') !! q = None.
Proof.
  revert h. induction dirs as [|dir0 dirs IH]; intros h Hnil.
  - exists h. split_and!; [done|apply settled_refl|apply evolves_refl|].
    intros logDir di q name i Hin. by apply elem_of_nil in Hin.
  - destruct (cleanup_dir_spec now exp h dir0 Hnil) as (h1 & Hstep & Hset1 & Hev1 & Hrm1).
    assert (Hnil1 : logger_nil (pkg h1) = false) by (destruct Hset1 as [-> _]; done).
    destruct (IH h1 Hnil1) as (h' & Hrest & Hset' & Hev' & Hrm').
    assert (Hsys : syslog_file h1 = syslog_file h) by apply Hset1.
    assert (Hden : denied (tree h1) = denied (tree h)) by apply Hset1.
    rewrite Hsys in Hev'.
    exists h'. split_and!.
    + cbn [foldlM]. rewrite Hstep. exact Hrest.
    + by apply settled_trans with h1.
    + by apply evolves_trans with (nodes (tree h1)).
    + intros logDir di q name i Hin Hdir Hisdir Hdend Hentry Hq Hch Hnsys Hdenq Hold.
      destruct (evolves_childless _ _ _ _ _ i Hev1 Hq Hch Hnsys) as [[Hgone|Hstill] Hch1].
      { by apply evolves_absent with (syslog_file h) exp (nodes (tree h1)). }
      apply elem_of_cons in Hin as [->|Hin].
      * apply evolves_absent with (syslog_file h) exp (nodes (tree h1)); [done|].
        by apply Hrm1 with di name i.
      * destruct (nodes (tree h1) !! logDir) as [di1|] eqn:Hdir1.
        -- destruct Hev1 as [Ha1 _]. destruct (Ha1 logDir di1 Hdir1) as (di0 & Hd0 & Hk & _).
           apply Hrm' with logDir di1 name i; try done; congruence.
        -- destruct Hev1 as [_ Hb1]. destruct (Hb1 logDir di Hdir Hdir1) as [_ Hempty].
           rewrite (Hempty Hisdir q) in Hentry by eauto. discriminate.
Qed.

Lemma expiration_hours (now keep : Z) :
  -2562047 <= keep <= 2562047 -> expiration now keep = now - keep * time_Hour.
Proof.
  intros Hkeep. unfold expiration, time_Hour, time_Second.
  rewrite (wrap64_small (- keep)) by lia. rewrite wrap64_small by lia. lia.
Qed.

(** X15: what [cleanupOldLogs] does to an entry of [logs], of the fallback
    directory or of the syslog directory that has no entries of its own (a
    file of any name, or an empty directory) and is not the file the
    logger writes: with a logger set, the cleanup returns; the entry is
    removed when its modification time is before the expiration instant,
    spool files waiting for recovery and quarantined files included, and
    is left as it was otherwise.  The expiration instant is [now] less the
    keep time in hours, as long as that product fits an [int64]. *)
Theorem cleanupOldLogs_removes_what_is_older (now : Z) (h : host)
    (logDir q name : string) (di i : FileInfo) :
  logger_nil (pkg h) = false ->
  logDir ∈ ["logs"; fallbackPath (vars (pkg h)); syslogsPath (pkg h)] ->
  nodes (tree h) !! logDir = Some di ->
  IsDir di = true ->
  denied (tree h) logDir = None ->
  entry_of logDir q = Some name ->
  nodes (tree h) !! q = Some i ->
  childless (nodes (tree h)) q ->
  syslog_file h <> Some q ->
  denied (tree h) q = None ->
  exists h',
    cleanupOldLogs now h = Done h'
    /\ (ModTime i < expiration now (syslogKeepTime (pkg h)) -> nodes (tree h') !! q = None)
    /\ (expiration now (syslogKeepTime (pkg h)) <= ModTime i ->
        nodes (tree h') !! q = Some i)
    /\ (-2562047 <= syslogKeepTime (pkg h) <= 2562047 ->
        expiration now (syslogKeepTime (pkg h))
        = now - syslogKeepTime (pkg h) * time_Hour).
Proof.
  intros Hnil Hin Hdir Hisdir Hdend Hentry Hq Hch Hsys Hdenq.
  destruct (cleanup_dirs_spec now (expiration now (syslogKeepTime (pkg h)))
              ["logs"; fallbackPath (vars (pkg h)); syslogsPath (pkg h)] h Hnil)
    as (h' & Hrun & _ & Hev & Hrm).
  exists h'. split_and!.
  - exact Hrun.
  - intros Hold. by apply Hrm with logDir di name i.
  - intros Hyoung.
    destruct (evolves_childless _ _ _ _ _ i Hev Hq Hch Hsys) as [[Hgone|Hstill] _]; [|done].
    destruct Hev as [_ Hb]. destruct (Hb q i Hq Hgone) as [Hlt _].
    specialize (Hlt Hch Hsys). lia.
  - apply expiration_hours.
Qed.

End cleanup_extras.

Section more_witnesses_2.
Import JsonRef Scenario Cases.

Lemma every_call_is_sent_or_reported_dropped_witness :
  exists a a1 sent dropped,
    NewLogger 1 w0 = Done a
    /\ run [Call (MkLogEntry "info" "a" None); Call (MkLogEntry "warn" "b" None); Move; Move;
            Call (MkLogEntry "error" "c" None)] a = Done a1
    /\ interleave sent dropped
         (calls [Call (MkLogEntry "info" "a" None); Call (MkLogEntry "warn" "b" None);
                 Move; Move; Call (MkLogEntry "error" "c" None)])
    /\ drops (globals a1) = drops w0 ++ (drop_warning <$> dropped)
    /\ forall fuel, (moves_left a1 <= fuel)%nat ->
       exists a2,
         drain fuel a1 = Done a2
         /\ consumer a2 = Parked
         /\ buf (logQueue a2) = []
         /\ drops (globals a2) = drops (globals a1)
         /\ sink_items (process_key w0) (globals a2)
            = rev (payload w0 <$> sent) ++ sink_items (process_key w0) w0.
Proof.
  apply (every_call_is_sent_or_reported_dropped 1 w0
           [Call (MkLogEntry "info" "a" None); Call (MkLogEntry "warn" "b" None); Move; Move;
            Call (MkLogEntry "error" "c" None)]).
  - exact sink_ready_w0.
  - repeat constructor; try discriminate; vm_compute; eauto.
  - lia.
Defined.

Lemma refused_batch_is_sent_again_witness :
  exists w' r',
    cycles 3 w_refused = Done w'
    /\ files (spool w') = files (spool w_refused)
    /\ rdb w' = Some r'
    /\ items_at r' "applogs:fac:worker:svc:i-1"
       = concat (replicate 3
                   (rev (sent_to "applogs:fac:worker:svc:i-1"
                           (cmds_of (decoded (bufio.ScanLines
                                                (lines [line_of "info" "a" None; line_other])).1)))))
         ++ items_at taken "applogs:fac:worker:svc:i-1".
Proof.
  refine (refused_batch_is_sent_again 3 w_refused taken spool_name
            (lines [line_of "info" "a" None; line_other])
            "applogs:fac:worker:svc:i-2" line_other "x" "applogs:fac:worker:svc:i-1"
            eq_refl eq_refl eq_refl eq_refl _ _ _ _ _ _ _).
  - vm_compute. reflexivity.
  - vm_compute. reflexivity.
  - intros q [content Hfile] Hname.
    change (files (spool w_refused))
      with (<[spool_name := lines [line_of "info" "a" None; line_other]]>
              (<["notes.txt" := "kept"]> (∅ : gmap string string))) in Hfile.
    apply lookup_insert_Some in Hfile as [[<- _]|[_ Hfile]]; [done|].
    apply lookup_insert_Some in Hfile as [[<- _]|[_ Hfile]].
    + vm_compute in Hname. discriminate.
    + rewrite lookup_empty in Hfile. discriminate.
  - split; [vm_compute; reflexivity|].
    apply (bool_decide_unpack _). vm_compute. exact I.
  - apply list_elem_of_In. vm_compute. right. left. reflexivity.
  - vm_compute. reflexivity.
  - intros v. vm_compute. discriminate.
Defined.

Lemma outage_is_replayed_in_order_witness :
  exists w1 w2 r2',
    process_all [MkLogEntry "info" "a" None; MkLogEntry "warn" "b" None] w_down = Done w1
    /\ is_Some (files (spool w1) !! "fallback_20250101120000.log")
    /\ recover_entry "fallback_20250101120000.log" (set_rdb (Some healthy) w1) = Done w2
    /\ rdb w2 = Some r2'
    /\ items_at r2' "applogs:fac:worker:svc:i-1"
       = rev [line_of "info" "a" None; line_of "warn" "b" None]
         ++ items_at healthy "applogs:fac:worker:svc:i-1"
    /\ files (spool w2) !! "fallback_20250101120000.log" = None.
Proof.
  refine (outage_is_replayed_in_order w_down down healthy refused
            [MkLogEntry "info" "a" None; MkLogEntry "warn" "b" None]
            [line_of "info" "a" None; line_of "warn" "b" None]
            "applogs:fac:worker:svc:i-1"
            eq_refl eq_refl _ eq_refl eq_refl _ _ _ _ eq_refl _).
  - vm_compute. reflexivity.
  - vm_compute. reflexivity.
  - discriminate.
  - repeat constructor; discriminate.
  - repeat constructor.
    + exists (line_of "info" "a" None), (record_of (line_of "info" "a" None)).
      split_and!; vm_compute; reflexivity.
    + exists (line_of "warn" "b" None), (record_of (line_of "warn" "b" None)).
      split_and!; vm_compute; reflexivity.
  - intros s. vm_compute. discriminate.
Defined.

Lemma StopLogger_is_final_witness :
  exists a2,
    StopLogger busy = Done stopped
    /\ perform [Dispatch; Dispatch; Dispatch] stopped = Done a2
    /\ Forall (fun act => act = Dispatch) [Dispatch; Dispatch; Dispatch]
    /\ (forall level message fields,
          logAsync level message fields a2 = Panic "send on closed channel")
    /\ StopLogger a2 = Panic "close of closed channel".
Proof.
  assert (H2 : { a2 | perform [Dispatch; Dispatch; Dispatch] stopped = Done a2 })
    by (eexists; vm_compute; reflexivity).
  destruct H2 as [a2 H2].
  exists a2. split; [reflexivity|]. split; [exact H2|].
  exact (StopLogger_is_final busy stopped a2 [Dispatch; Dispatch; Dispatch] eq_refl H2).
Defined.

Lemma LogPanic_entry_that_does_not_marshal_witness :
  exists a',
    LogPanic VChan "GET" "/orders" "10.0.0.7" busy = Done a'
    /\ globals a' = globals busy
    /\ pending a'
       = pending busy
         ++ [MkLogEntry "error" "Recovered from panic"
               (Some (panic_fields VChan "GET" "/orders" "10.0.0.7" (clock (globals busy))))]
    /\ forall w,
         same_process (globals busy) w ->
         exists w',
           process_entry
             (MkLogEntry "error" "Recovered from panic"
                (Some (panic_fields VChan "GET" "/orders" "10.0.0.7" (clock (globals busy))))) w
           = Done w'
           /\ rdb w' = rdb w
           /\ spool w' = spool w
           /\ logger w'
              = logger w
                ++ [MkEntry ErrorLevel "Failed to marshal log data to JSON"
                      [zap_Error (errors_New "json: unsupported type")];
                    MkEntry ErrorLevel "Recovered from panic"
                      [zap_Any "metadata"
                         (VMap (panic_fields VChan "GET" "/orders" "10.0.0.7"
                                  (clock (globals busy))))]].
Proof.
  refine (LogPanic_entry_that_does_not_marshal busy VChan "GET" "/orders" "10.0.0.7"
            (errors_New "json: unsupported type") (proj1 chan_ok_busy) eq_refl _ _).
  - cbn. lia.
  - vm_compute. reflexivity.
Defined.

End more_witnesses_2.

Section cycle_witnesses.
Import JsonRef Scenario Cases.

Lemma C6_unread_file_is_removed_witness :
  long_file = long_line +:+ after_long_line
  /\ no_newline long_line = true
  /\ (bufio.MaxScanTokenSize <= N.of_nat (String.length long_line))%N
  /\ malformed "not json" = true
  /\ recoverFallbackLogs (with_files [(spool_name, long_file)] w0)
     = Done (set_spool (os_Remove spool_name (spool (with_files [(spool_name, long_file)] w0)))
               (zap_log ErrorLevel "Error reading fallback log line by line"
                        [zap_Error ErrTooLong] (with_files [(spool_name, long_file)] w0))).
Proof.
  assert (Hsplit : long_file = long_line +:+ after_long_line) by reflexivity.
  assert (Hnl : no_newline long_line = true) by (vm_compute; reflexivity).
  assert (Hlen : (bufio.MaxScanTokenSize <= N.of_nat (String.length long_line))%N)
    by (vm_compute; discriminate).
  split; [exact Hsplit|]. split; [exact Hnl|]. split; [exact Hlen|].
  split; [vm_compute; reflexivity|].
  refine (C6_unread_file_is_removed (with_files [(spool_name, long_file)] w0) healthy
            spool_name long_line after_long_line eq_refl eq_refl eq_refl _ _ _ Hnl Hlen).
  - vm_compute. reflexivity.
  - change (files (spool (with_files [(spool_name, long_file)] w0)))
      with (<[spool_name := long_file]> (∅ : gmap string string)).
    rewrite lookup_insert_eq. by rewrite Hsplit.
  - intros q [c Hq] _.
    change (files (spool (with_files [(spool_name, long_file)] w0)))
      with (<[spool_name := long_file]> (∅ : gmap string string)) in Hq.
    apply lookup_insert_Some in Hq as [[<- _]|[_ Hq]]; [done|].
    rewrite lookup_empty in Hq. discriminate.
Defined.

(** C8 as stated fails: the directory holds a quarantined file and a spool
    file of the name it was renamed from, with a line that is not JSON.
    The cycle quarantines the spool file under the same name, and the file
    that was quarantined before is gone. *)
Lemma C8_quarantined_file_is_replaced :
  files (spool w_requarantine) !! (spool_name +:+ ".corrupt") = Some "OLD"
  /\ files (spool w_requarantine) !! spool_name = Some torn_file
  /\ exists w',
       recoverFallbackLogs w_requarantine = Done w'
       /\ files (spool w') = {[ spool_name +:+ ".corrupt" := torn_file ]}.
Proof.
  split; [vm_compute; reflexivity|]. split; [vm_compute; reflexivity|].
  eexists. split; vm_compute; reflexivity.
Qed.

Lemma C10_blank_file_deleted_witness :
  (forall w', recoverFallbackLogs w_blank = Done w' -> files (spool w') !! spool_name = None)
  /\ (exists v,
        recover_entry spool_name w_blank = Done v
        /\ files (spool v) = delete spool_name (files (spool w_blank))
        /\ rdb v = rdb w_blank)
  /\ ((forall q c, files (spool w_blank) !! q = Some c -> is_fallback_name q = true ->
         exists ls, bufio.ScanLines c = (ls, false)
                    /\ Forall (fun line => line = EmptyString) ls) ->
      exists w',
        recoverFallbackLogs w_blank = Done w'
        /\ rdb w' = rdb w_blank
        /\ forall q, is_fallback_name q = true -> files (spool w') !! q = None).
Proof.
  refine (C10_blank_file_deleted w_blank healthy spool_name blank_file
            [EmptyString; EmptyString] eq_refl eq_refl eq_refl _ _ _ _).
  - vm_compute. reflexivity.
  - vm_compute. reflexivity.
  - vm_compute. reflexivity.
  - repeat constructor.
Defined.

(** C10 as stated fails: the blank spool file stays when the cycle finds
    no client, and when the file cannot be opened. *)
Lemma C10_blank_file_stays :
  is_fallback_name spool_name = true
  /\ bufio.ScanLines blank_file = ([EmptyString; EmptyString], false)
  /\ (exists w',
        recoverFallbackLogs w_blank_no_client = Done w'
        /\ files (spool w_blank_no_client) !! spool_name = Some blank_file
        /\ files (spool w') !! spool_name = Some blank_file)
  /\ (exists w',
        recoverFallbackLogs w_blank_locked = Done w'
        /\ files (spool w_blank_locked) !! spool_name = Some blank_file
        /\ files (spool w') !! spool_name = Some blank_file).
Proof.
  split; [vm_compute; reflexivity|]. split; [vm_compute; reflexivity|].
  split; eexists; (split; [vm_compute; reflexivity|]); split; vm_compute; reflexivity.
Qed.

End cycle_witnesses.

Section host_witnesses.
Import Scenario Cases.

Lemma InitApplogs_takes_the_intervals_as_written_witness :
  exists p',
    InitApplogs (fun _ => healthy) env_numbers pkg_fresh = Done p'
    /\ fallbackResyncTime p' = 0
    /\ syslogKeepTime p' = -5
    /\ logger_nil p' = false
    /\ recovery_loops p' = recovery_loops pkg_fresh ++ [wrap64 (0 * time_Second)]
    /\ cleanup_loops p' = S (cleanup_loops pkg_fresh)
    /\ ((-9223372036 <= 0 <= 9223372036)%Z -> wrap64 (0 * time_Second) = (0 * time_Second)%Z).
Proof.
  refine (InitApplogs_takes_the_intervals_as_written (fun _ => healthy) env_numbers
            pkg_fresh 0 (-5) _ _ eq_refl eq_refl); vm_compute; split; discriminate.
Defined.

Lemma InitApplogs_invalid_number_witness :
  InitApplogs (fun _ => healthy) env_hours pkg_fresh = Panic nil_dereference.
Proof.
  refine (proj1 (InitApplogs_invalid_number (fun _ => healthy) env_hours pkg_fresh
                   "SYSLOG_KEEP_TIME" "72h" (strconv.ErrSyntax "72h")
                   (or_intror eq_refl) eq_refl _ eq_refl) eq_refl).
  discriminate.
Defined.

Lemma cleanupOldLogs_removes_what_is_older_witness :
  exists h',
    cleanupOldLogs noon_ns host0 = Done h'
    /\ (ModTime (MkFileInfo (noon_ns - 100 * time_Hour) false)
        < expiration noon_ns (syslogKeepTime (pkg host0)) ->
        nodes (tree h') !! "logs/fallback/fallback_20241228080000.log" = None)
    /\ (expiration noon_ns (syslogKeepTime (pkg host0))
        <= ModTime (MkFileInfo (noon_ns - 100 * time_Hour) false) ->
        nodes (tree h') !! "logs/fallback/fallback_20241228080000.log"
        = Some (MkFileInfo (noon_ns - 100 * time_Hour) false))
    /\ (-2562047 <= syslogKeepTime (pkg host0) <= 2562047 ->
        expiration noon_ns (syslogKeepTime (pkg host0))
        = noon_ns - syslogKeepTime (pkg host0) * time_Hour).
Proof.
  refine (cleanupOldLogs_removes_what_is_older noon_ns host0 "logs/fallback"
            "logs/fallback/fallback_20241228080000.log" "fallback_20241228080000.log"
            (MkFileInfo (noon_ns - 200 * time_Hour) true)
            (MkFileInfo (noon_ns - 100 * time_Hour) false)
            eq_refl _ _ eq_refl eq_refl _ _ _ _ eq_refl).
  - apply list_elem_of_In. right. left. reflexivity.
  - vm_compute. reflexivity.
  - vm_compute. reflexivity.
  - vm_compute. reflexivity.
  - apply has_entries_false. vm_compute. reflexivity.
  - discriminate.
Defined.

End host_witnesses.
